(** * Token authentication transport wrapper (package [authentication])

    A shallow embedding of the transport wrapper that adds OpenID tokens to
    outgoing requests: the builder and its [Build] method, the expiry
    computation [GetTokenExpiry], the decision procedure [tokens], the grant
    forms [sendRequestTokenForm] / [sendRefreshTokenForm] /
    [sendTokenFormTimed] and the retrying entry point [Tokens].

    Conventions of the embedding.
    - A Go [error] is its message, a [string]; [nil] is [None].
    - Go functions with several results return tuples in the same order.
    - A method with a pointer receiver that assigns fields of the receiver
      takes the state and returns the updated state as its last result.
    - [time.Duration] and [int] are integers ([Z]); every [Duration] built
      by the code is clamped by [time.Sub], written out in [time_Sub].
    - The logger only receives text and is not part of the model; its being
      [nil] is what [Build] looks at. *)

From Stdlib Require Import ZArith String Ascii List Bool Lia.
From Stdlib Require Import Floats.SpecFloat.
From stdpp Require Import base option gmap strings pretty.
Import ListNotations.

Set Warnings "-register-all".

Local Open Scope string_scope.
Local Open Scope list_scope.
Local Open Scope Z_scope.

(** ** Errors *)

Definition error := string.

(** ** Time

    [time.Time] is an instant, modelled as the number of nanoseconds since
    the Unix epoch; [time.Duration] is an [int64] count of nanoseconds. *)

Definition Time := Z.
Definition Duration := Z.

Definition Second : Duration := 1000000000.
Definition Minute : Duration := 60 * Second.

Definition minDuration : Duration := - 2 ^ 63.
Definition maxDuration : Duration := 2 ^ 63 - 1.

(** Two's complement wrap-around of [int64] arithmetic. *)
Definition wrap64 (z : Z) : Z := (z + 2 ^ 63) mod 2 ^ 64 - 2 ^ 63.

(** [time.Unix(sec, 0)]. A [Time] keeps the seconds since the year 1 in an
    [int64], [sec + unixToInternal], and this addition wraps around for the
    last sixty-two billion values of [sec]. *)
Definition unixToInternal : Z := 62135596800.

Definition time_Unix (sec : Z) : Time :=
  (wrap64 (sec + unixToInternal) - unixToInternal) * Second.

(** [t.Sub(u)]: the duration [t - u], or the minimum / maximum duration when
    the difference cannot be stored in a [Duration]. *)
Definition time_Sub (t u : Time) : Duration :=
  if t - u <? minDuration then minDuration
  else if maxDuration <? t - u then maxDuration
  else t - u.

(** ** Claim values

    A decoded JSON value held in an [interface{}]: [encoding/json] produces
    [nil], [bool], [float64], [string], [[]interface{}] and
    [map[string]interface{}]. A [float64] is an IEEE 754 datum. *)

Inductive Value : Type :=
| VNil
| VBool (b : bool)
| VFloat64 (f : spec_float)
| VString (s : string)
| VArray (items : list Value)
| VObject (fields : list (string * Value)).

(** The text that [%T] prints for a claim value. *)
Definition type_name (v : Value) : string :=
  match v with
  | VNil => "<nil>"
  | VBool _ => "bool"
  | VFloat64 _ => "float64"
  | VString _ => "string"
  | VArray _ => "[]interface {}"
  | VObject _ => "map[string]interface {}"
  end.

(** [exp == 0] on a [float64]: true for both zeros, false for everything
    else, NaN included. *)
Definition float64_is_zero (f : spec_float) : bool :=
  match f with
  | S754_zero _ => true
  | _ => false
  end.

Definition minInt64 : Z := - 2 ^ 63.
Definition maxInt64 : Z := 2 ^ 63 - 1.

(** [int64(exp)]: the fraction is discarded (truncation towards zero). When
    the value does not fit an [int64], or is an infinity or a NaN, the Go
    specification leaves the result to the implementation; the value that
    amd64 produces, [0x8000000000000000], is used. *)
Definition float64_to_int64 (f : spec_float) : Z :=
  match f with
  | S754_zero _ => 0
  | S754_finite s m e =>
      let magnitude := Z.shiftl (Z.pos m) e in
      let v := if s then - magnitude else magnitude in
      if (minInt64 <=? v) && (v <=? maxInt64) then v else minInt64
  | S754_infinity _ | S754_nan => minInt64
  end.

(** ** Tokens

    [jwt.Token] with the fields the wrapper reads: the encoded text and the
    claims. [jwt.Claims] is an interface; [jwt.MapClaims] is the
    implementation the wrapper asks the parser for, any other one is kept
    with the name of its type. *)

Inductive Claims : Type :=
| MapClaims (m : gmap string Value)
| OtherClaims (type : string).

Record Token : Type := mkToken {
  Raw : string;
  token_Claims : Claims;
}.

(** ** GetTokenExpiry

    Determines if the given token expires, and the time that remains till it
    expires. In both failure messages [%T] is applied to the variable
    [claims] / [claim] as the code does: [claims] is then the zero value of
    [jwt.MapClaims]. *)
Definition GetTokenExpiry (token : Token) (now : Time)
  : bool * Duration * option error :=
  match token_Claims token with
  | OtherClaims _ =>
      (false, 0, Some "expected map claims bug got jwt.MapClaims")
  | MapClaims claims =>
      let finish (exp : spec_float) : bool * Duration * option error :=
        if float64_is_zero exp then (false, 0, None)
        else (true, time_Sub (time_Unix (float64_to_int64 exp)) now, None) in
      match claims !! "exp" with
      | Some claim =>
          match claim with
          | VFloat64 exp => finish exp
          | _ =>
              (false, 0,
               Some ("expected floating point 'exp' but got " +:+ type_name claim))
          end
      | None => finish (S754_zero false)
      end
  end.

(** The default freshness window. *)
Definition tokenExpiry : Duration := 1 * Minute.


(** ** strings

    [strings.Join]. *)
Fixpoint strings_Join (elems : list string) (sep : string) : string :=
  match elems with
  | [] => ""
  | [e] => e
  | e :: rest => e +:+ sep +:+ strings_Join rest sep
  end.

Definition byte_of (c : ascii) : Z := Z.of_N (N_of_ascii c).

(** The lower-case form of an ASCII letter, any other byte unchanged. *)
Definition ascii_lower (b : Z) : Z :=
  if (65 <=? b) && (b <=? 90) then b + 32 else b.

(** [strings.EqualFold(s, t)] for a [t] made of ASCII bytes, which is how
    [Build] calls it: equality of the UTF-8 texts under simple Unicode case
    folding. An ASCII character of [t] is matched by itself, by its other
    case, and for [k] and [s] by the two characters outside ASCII that fold
    to them: U+212A KELVIN SIGN (bytes E2 84 AA) and U+017F LATIN SMALL
    LETTER LONG S (bytes C5 BF). *)
Fixpoint strings_EqualFold (s t : string) : bool :=
  match t with
  | EmptyString =>
      match s with
      | EmptyString => true
      | String _ _ => false
      end
  | String tc t' =>
      let tl := ascii_lower (byte_of tc) in
      match s with
      | EmptyString => false
      | String b1 r1 =>
          if byte_of b1 <? 128 then
            (ascii_lower (byte_of b1) =? tl) && strings_EqualFold r1 t'
          else
            match r1 with
            | String b2 r2 =>
                if (tl =? 115) && (byte_of b1 =? 197) && (byte_of b2 =? 191)
                then strings_EqualFold r2 t'
                else
                  match r2 with
                  | String b3 r3 =>
                      if (tl =? 107) && (byte_of b1 =? 226)
                         && (byte_of b2 =? 132) && (byte_of b3 =? 170)
                      then strings_EqualFold r3 t'
                      else false
                  | EmptyString => false
                  end
            | EmptyString => false
            end
      end
  end.

(** ** Results of fallible collaborators *)

Inductive result (A : Type) : Type :=
| Ok (a : A)
| Err (e : error).
Arguments Ok {A} a.
Arguments Err {A} e.

(** ** The builder *)

(** Default values. *)
Definition DefaultTokenURL : string :=
  "https://sso.redhat.com/auth/realms/redhat-external/protocol/openid-connect/token".
Definition DefaultClientID : string := "cloud-services".
Definition DefaultClientSecret : string := "".
Definition DefaultScopes : list string := ["openid"].

(** [logging.Logger]: only whether the debug level is enabled is read. *)
Record Logger : Type := mkLogger { DebugEnabled : bool }.

(** A source of trusted certificate authorities, an [interface{}]: a
    [*x509.CertPool], the name of a PEM file, or a value of another type. *)
Inductive TrustedCA : Type :=
| CertPool
| CAFile (name : string)
| CAOther (type : string).

(** Prometheus collectors and the [prometheus.Registerer] interface. A
    registerer answers a registration with [nil], with an
    [AlreadyRegisteredError] carrying the existing collector, or with another
    error. *)
Inductive Collector : Type :=
| CounterVec (subsystem name : string)
| HistogramVec (subsystem name : string)
| OtherCollector.

Inductive RegisterResult : Type :=
| RegisterNil
| AlreadyRegisteredError (ExistingCollector : Collector)
| RegisterError (e : error).

Definition Registerer := Collector -> RegisterResult.

(** The builder. The functions added with [TransportWrapper] and
    [TransportWrappers] wrap the transport of the HTTP client; they are only
    handed to the client selector and are part of what
    [NewClientSelector_Build] stands for below. *)
Record TransportWrapperBuilder : Type := mkBuilder {
  b_logger : option Logger;
  b_tokenURL : string;
  b_clientID : string;
  b_clientSecret : string;
  b_user : string;
  b_password : string;
  b_tokens : list string;
  b_scopes : list string;
  b_agent : string;
  b_trustedCAs : list TrustedCA;
  b_insecure : bool;
  b_metricsSubsystem : string;
  b_metricsRegisterer : option Registerer;
}.

(** [NewTransportWrapper]: every field has its zero value. *)
Definition NewTransportWrapper : TransportWrapperBuilder :=
  {| b_logger := None; b_tokenURL := ""; b_clientID := ""; b_clientSecret := "";
     b_user := ""; b_password := ""; b_tokens := []; b_scopes := [];
     b_agent := ""; b_trustedCAs := []; b_insecure := false;
     b_metricsSubsystem := ""; b_metricsRegisterer := None |}.

(** ** The wrapper *)

(** [internal.ServerAddress], kept as the text it was parsed from. *)
Inductive ServerAddress : Type := serverAddress (text : string).

Record TransportWrapper : Type := mkWrapper {
  logger : Logger;
  clientID : string;
  clientSecret : string;
  user : string;
  password : string;
  scopes : list string;
  agent : string;
  tokenURL : string;
  tokenServer : ServerAddress;
  accessToken : option Token;
  refreshToken : option Token;
  metricsSubsystem : string;
  metricsRegisterer : option Registerer;
  tokenCountMetric : option Collector;
  tokenDurationMetric : option Collector;
}.

(** The two assignments at the end of [sendTokenFormTimed]. *)
Definition saveTokens (w : TransportWrapper) (access refresh : Token)
  : TransportWrapper :=
  {| logger := logger w; clientID := clientID w; clientSecret := clientSecret w;
     user := user w; password := password w; scopes := scopes w;
     agent := agent w; tokenURL := tokenURL w; tokenServer := tokenServer w;
     accessToken := Some access; refreshToken := Some refresh;
     metricsSubsystem := metricsSubsystem w;
     metricsRegisterer := metricsRegisterer w;
     tokenCountMetric := tokenCountMetric w;
     tokenDurationMetric := tokenDurationMetric w |}.

(** ** The token endpoint *)

(** [url.Values] and [http.Header]: a key holds a list of values, [Set]
    replaces it by a single one. *)
Definition Values_Set (key value : string) (m : gmap string (list string))
  : gmap string (list string) := <[key := [value]]> m.

(** The request that [sendTokenFormTimed] sends; the body is the form, which
    the code encodes with [form.Encode]. *)
Record Request : Type := mkRequest {
  Method : string;
  URL : string;
  Header : gmap string (list string);
  Form : gmap string (list string);
}.

(** [internal.TokenResponse], with the fields that the wrapper reads. *)
Record TokenResponse : Type := mkTokenResponse {
  Error : option string;
  ErrorDescription : option string;
  TokenType : option string;
  AccessToken : option string;
  RefreshToken : option string;
}.

(** What the collaborators of [sendTokenFormTimed] make of one request. The
    response is described by what [internal.CheckContentType],
    [ioutil.ReadAll] and [json.Unmarshal] yield on it; [json.Unmarshal] may
    have filled parts of the result when it reports an error. *)
Inductive Payload : Type :=
| NotJSON (e : error)
| Unreadable (e : error)
| Unmarshalled (result : TokenResponse) (e : option error).

Inductive Exchange : Type :=
| SelectFailed (e : error)
| DoFailed (e : error)
| Response (StatusCode : Z) (body : Payload).

(** The collaborators that are consumed through interfaces or that live in
    other packages: the JWT parser ([ParseUnverified] of a [jwt.Parser] asked
    for [jwt.MapClaims]), [internal.ParseServerAddress], the construction of
    the [internal.ClientSelector], and the token endpoint together with the
    HTTP client that reaches it, which answers a request knowing the
    exchanges that took place before. *)
Record Collaborators : Type := mkCollaborators {
  ParseUnverified : string -> result Token;
  ParseServerAddress : string -> result ServerAddress;
  NewClientSelector_Build : list TrustedCA -> bool -> option error;
  Do : list (Request * Exchange) -> Request -> Exchange;
}.

(** The wrapper together with what it has done to the outside: the exchanges
    with the token endpoint (latest first) and the observations reported to
    the two metrics, each labelled with the attempt and the code. *)
Record World : Type := mkWorld {
  wrapper : TransportWrapper;
  exchanges : list (Request * Exchange);
  tokenCount : list (string * string);
  tokenDuration : list (string * string);
}.

Definition nonempty (s : string) : bool := negb (String.eqb s "").

Section Wrapper.

Context (E : Collaborators).

(** ** Build *)

(** The loop of [Build] over the tokens given to the builder, from the token
    of index [i] on; [accessToken] and [refreshToken] are the variables that
    the loop assigns. *)
Fixpoint parseTokens (i : nat) (texts : list string)
    (accessToken refreshToken : option Token)
  : result (option Token * option Token) :=
  match texts with
  | [] => Ok (accessToken, refreshToken)
  | text :: rest =>
      match ParseUnverified E text with
      | Err err => Err ("can't parse token " +:+ pretty i +:+ ": " +:+ err)
      | Ok token =>
          match token_Claims token with
          | OtherClaims _ =>
              Err ("claims of token " +:+ pretty i
                   +:+ " are of type 'jwt.MapClaims'")
          | MapClaims claims =>
              match claims !! "typ" with
              | None =>
                  Err ("token " +:+ pretty i
                       +:+ " doesn't contain the 'typ' claim")
              | Some claim =>
                  match claim with
                  | VString typ =>
                      if strings_EqualFold typ "Bearer" then
                        parseTokens (S i) rest (Some token) refreshToken
                      else if strings_EqualFold typ "Refresh" then
                        parseTokens (S i) rest accessToken (Some token)
                      else if strings_EqualFold typ "Offline" then
                        parseTokens (S i) rest accessToken (Some token)
                      else
                        Err ("type '" +:+ typ +:+ "' of token " +:+ pretty i
                             +:+ " is unknown")
                  | _ =>
                      Err ("claim 'type' of token " +:+ pretty i
                           +:+ " is of type '" +:+ type_name claim +:+ "'")
                  end
              end
          end
      end
  end.

(** Registration of one metric: [Register], then the handling of
    [AlreadyRegisteredError], whose type assertion on the existing collector
    ([expected]) has no [ok] result and panics when it fails. Calling
    [Register] on a nil registerer panics as well. *)
Inductive Registration : Type :=
| Registered (metric : Collector)
| RegistrationFailed (err : error)
| RegistrationPanic.

Definition register (registerer : option Registerer) (metric : Collector)
    (expected : Collector -> bool) : Registration :=
  match registerer with
  | None => RegistrationPanic
  | Some r =>
      match r metric with
      | RegisterNil => Registered metric
      | AlreadyRegisteredError existing =>
          if expected existing then Registered existing else RegistrationPanic
      | RegisterError err => RegistrationFailed err
      end
  end.

Definition isCounterVec (c : Collector) : bool :=
  match c with CounterVec _ _ => true | _ => false end.

Definition isHistogramVec (c : Collector) : bool :=
  match c with HistogramVec _ _ => true | _ => false end.

Inductive BuildResult : Type :=
| Built (result : TransportWrapper)
| BuildFailed (err : error)
| BuildPanic.

(** Build uses the information stored in the builder to create a new
    transport wrapper. *)
Definition Build (b : TransportWrapperBuilder) : BuildResult :=
  match b_logger b with
  | None => BuildFailed "logger is mandatory"
  | Some lg =>
      let haveTokens := (0 <? length (b_tokens b))%nat in
      let havePassword := nonempty (b_user b) && nonempty (b_password b) in
      let haveSecret := nonempty (b_clientID b) && nonempty (b_clientSecret b) in
      if negb haveTokens && negb havePassword && negb haveSecret then
        BuildFailed
          ("either a token, an user name and password or a client identifier and secret are "
           +:+ "necessary, but none has been provided")
      else
        match parseTokens 0 (b_tokens b) None None with
        | Err err => BuildFailed err
        | Ok (accessToken, refreshToken) =>
            let tokenURL :=
              if nonempty (b_tokenURL b) then b_tokenURL b else DefaultTokenURL in
            match ParseServerAddress E tokenURL with
            | Err err =>
                BuildFailed ("can't parse token URL '" +:+ tokenURL +:+ "': " +:+ err)
            | Ok tokenServer =>
                let clientID :=
                  if nonempty (b_clientID b) then b_clientID b else DefaultClientID in
                let clientSecret :=
                  if nonempty (b_clientSecret b) then b_clientSecret b
                  else DefaultClientSecret in
                let scopes :=
                  if (length (b_scopes b) =? 0)%nat then DefaultScopes
                  else b_scopes b in
                match NewClientSelector_Build E (b_trustedCAs b) (b_insecure b) with
                | Some err => BuildFailed err
                | None =>
                    let finish (tokenCountMetric tokenDurationMetric : option Collector) :=
                      Built
                        {| logger := lg; clientID := clientID;
                           clientSecret := clientSecret; user := b_user b;
                           password := b_password b; scopes := scopes;
                           agent := b_agent b; tokenURL := tokenURL;
                           tokenServer := tokenServer;
                           accessToken := accessToken;
                           refreshToken := refreshToken;
                           metricsSubsystem := b_metricsSubsystem b;
                           metricsRegisterer := b_metricsRegisterer b;
                           tokenCountMetric := tokenCountMetric;
                           tokenDurationMetric := tokenDurationMetric |} in
                    if nonempty (b_metricsSubsystem b) then
                      match register (b_metricsRegisterer b)
                              (CounterVec (b_metricsSubsystem b) "token_request_count")
                              isCounterVec with
                      | RegistrationPanic => BuildPanic
                      | RegistrationFailed err => BuildFailed err
                      | Registered tokenCountMetric =>
                          match register (b_metricsRegisterer b)
                                  (HistogramVec (b_metricsSubsystem b)
                                                "token_request_duration")
                                  isHistogramVec with
                          | RegistrationPanic => BuildPanic
                          | RegistrationFailed err => BuildFailed err
                          | Registered tokenDurationMetric =>
                              finish (Some tokenCountMetric) (Some tokenDurationMetric)
                          end
                      end
                    else finish None None
                end
            end
        end
  end.

(** ** Credentials *)

Definition havePassword (w : TransportWrapper) : bool :=
  nonempty (user w) && nonempty (password w).

Definition haveSecret (w : TransportWrapper) : bool :=
  nonempty (clientID w) && nonempty (clientSecret w).

(** haveCredentials returns true if the connection has credentials that can
    be used to request new tokens. *)
Definition haveCredentials (w : TransportWrapper) : bool :=
  havePassword w || haveSecret w.

Definition notNil {A : Type} (p : option A) : bool :=
  match p with Some _ => true | None => false end.

(** currentTokens returns the current tokens without trying to send any
    request to refresh them; a token that is not available is the empty
    string. *)
Definition currentTokens (w : TransportWrapper) : string * string :=
  (match accessToken w with Some t => Raw t | None => "" end,
   match refreshToken w with Some t => Raw t | None => "" end).

(** ** Sending the grant forms *)

Definition StatusOK : Z := 200.
Definition StatusInternalServerError : Z := 500.

Definition recordExchange (request : Request) (x : Exchange) (st : World)
  : World :=
  {| wrapper := wrapper st;
     exchanges := (request, x) :: exchanges st;
     tokenCount := tokenCount st;
     tokenDuration := tokenDuration st |}.

Definition setWrapper (w : TransportWrapper) (st : World) : World :=
  {| wrapper := w;
     exchanges := exchanges st;
     tokenCount := tokenCount st;
     tokenDuration := tokenDuration st |}.

(** The request that [sendTokenFormTimed] creates: a POST of the form to the
    token URL, with the user agent when there is one. *)
Definition tokenRequest (w : TransportWrapper)
    (form : gmap string (list string)) : Request :=
  let header := ∅ in
  let header :=
    if nonempty (agent w) then Values_Set "User-Agent" (agent w) header
    else header in
  let header := Values_Set "Content-Type" "application/x-www-form-urlencoded" header in
  let header := Values_Set "Accept" "application/json" header in
  {| Method := "POST"; URL := tokenURL w; Header := header; Form := form |}.

(** [sendTokenFormTimed]: builds the request, has it sent, reads and checks
    the response, and saves the two tokens when all of it succeeded. The
    request is created from the token URL that [Build] has parsed, so the
    failure branch of [http.NewRequest] is not taken. *)
Definition sendTokenFormTimed (form : gmap string (list string)) (st : World)
  : Z * option TokenResponse * option error * World :=
  let w := wrapper st in
  let request := tokenRequest w form in
  let x := Do E (exchanges st) request in
  let st := recordExchange request x st in
  match x with
  | SelectFailed err => (0, None, Some err, st)
  | DoFailed err => (0, None, Some ("can't send request: " +:+ err), st)
  | Response StatusCode body =>
      let code := StatusCode in
      match body with
      | NotJSON err => (code, None, Some err, st)
      | Unreadable err =>
          (code, None, Some ("can't read response: " +:+ err), st)
      | Unmarshalled result (Some err) =>
          (code, Some result, Some ("can't parse JSON response: " +:+ err), st)
      | Unmarshalled result None =>
          match Error result with
          | Some e =>
              match ErrorDescription result with
              | Some d => (code, Some result, Some (e +:+ ": " +:+ d), st)
              | None => (code, Some result, Some e, st)
              end
          | None =>
              let decode :=
                match AccessToken result with
                | None =>
                    (code, Some result, Some "no access token was received", st)
                | Some accessText =>
                    match ParseUnverified E accessText with
                    | Err err => (code, Some result, Some err, st)
                    | Ok accessToken =>
                        match RefreshToken result with
                        | None =>
                            (code, Some result,
                             Some "no refresh token was received", st)
                        | Some refreshText =>
                            match ParseUnverified E refreshText with
                            | Err err => (code, Some result, Some err, st)
                            | Ok refreshToken =>
                                (code, Some result, None,
                                 setWrapper (saveTokens w accessToken refreshToken) st)
                            end
                        end
                    end
                end in
              if negb (StatusCode =? StatusOK) then
                (code, Some result,
                 Some ("token response status code is '" +:+ pretty StatusCode +:+ "'"),
                 st)
              else
                match TokenType result with
                | Some t =>
                    if negb (String.eqb t "bearer") then
                      (code, Some result,
                       Some ("expected 'bearer' token type but got '" +:+ t), st)
                    else decode
                | None => decode
                end
          end
      end
  end.

(** [sendTokenForm]: sends the form and reports the attempt to the metrics
    that are registered; [strconv.Itoa] gives the labels. The duration that
    is observed is a reading of the clock and is not kept. *)
Definition sendTokenForm (form : gmap string (list string)) (attempt : Z)
    (st : World) : Z * option TokenResponse * option error * World :=
  let '(code, result, err, st) := sendTokenFormTimed form st in
  let w := wrapper st in
  let st :=
    if notNil (tokenCountMetric w) || notNil (tokenDurationMetric w) then
      let labels := (pretty attempt, pretty code) in
      {| wrapper := w;
         exchanges := exchanges st;
         tokenCount :=
           if notNil (tokenCountMetric w) then labels :: tokenCount st
           else tokenCount st;
         tokenDuration :=
           if notNil (tokenDurationMetric w) then labels :: tokenDuration st
           else tokenDuration st |}
    else st in
  (code, result, err, st).

(** The form of the password grant, or of the client credentials grant. *)
Definition passwordForm (w : TransportWrapper) : gmap string (list string) :=
  Values_Set "password" (password w)
    (Values_Set "username" (user w)
       (Values_Set "client_id" (clientID w)
          (Values_Set "grant_type" "password" ∅))).

Definition clientCredentialsForm (w : TransportWrapper)
  : gmap string (list string) :=
  Values_Set "client_secret" (clientSecret w)
    (Values_Set "client_id" (clientID w)
       (Values_Set "grant_type" "client_credentials" ∅)).

Definition sendRequestTokenForm (attempt : Z) (st : World)
  : Z * option TokenResponse * option error * World :=
  let w := wrapper st in
  let withScope (form : gmap string (list string)) :=
    Values_Set "scope" (strings_Join (scopes w) " ") form in
  if havePassword w then
    sendTokenForm (withScope (passwordForm w)) attempt st
  else if haveSecret w then
    sendTokenForm (withScope (clientCredentialsForm w)) attempt st
  else
    (0, None, Some "either password or client secret must be provided", st).

(** The form of the refresh token grant. *)
Definition refreshForm (w : TransportWrapper) (refreshRaw : string)
  : gmap string (list string) :=
  Values_Set "refresh_token" refreshRaw
    (Values_Set "client_secret" (clientSecret w)
       (Values_Set "client_id" (clientID w)
          (Values_Set "grant_type" "refresh_token" ∅))).

(** [sendRefreshTokenForm]. The code reads [w.refreshToken.Raw] without a
    check and panics when there is no refresh token; [tokens] calls it only
    after [w.refreshToken != nil]. The panic is rendered as a failure with
    the text of the runtime error and without any exchange. *)
Definition sendRefreshTokenForm (attempt : Z) (st : World)
  : Z * option TokenResponse * option error * World :=
  let w := wrapper st in
  match refreshToken w with
  | None =>
      (0, None,
       Some "runtime error: invalid memory address or nil pointer dereference",
       st)
  | Some token =>
      let '(code, result, err, st') :=
        sendTokenForm (refreshForm w (Raw token)) attempt st in
      match err, result with
      | Some _, Some r =>
          let errorCode := default "" (Error r) in
          if String.eqb errorCode "invalid_grant"
             && haveCredentials (wrapper st')
          then sendRequestTokenForm attempt st'
          else (code, result, err, st')
      | _, _ => (code, result, err, st')
      end
  end.

(** ** tokens *)

Definition noTokensMessage : string :=
  "access and refresh tokens are unavailable or expired, and there are no "
  +:+ "password or client secret to request new ones".

(** What [tokens] does with the results of a grant: the failure as it is, or
    the tokens that are now current. *)
Definition afterGrant (r : Z * option TokenResponse * option error * World)
  : Z * string * string * option error * World :=
  let '(code, _, err, st) := r in
  match err with
  | Some _ => (code, "", "", err, st)
  | None =>
      let '(access, refresh) := currentTokens (wrapper st) in
      (code, access, refresh, None, st)
  end.

(** [tokens]: one attempt to produce tokens that stay valid for [expiresIn],
    with the clock reading [now]. The mutex that the code holds during the
    attempt has no counterpart in this sequential model. *)
Definition tokens (now : Time) (attempt : Z) (expiresIn : Duration)
    (st : World) : Z * string * string * option error * World :=
  let w := wrapper st in
  let '(accessExpires, accessLeft, err) :=
    match accessToken w with
    | Some token => GetTokenExpiry token now
    | None => (false, 0, None)
    end in
  match err with
  | Some _ => (0, "", "", err, st)
  | None =>
      let '(refreshExpires, refreshLeft, err) :=
        match refreshToken w with
        | Some token => GetTokenExpiry token now
        | None => (false, 0, None)
        end in
      match err with
      | Some _ => (0, "", "", err, st)
      | None =>
          if notNil (accessToken w)
             && (negb accessExpires || (accessLeft >=? expiresIn)) then
            let '(access, refresh) := currentTokens w in
            (0, access, refresh, None, st)
          else if notNil (refreshToken w)
                  && (negb refreshExpires || (refreshLeft >=? expiresIn)) then
            afterGrant (sendRefreshTokenForm attempt st)
          else if haveCredentials w then
            afterGrant (sendRequestTokenForm attempt st)
          else if notNil (refreshToken w) && (refreshLeft >? 0) then
            afterGrant (sendRefreshTokenForm attempt st)
          else if notNil (accessToken w) && (accessLeft >? 0) then
            let '(access, refresh) := currentTokens w in
            (0, access, refresh, None, st)
          else
            (0, "", "", Some noTokensMessage, st)
      end
  end.

(** ** Tokens *)

(** What an operation under [backoff.Retry] returns besides [nil]: an error
    as it is, after which the operation may be run again, or an error wrapped
    by [backoff.Permanent], after which it is not. *)
Inductive BackoffError : Type :=
| Transient (err : error)
| Permanent (err : error).

(** [backoff.Retry(operation, b)]: runs the operation until it returns [nil]
    or a permanent error, or until the back-off policy stops. [retries] is
    the number of times that the policy, which is bounded by fifteen seconds
    of elapsed time and by the deadline of the context, grants another run.
    The value that [Retry] returns is not used by [Tokens]; what remains is
    the state that the operation leaves behind. *)
Fixpoint backoff_Retry {S : Type} (operation : S -> option BackoffError * S)
    (retries : nat) (s : S) : S :=
  let '(r, s') := operation s in
  match r with
  | None => s'
  | Some (Permanent _) => s'
  | Some (Transient _) =>
      match retries with
      | O => s'
      | S n => backoff_Retry operation n s'
      end
  end.

(** The variables of [Tokens] that the closure [operation] assigns. *)
Record Captured : Type := mkCaptured {
  c_attempt : Z;
  c_access : string;
  c_refresh : string;
  c_err : option error;
}.

(** Their values when [Tokens] starts. *)
Definition beforeFirstAttempt : Captured :=
  {| c_attempt := 0; c_access := ""; c_refresh := ""; c_err := None |}.

(** The closure [operation] of [Tokens]; [clock] gives the reading of
    [time.Now] in the attempt of a given number. *)
Definition operation (clock : Z -> Time) (expiresDuration : Duration)
    (s : Captured * World) : option BackoffError * (Captured * World) :=
  let '(c, st) := s in
  let attempt := c_attempt c + 1 in
  let '(code, access, refresh, err, st) :=
    tokens (clock attempt) attempt expiresDuration st in
  let c :=
    {| c_attempt := attempt; c_access := access; c_refresh := refresh;
       c_err := err |} in
  match err with
  | Some e =>
      if code >=? StatusInternalServerError then (Some (Transient e), (c, st))
      else (Some (Permanent e), (c, st))
  | None => (None, (c, st))
  end.

(** The freshness window of a call of [Tokens]: the optional argument when
    exactly one is given, the default otherwise. *)
Definition freshnessWindow (expiresIn : list Duration) : Duration :=
  match expiresIn with
  | [d] => d
  | _ => tokenExpiry
  end.

(** Tokens returns the access and refresh tokens that are currently in use
    by the wrapper, requesting new ones when that is necessary, with retries
    under an exponential back-off. *)
Definition Tokens (clock : Z -> Time) (retries : nat)
    (expiresIn : list Duration) (st : World)
  : string * string * option error * World :=
  let expiresDuration := freshnessWindow expiresIn in
  let '(c, st) :=
    backoff_Retry (operation clock expiresDuration) retries
      (beforeFirstAttempt, st) in
  (c_access c, c_refresh c, c_err c, st).

End Wrapper.

(** ** Test doubles

    Collaborators and inputs for concrete runs: a parser that knows a few
    unsigned tokens (header [{"alg":"none"}], the claims given beside each
    text), an address parser and a client selector that accept what they are
    given, and token endpoints with a fixed behaviour. *)

(** The [float64] that [encoding/json] produces for an integer literal. *)
Definition float64_of_Z (n : Z) : spec_float := binary_normalize 53 1024 n 0 false.

Definition bearerText : string :=
  "eyJhbGciOiJub25lIn0.eyJ0eXAiOiJCZWFyZXIifQ.".
Definition offlineText : string :=
  "eyJhbGciOiJub25lIn0.eyJ0eXAiOiJPZmZsaW5lIn0.".
Definition refreshText : string :=
  "eyJhbGciOiJub25lIn0.eyJ0eXAiOiJSZWZyZXNoIn0.".
Definition bearerExpZeroText : string :=
  "eyJhbGciOiJub25lIn0.eyJ0eXAiOiJCZWFyZXIiLCJleHAiOjB9.".
Definition refreshExpNeverText : string :=
  "eyJhbGciOiJub25lIn0.eyJ0eXAiOiJSZWZyZXNoIiwiZXhwIjoibmV2ZXIifQ.".
Definition bearerExp2000000000Text : string :=
  "eyJhbGciOiJub25lIn0.eyJ0eXAiOiJCZWFyZXIiLCJleHAiOjIwMDAwMDAwMDB9.".
Definition refreshExp2000000000Text : string :=
  "eyJhbGciOiJub25lIn0.eyJ0eXAiOiJSZWZyZXNoIiwiZXhwIjoyMDAwMDAwMDAwfQ.".
Definition bearerExp1000000030Text : string :=
  "eyJhbGciOiJub25lIn0.eyJ0eXAiOiJCZWFyZXIiLCJleHAiOjEwMDAwMDAwMzB9.".
Definition refreshExp1000000030Text : string :=
  "eyJhbGciOiJub25lIn0.eyJ0eXAiOiJSZWZyZXNoIiwiZXhwIjoxMDAwMDAwMDMwfQ.".

Definition bearerLowerText : string :=
  "eyJhbGciOiJub25lIn0.eyJ0eXAiOiJiZWFyZXIifQ.".

Definition knownTokens : list (string * list (string * Value)) :=
  [ (bearerText, [("typ", VString "Bearer")]);
    (bearerLowerText, [("typ", VString "bearer")]);
    (offlineText, [("typ", VString "Offline")]);
    (refreshText, [("typ", VString "Refresh")]);
    (bearerExpZeroText,
      [("typ", VString "Bearer"); ("exp", VFloat64 (float64_of_Z 0))]);
    (refreshExpNeverText,
      [("typ", VString "Refresh"); ("exp", VString "never")]);
    (bearerExp2000000000Text,
      [("typ", VString "Bearer"); ("exp", VFloat64 (float64_of_Z 2000000000))]);
    (refreshExp2000000000Text,
      [("typ", VString "Refresh"); ("exp", VFloat64 (float64_of_Z 2000000000))]);
    (bearerExp1000000030Text,
      [("typ", VString "Bearer"); ("exp", VFloat64 (float64_of_Z 1000000030))]);
    (refreshExp1000000030Text,
      [("typ", VString "Refresh"); ("exp", VFloat64 (float64_of_Z 1000000030))]) ].

Fixpoint findToken (text : string) (known : list (string * list (string * Value)))
  : result Token :=
  match known with
  | [] => Err "token contains an invalid number of segments"
  | (t, claims) :: rest =>
      if String.eqb t text
      then Ok {| Raw := text; token_Claims := MapClaims (list_to_map claims) |}
      else findToken text rest
  end.

Definition knownParser (text : string) : result Token := findToken text knownTokens.

(** The token that [knownParser] yields for a known text. *)
Definition tokenOf (text : string) : Token :=
  match knownParser text with
  | Ok token => token
  | Err _ => {| Raw := text; token_Claims := MapClaims ∅ |}
  end.

(** A client selector that rejects a source of trusted certificates that is
    neither a pool nor a file name. *)
Definition selectorBuild (trustedCAs : list TrustedCA) (insecure : bool)
  : option error :=
  if forallb (fun ca => match ca with CAOther _ => false | _ => true end) trustedCAs
  then None
  else Some "don't know how to load trusted CA".

(** The grant type of a request. *)
Definition grantType (request : Request) : string :=
  match Form request !! "grant_type" with
  | Some [v] => v
  | _ => ""
  end.

Definition isRefreshGrant (request : Request) : bool :=
  String.eqb (grantType request) "refresh_token".

Definition isCredentialsGrant (request : Request) : bool :=
  String.eqb (grantType request) "password"
  || String.eqb (grantType request) "client_credentials".

Definition collaboratorsWith
    (endpoint : list (Request * Exchange) -> Request -> Exchange)
  : Collaborators :=
  {| ParseUnverified := knownParser;
     ParseServerAddress := fun url => Ok (serverAddress url);
     NewClientSelector_Build := selectorBuild;
     Do := endpoint |}.

(** An endpoint that cannot be reached. *)
Definition unreachable : list (Request * Exchange) -> Request -> Exchange :=
  fun _ _ => DoFailed "dial tcp: connection refused".

Definition emptyResponse : TokenResponse :=
  {| Error := None; ErrorDescription := None; TokenType := None;
     AccessToken := None; RefreshToken := None |}.

Definition invalidGrant : TokenResponse :=
  {| Error := Some "invalid_grant";
     ErrorDescription := Some "Session not active"; TokenType := None;
     AccessToken := None; RefreshToken := None |}.

Definition freshTokens : TokenResponse :=
  {| Error := None; ErrorDescription := None; TokenType := Some "bearer";
     AccessToken := Some bearerExp2000000000Text;
     RefreshToken := Some refreshExp2000000000Text |}.

(** An endpoint whose sessions are gone and that is overloaded at first: it
    answers every refresh token grant with [invalid_grant] (status 400), the
    first other grant with status 503 and an HTML page, and later grants
    with a pair of tokens. *)
Definition restartedEndpoint : list (Request * Exchange) -> Request -> Exchange :=
  fun history request =>
    if isRefreshGrant request then
      Response 400 (Unmarshalled invalidGrant None)
    else if existsb (fun p => isCredentialsGrant (fst p)) history then
      Response 200 (Unmarshalled freshTokens None)
    else
      Response 503 (NotJSON "expected response content type 'application/json' but received 'text/html'").

(** An endpoint that answers every grant with a pair of tokens. *)
Definition healthyEndpoint : list (Request * Exchange) -> Request -> Exchange :=
  fun _ _ => Response 200 (Unmarshalled freshTokens None).

Definition sampleLogger : Logger := {| DebugEnabled := false |}.

(** A wrapper as [Build] makes it from the given credentials and tokens. *)
Definition sampleWrapper (user password clientSecret : string)
    (access refresh : option Token) : TransportWrapper :=
  {| logger := sampleLogger; clientID := DefaultClientID;
     clientSecret := clientSecret; user := user; password := password;
     scopes := DefaultScopes; agent := ""; tokenURL := DefaultTokenURL;
     tokenServer := serverAddress DefaultTokenURL;
     accessToken := access; refreshToken := refresh;
     metricsSubsystem := ""; metricsRegisterer := None;
     tokenCountMetric := None; tokenDurationMetric := None |}.

Definition freshWorld (w : TransportWrapper) : World :=
  {| wrapper := w; exchanges := []; tokenCount := []; tokenDuration := [] |}.

(** A clock that stands at second 1 000 000 000 of the Unix era. *)
Definition stoppedClock : Z -> Time := fun _ => time_Unix 1000000000.


(** A wrapper that holds a refresh token without [exp] claim and a client
    secret, and one that holds a user name and a password only. *)
Definition secretWorld : World :=
  freshWorld (sampleWrapper "" "" "secret" None (Some (tokenOf refreshText))).

Definition passwordWorld : World :=
  freshWorld (sampleWrapper "user" "password" "" None None).

(** A wrapper that holds an access token without [exp] claim and a refresh
    token whose [exp] claim is a text. *)
Definition oddRefreshWorld : World :=
  freshWorld (sampleWrapper "" "" "" (Some (tokenOf bearerText))
                (Some (tokenOf refreshExpNeverText))).

(** A wrapper that holds an access token with thirty seconds left at the
    stopped clock and no refresh token. *)
Definition accessOnlyWorld : World :=
  freshWorld (sampleWrapper "" "" "" (Some (tokenOf bearerExp1000000030Text))
                None).

(** The first run of the closure of [Tokens] with the default freshness
    window and the stopped clock. *)
Definition firstAttempt (E : Collaborators) (st : World)
  : option BackoffError * (Captured * World) :=
  operation E stoppedClock tokenExpiry (beforeFirstAttempt, st).

(** A password grant against the endpoint that answers with tokens, and a
    refresh token grant against the endpoint whose sessions are gone. *)
Definition healthyGrant : Z * option TokenResponse * option error * World :=
  sendTokenFormTimed (collaboratorsWith healthyEndpoint)
    (passwordForm (wrapper passwordWorld)) passwordWorld.

Definition rejectedGrant : Z * option TokenResponse * option error * World :=
  sendTokenFormTimed (collaboratorsWith restartedEndpoint)
    (refreshForm (wrapper secretWorld) refreshText) secretWorld.

(** A registerer that finds the descriptors of the new metrics in conflict
    with what it has. *)
Definition conflictingRegisterer : Registerer :=
  fun _ =>
    RegisterError "a previously registered descriptor with the same fully-qualified name has different label names or a different help string".

(** A builder with a logger, a user name and a password. *)
Definition passwordBuilder : TransportWrapperBuilder :=
  {| b_logger := Some sampleLogger; b_tokenURL := ""; b_clientID := "";
     b_clientSecret := ""; b_user := "user"; b_password := "password";
     b_tokens := []; b_scopes := []; b_agent := ""; b_trustedCAs := [];
     b_insecure := false; b_metricsSubsystem := "";
     b_metricsRegisterer := None |}.

(** The same with metrics asked for from the conflicting registerer. *)
Definition conflictingBuilder : TransportWrapperBuilder :=
  {| b_logger := Some sampleLogger; b_tokenURL := ""; b_clientID := "";
     b_clientSecret := ""; b_user := "user"; b_password := "password";
     b_tokens := []; b_scopes := []; b_agent := ""; b_trustedCAs := [];
     b_insecure := false; b_metricsSubsystem := "api_outbound";
     b_metricsRegisterer := Some conflictingRegisterer |}.

(** A builder with a logger and the given tokens. *)
Definition tokensBuilder (tokens : list string) : TransportWrapperBuilder :=
  {| b_logger := Some sampleLogger; b_tokenURL := ""; b_clientID := "";
     b_clientSecret := ""; b_user := ""; b_password := "";
     b_tokens := tokens; b_scopes := []; b_agent := ""; b_trustedCAs := [];
     b_insecure := false; b_metricsSubsystem := "";
     b_metricsRegisterer := None |}.

(** ** Observations

    What the properties below say about a run: the exchanges it added, the
    status it ended on, the expiry of the stored tokens, the type of a token
    and the reasons for which [Build] gives up. *)

(** The status code that an exchange gives to the code of an attempt: that
    of the response, or zero when there was none. *)
Definition codeOf (x : Exchange) : Z :=
  match x with
  | Response StatusCode _ => StatusCode
  | SelectFailed _ | DoFailed _ => 0
  end.

(** The exchanges that took place between two states of the world, latest
    first. *)
Definition newExchanges (st st' : World) : list (Request * Exchange) :=
  take (length (exchanges st') - length (exchanges st)) (exchanges st').

(** The status of the response to the latest request made between two
    states; zero when no request was made or when it had no response. *)
Definition lastStatus (st st' : World) : Z :=
  match newExchanges st st' with
  | (_, x) :: _ => codeOf x
  | [] => 0
  end.

(** How the code of an attempt relates to what the attempt did: without a
    request the code is zero, otherwise it is the code of the latest
    exchange. *)
Definition attemptTrace (st st' : World) (code : Z) : Prop :=
  (exchanges st' = exchanges st /\ code = 0)
  \/ (exists req x more,
        exchanges st' = (req, x) :: more ++ exchanges st /\ code = codeOf x).

(** What [tokens] finds out about a token that may be missing: the expiry
    of the token, or "does not expire, nothing left, no error" for none. *)
Definition expiryOf (p : option Token) (now : Time)
  : bool * Duration * option error :=
  match p with
  | Some token => GetTokenExpiry token now
  | None => (false, 0, None)
  end.

(** The [typ] claim of a token, when its claims are map claims. *)
Definition tokenTyp (token : Token) : option Value :=
  match token_Claims token with
  | MapClaims m => m !! "typ"
  | OtherClaims _ => None
  end.

(** The types that [Build] takes for an access token and for a refresh
    token, letter case ignored. *)
Definition accessTyp (typ : string) : bool := strings_EqualFold typ "Bearer".

Definition refreshTyp (typ : string) : bool :=
  strings_EqualFold typ "Refresh" || strings_EqualFold typ "Offline".

(** A token text that [Build] does not accept: it cannot be parsed, its
    claims are not map claims or have no [typ], or the [typ] is not a text
    that is one of [Bearer], [Refresh] and [Offline] up to letter case. *)
Definition rejectedToken (E : Collaborators) (text : string) : Prop :=
  (exists e, ParseUnverified E text = Err e)
  \/ (exists token, ParseUnverified E text = Ok token
       /\ (tokenTyp token = None
           \/ exists v, tokenTyp token = Some v
                /\ forall typ, v = VString typ ->
                     accessTyp typ = false /\ refreshTyp typ = false)).

(** The token URL that [Build] parses. *)
Definition effectiveTokenURL (b : TransportWrapperBuilder) : string :=
  if nonempty (b_tokenURL b) then b_tokenURL b else DefaultTokenURL.

(** None of the three sources of credentials is there. *)
Definition noCredentialSource (b : TransportWrapperBuilder) : Prop :=
  b_tokens b = []
  /\ (b_user b = "" \/ b_password b = "")
  /\ (b_clientID b = "" \/ b_clientSecret b = "").

(** The registration of one of the two metrics fails with an error. *)
Definition registrationFails (b : TransportWrapperBuilder) : Prop :=
  b_metricsSubsystem b <> ""
  /\ exists e,
       register (b_metricsRegisterer b)
         (CounterVec (b_metricsSubsystem b) "token_request_count") isCounterVec
       = RegistrationFailed e
       \/ ((exists c, register (b_metricsRegisterer b)
                        (CounterVec (b_metricsSubsystem b) "token_request_count")
                        isCounterVec = Registered c)
           /\ register (b_metricsRegisterer b)
                (HistogramVec (b_metricsSubsystem b) "token_request_duration")
                isHistogramVec
              = RegistrationFailed e).

(** The registration of the two metrics, when it is asked for, does not
    panic. *)
Definition registrationSound (b : TransportWrapperBuilder) : Prop :=
  b_metricsSubsystem b = ""
  \/ (register (b_metricsRegisterer b)
        (CounterVec (b_metricsSubsystem b) "token_request_count") isCounterVec
      <> RegistrationPanic
      /\ register (b_metricsRegisterer b)
           (HistogramVec (b_metricsSubsystem b) "token_request_duration")
           isHistogramVec
         <> RegistrationPanic).

(** The reasons for which [Build] returns an error. *)
Definition buildFailure (E : Collaborators) (b : TransportWrapperBuilder)
  : Prop :=
  b_logger b = None
  \/ noCredentialSource b
  \/ (exists text, In text (b_tokens b) /\ rejectedToken E text)
  \/ (exists e, ParseServerAddress E (effectiveTokenURL b) = Err e)
  \/ (exists e, NewClientSelector_Build E (b_trustedCAs b) (b_insecure b)
                = Some e)
  \/ registrationFails b.

(** ** Statements under test

    Properties written the way the description of the wrapper words them;
    each is compared with the code further down. *)

(** A failed attempt is retried exactly when the endpoint answered with a
    status of 500 or more, or the call produced no response. *)
Definition stated_retry : Prop :=
  forall (E : Collaborators) (clock : Z -> Time) (expiresDuration : Duration)
         (c c' : Captured) (st st' : World) (r : option BackoffError),
    operation E clock expiresDuration (c, st) = (r, (c', st')) ->
    is_Some (c_err c') ->
    (exists e, r = Some (Transient e))
    <-> (500 <= lastStatus st st'
         \/ exists req e rest, newExchanges st st' = (req, DoFailed e) :: rest).

(** A stored access token without [exp] claim, or with at least the
    freshness window left when the call starts, is returned together with
    the stored refresh token, without any exchange and without any change
    of the wrapper. *)
Definition stated_fresh_access : Prop :=
  forall (E : Collaborators) (clock : Z -> Time) (retries : nat)
         (expiresIn : list Duration) (st : World) (token : Token),
    accessToken (wrapper st) = Some token ->
    (exists m, token_Claims token = MapClaims m /\ m !! "exp" = None)
    \/ (exists left, GetTokenExpiry token (clock 1) = (true, left, None)
                     /\ freshnessWindow expiresIn <= left) ->
    Tokens E clock retries expiresIn st
    = (Raw token, snd (currentTokens (wrapper st)), None, st).


(** A call of [Tokens] in which, with credentials configured, a refresh
    token grant is answered with [invalid_grant] makes exactly one password
    or client credentials grant. *)
Definition stated_single_follow_up : Prop :=
  forall (E : Collaborators) (clock : Z -> Time) (retries : nat)
         (expiresIn : list Duration) (st : World),
    haveCredentials (wrapper st) = true ->
    (exists req status r parseErr,
       In (req, Response status (Unmarshalled r parseErr))
          (newExchanges st (snd (Tokens E clock retries expiresIn st)))
       /\ isRefreshGrant req = true
       /\ Error r = Some "invalid_grant") ->
    length (List.filter (fun p => isCredentialsGrant (fst p))
              (newExchanges st (snd (Tokens E clock retries expiresIn st))))
    = 1%nat.

(** A stored token is usable under a window when it does not expire or has
    at least the window left, and it has life left when it expires with a
    positive time remaining. *)
Definition usable (p : option Token) (now : Time) (window : Duration) : Prop :=
  exists token expires left,
    p = Some token
    /\ GetTokenExpiry token now = (expires, left, None)
    /\ (expires = false \/ window <= left).

Definition lifeLeft (p : option Token) (now : Time) : Prop :=
  exists token left,
    p = Some token
    /\ GetTokenExpiry token now = (true, left, None)
    /\ 0 < left.

(** A call of [Tokens] with no usable access token, no usable refresh token
    and no credentials begins with a refresh token grant if the refresh
    token has life left; else it returns the access token if that has life
    left; else it fails, without any exchange, with the message that the
    tokens are unavailable or expired and that there are no credentials. *)
Definition stated_without_credentials : Prop :=
  forall (E : Collaborators) (clock : Z -> Time) (retries : nat)
         (expiresIn : list Duration) (st : World),
    ~ usable (accessToken (wrapper st)) (clock 1) (freshnessWindow expiresIn) ->
    ~ usable (refreshToken (wrapper st)) (clock 1) (freshnessWindow expiresIn) ->
    haveCredentials (wrapper st) = false ->
    (lifeLeft (refreshToken (wrapper st)) (clock 1) ->
     exists request x later,
       newExchanges st (snd (Tokens E clock retries expiresIn st))
       = later ++ [(request, x)]
       /\ isRefreshGrant request = true)
    /\ (~ lifeLeft (refreshToken (wrapper st)) (clock 1) ->
        lifeLeft (accessToken (wrapper st)) (clock 1) ->
        exists token,
          accessToken (wrapper st) = Some token
          /\ Tokens E clock retries expiresIn st
             = (Raw token, snd (currentTokens (wrapper st)), None, st))
    /\ (~ lifeLeft (refreshToken (wrapper st)) (clock 1) ->
        ~ lifeLeft (accessToken (wrapper st)) (clock 1) ->
        Tokens E clock retries expiresIn st
        = ("", "", Some noTokensMessage, st)).

(** A wrapper without credentials that holds an access token with thirty
    seconds left at the stopped clock and a refresh token whose [exp] claim
    is a text. *)
Definition staleAccessWorld : World :=
  freshWorld (sampleWrapper "" "" "" (Some (tokenOf bearerExp1000000030Text))
                (Some (tokenOf refreshExpNeverText))).

(** The same with the three names taken literally. *)
Definition rejectedTokenStrictly (E : Collaborators) (text : string) : Prop :=
  (exists e, ParseUnverified E text = Err e)
  \/ (exists token, ParseUnverified E text = Ok token
       /\ (tokenTyp token = None
           \/ exists v, tokenTyp token = Some v
                /\ v <> VString "Bearer" /\ v <> VString "Refresh"
                /\ v <> VString "Offline")).

(** [Build] fails exactly when there is no logger, no source of
    credentials, a token that is not accepted or a token URL that cannot be
    parsed, and returns a wrapper otherwise. *)
Definition stated_build_failure : Prop :=
  forall (E : Collaborators) (b : TransportWrapperBuilder),
    ((exists err, Build E b = BuildFailed err)
     <-> (b_logger b = None
          \/ noCredentialSource b
          \/ (exists text, In text (b_tokens b) /\ rejectedTokenStrictly E text)
          \/ (exists e, ParseServerAddress E (effectiveTokenURL b) = Err e)))
    /\ (~ (b_logger b = None
           \/ noCredentialSource b
           \/ (exists text, In text (b_tokens b) /\ rejectedTokenStrictly E text)
           \/ (exists e, ParseServerAddress E (effectiveTokenURL b) = Err e)) ->
        exists w, Build E b = Built w).

(** Every token given to the builder with type [Offline] is the refresh
    token of the wrapper and not its access token; every one with type
    [Bearer] is its access token. *)
Definition stated_token_classes : Prop :=
  forall (E : Collaborators) (b : TransportWrapperBuilder)
         (w : TransportWrapper) (text : string) (token : Token),
    Build E b = Built w ->
    In text (b_tokens b) ->
    ParseUnverified E text = Ok token ->
    (tokenTyp token = Some (VString "Offline") ->
     refreshToken w = Some token /\ accessToken w <> Some token)
    /\ (tokenTyp token = Some (VString "Bearer") ->
        accessToken w = Some token).

(** * The rest of the package

    The methods of the builder that set its fields, the accessors of the
    wrapper, and the round tripper that [Wrap] creates. *)

(** ** Methods of the builder

    Each method assigns fields of the builder and returns the builder. The
    methods [TransportWrapper] and [TransportWrappers] add to the field that
    is left out of [TransportWrapperBuilder] and have no counterpart. *)

Module Builder.

Local Abbreviation CA := TrustedCA.

Definition Logger (value : option Logger) (b : TransportWrapperBuilder)
  : TransportWrapperBuilder :=
  {| b_logger := value; b_tokenURL := b_tokenURL b; b_clientID := b_clientID b;
     b_clientSecret := b_clientSecret b; b_user := b_user b;
     b_password := b_password b; b_tokens := b_tokens b;
     b_scopes := b_scopes b; b_agent := b_agent b;
     b_trustedCAs := b_trustedCAs b; b_insecure := b_insecure b;
     b_metricsSubsystem := b_metricsSubsystem b;
     b_metricsRegisterer := b_metricsRegisterer b |}.

Definition TokenURL (url : string) (b : TransportWrapperBuilder)
  : TransportWrapperBuilder :=
  {| b_logger := b_logger b; b_tokenURL := url; b_clientID := b_clientID b;
     b_clientSecret := b_clientSecret b; b_user := b_user b;
     b_password := b_password b; b_tokens := b_tokens b;
     b_scopes := b_scopes b; b_agent := b_agent b;
     b_trustedCAs := b_trustedCAs b; b_insecure := b_insecure b;
     b_metricsSubsystem := b_metricsSubsystem b;
     b_metricsRegisterer := b_metricsRegisterer b |}.

Definition Client (id secret : string) (b : TransportWrapperBuilder)
  : TransportWrapperBuilder :=
  {| b_logger := b_logger b; b_tokenURL := b_tokenURL b; b_clientID := id;
     b_clientSecret := secret; b_user := b_user b;
     b_password := b_password b; b_tokens := b_tokens b;
     b_scopes := b_scopes b; b_agent := b_agent b;
     b_trustedCAs := b_trustedCAs b; b_insecure := b_insecure b;
     b_metricsSubsystem := b_metricsSubsystem b;
     b_metricsRegisterer := b_metricsRegisterer b |}.

Definition User (name password : string) (b : TransportWrapperBuilder)
  : TransportWrapperBuilder :=
  {| b_logger := b_logger b; b_tokenURL := b_tokenURL b;
     b_clientID := b_clientID b; b_clientSecret := b_clientSecret b;
     b_user := name; b_password := password; b_tokens := b_tokens b;
     b_scopes := b_scopes b; b_agent := b_agent b;
     b_trustedCAs := b_trustedCAs b; b_insecure := b_insecure b;
     b_metricsSubsystem := b_metricsSubsystem b;
     b_metricsRegisterer := b_metricsRegisterer b |}.

(** [Scopes] replaces the scopes by a copy of the values. *)
Definition Scopes (values : list string) (b : TransportWrapperBuilder)
  : TransportWrapperBuilder :=
  {| b_logger := b_logger b; b_tokenURL := b_tokenURL b;
     b_clientID := b_clientID b; b_clientSecret := b_clientSecret b;
     b_user := b_user b; b_password := b_password b; b_tokens := b_tokens b;
     b_scopes := values; b_agent := b_agent b;
     b_trustedCAs := b_trustedCAs b; b_insecure := b_insecure b;
     b_metricsSubsystem := b_metricsSubsystem b;
     b_metricsRegisterer := b_metricsRegisterer b |}.

(** [Tokens] appends the tokens to the ones given before. *)
Definition Tokens (tokens : list string) (b : TransportWrapperBuilder)
  : TransportWrapperBuilder :=
  {| b_logger := b_logger b; b_tokenURL := b_tokenURL b;
     b_clientID := b_clientID b; b_clientSecret := b_clientSecret b;
     b_user := b_user b; b_password := b_password b;
     b_tokens := b_tokens b ++ tokens;
     b_scopes := b_scopes b; b_agent := b_agent b;
     b_trustedCAs := b_trustedCAs b; b_insecure := b_insecure b;
     b_metricsSubsystem := b_metricsSubsystem b;
     b_metricsRegisterer := b_metricsRegisterer b |}.

Definition Agent (agent : string) (b : TransportWrapperBuilder)
  : TransportWrapperBuilder :=
  {| b_logger := b_logger b; b_tokenURL := b_tokenURL b;
     b_clientID := b_clientID b; b_clientSecret := b_clientSecret b;
     b_user := b_user b; b_password := b_password b; b_tokens := b_tokens b;
     b_scopes := b_scopes b; b_agent := agent;
     b_trustedCAs := b_trustedCAs b; b_insecure := b_insecure b;
     b_metricsSubsystem := b_metricsSubsystem b;
     b_metricsRegisterer := b_metricsRegisterer b |}.

(** [TrustedCA] adds a source of trusted certificates; the value is an
    [interface{}], and [nil] is not added. *)
Definition TrustedCA (value : option TrustedCA) (b : TransportWrapperBuilder)
  : TransportWrapperBuilder :=
  match value with
  | Some ca =>
      {| b_logger := b_logger b; b_tokenURL := b_tokenURL b;
         b_clientID := b_clientID b; b_clientSecret := b_clientSecret b;
         b_user := b_user b; b_password := b_password b;
         b_tokens := b_tokens b; b_scopes := b_scopes b; b_agent := b_agent b;
         b_trustedCAs := b_trustedCAs b ++ [ca]; b_insecure := b_insecure b;
         b_metricsSubsystem := b_metricsSubsystem b;
         b_metricsRegisterer := b_metricsRegisterer b |}
  | None => b
  end.

(** [TrustedCAs] calls [TrustedCA] for each value in turn. *)
Fixpoint TrustedCAs (values : list (option CA))
    (b : TransportWrapperBuilder) : TransportWrapperBuilder :=
  match values with
  | [] => b
  | value :: rest => TrustedCAs rest (TrustedCA value b)
  end.

Definition Insecure (flag : bool) (b : TransportWrapperBuilder)
  : TransportWrapperBuilder :=
  {| b_logger := b_logger b; b_tokenURL := b_tokenURL b;
     b_clientID := b_clientID b; b_clientSecret := b_clientSecret b;
     b_user := b_user b; b_password := b_password b; b_tokens := b_tokens b;
     b_scopes := b_scopes b; b_agent := b_agent b;
     b_trustedCAs := b_trustedCAs b; b_insecure := flag;
     b_metricsSubsystem := b_metricsSubsystem b;
     b_metricsRegisterer := b_metricsRegisterer b |}.

Definition MetricsSubsystem (value : string) (b : TransportWrapperBuilder)
  : TransportWrapperBuilder :=
  {| b_logger := b_logger b; b_tokenURL := b_tokenURL b;
     b_clientID := b_clientID b; b_clientSecret := b_clientSecret b;
     b_user := b_user b; b_password := b_password b; b_tokens := b_tokens b;
     b_scopes := b_scopes b; b_agent := b_agent b;
     b_trustedCAs := b_trustedCAs b; b_insecure := b_insecure b;
     b_metricsSubsystem := value;
     b_metricsRegisterer := b_metricsRegisterer b |}.

(** [MetricsRegisterer] takes [prometheus.DefaultRegisterer], a variable of
    the Prometheus library, for a [nil] value. *)
Definition MetricsRegisterer (DefaultRegisterer : Registerer)
    (value : option Registerer) (b : TransportWrapperBuilder)
  : TransportWrapperBuilder :=
  {| b_logger := b_logger b; b_tokenURL := b_tokenURL b;
     b_clientID := b_clientID b; b_clientSecret := b_clientSecret b;
     b_user := b_user b; b_password := b_password b; b_tokens := b_tokens b;
     b_scopes := b_scopes b; b_agent := b_agent b;
     b_trustedCAs := b_trustedCAs b; b_insecure := b_insecure b;
     b_metricsSubsystem := b_metricsSubsystem b;
     b_metricsRegisterer :=
       Some (match value with Some r => r | None => DefaultRegisterer end) |}.

End Builder.

(** ** Accessors of the wrapper *)

(** TokenURL returns the URL that the connection is using request OpenID
    access tokens. *)
Definition TokenURL (w : TransportWrapper) : string := tokenURL w.

(** Client returns OpenID client identifier and secret that the wrapper is
    using to request OpenID access tokens. *)
Definition Client (w : TransportWrapper) : string * string :=
  (clientID w, clientSecret w).

(** User returns the user name and password that the wrapper is using to
    request OpenID access tokens. *)
Definition User (w : TransportWrapper) : string * string :=
  (user w, password w).

(** Scopes returns a copy of the OpenID scopes that the wrapper is using. *)
Definition Scopes (w : TransportWrapper) : list string := scopes w.

(** ** The round tripper

    An outgoing request as far as the round tripper looks at it: the header,
    which may be [nil], and everything else, which it hands on as it is. The
    context of the request decides how long [Tokens] may retry. The wrapped
    transport answers with a response, an error, or both. *)

Record Outgoing (R : Type) : Type := mkOutgoing {
  out_Header : option (gmap string (list string));
  out_rest : R;
}.
Arguments mkOutgoing {R} _ _.
Arguments out_Header {R} _.
Arguments out_rest {R} _.

(** What one run of [RoundTrip] leaves: the two results, the request as the
    caller finds it afterwards (the header is changed in place), the request
    that the wrapped transport was called with, if it was called, and the
    world. *)
Record Tripped (R P : Type) : Type := mkTripped {
  trip_response : option P;
  trip_err : option error;
  trip_request : Outgoing R;
  trip_delegated : option (Outgoing R);
  trip_world : World;
}.
Arguments mkTripped {R P} _ _ _ _ _.
Arguments trip_response {R P} _.
Arguments trip_err {R P} _.
Arguments trip_request {R P} _.
Arguments trip_delegated {R P} _.
Arguments trip_world {R P} _.

(** RoundTrip is the implementation of the round tripper interface. *)
Definition RoundTrip {R P : Type} (E : Collaborators) (clock : Z -> Time)
    (retries : nat) (transport : Outgoing R -> option P * option error)
    (request : Outgoing R) (st : World) : Tripped R P :=
  let '(token, _, err, st) := Tokens E clock retries [] st in
  match err with
  | Some e =>
      {| trip_response := None;
         trip_err := Some ("can't get access token: " +:+ e);
         trip_request := request; trip_delegated := None; trip_world := st |}
  | None =>
      let header :=
        match out_Header request with
        | Some h => h
        | None => ∅
        end in
      let header :=
        if nonempty token
        then Values_Set "Authorization" ("Bearer " +:+ token) header
        else header in
      let request :=
        {| out_Header := Some header; out_rest := out_rest request |} in
      let '(response, err) := transport request in
      {| trip_response := response; trip_err := err; trip_request := request;
         trip_delegated := Some request; trip_world := st |}
  end.

(** * Listing versions (package [versions])

    [GetVersions] asks the collection of versions for the enabled ones, page
    after page. The collection is behind the generated client; [send] stands
    for [collection.List().Search(search).Page(page).Size(size).Send()]. A
    response carries the items of the page and the size that the server
    reports for it. *)

Record VersionsListResponse (V : Type) : Type := mkVersionsListResponse {
  vl_Items : list V;
  vl_Size : Z;
}.
Arguments mkVersionsListResponse {V} _ _.
Arguments vl_Items {V} _.
Arguments vl_Size {V} _.

(** The loop of [GetVersions], which ends on an error or on a page whose
    reported size is less than the size asked for; [fuel] bounds the number
    of pages, and [None] says that the bound was reached. The pages that
    were asked for are returned beside the two results, latest first. *)
Fixpoint GetVersions_loop {V : Type} (fuel : nat)
    (send : string -> Z -> Z -> result (VersionsListResponse V))
    (page size : Z) (versions : list V) (asked : list Z)
  : option (list V * option error * list Z) :=
  match fuel with
  | O => None
  | S fuel =>
      match send "enabled = 'true'" page size with
      | Err err => Some (versions, Some err, page :: asked)
      | Ok response =>
          let versions := versions ++ vl_Items response in
          if vl_Size response <? size then Some (versions, None, page :: asked)
          else GetVersions_loop fuel send (page + 1) size versions (page :: asked)
      end
  end.

Definition GetVersions {V : Type} (fuel : nat)
    (send : string -> Z -> Z -> result (VersionsListResponse V))
  : option (list V * option error * list Z) :=
  GetVersions_loop fuel send 1 100 [] [].

(** * Lists of clusters (package [v1])

    [ClusterList] with its methods; the items are pointers to clusters, and
    the receiver may be [nil]. The type of clusters is a parameter. *)

Definition ClusterListKind : string := "ClusterList".
Definition ClusterListLinkKind : string := "ClusterListLink".
Definition ClusterListNilKind : string := "ClusterListNil".

Record ClusterList (C : Type) : Type := mkClusterList {
  cl_href : string;
  cl_link : bool;
  cl_items : list (option C);
}.
Arguments mkClusterList {C} _ _ _.
Arguments cl_href {C} _.
Arguments cl_link {C} _.
Arguments cl_items {C} _.

Module ClusterList.

Section Methods.

Context {C : Type}.

(** Kind returns the name of the type of the object. *)
Definition Kind (l : option (ClusterList C)) : string :=
  match l with
  | None => ClusterListNilKind
  | Some l => if cl_link l then ClusterListLinkKind else ClusterListKind
  end.

(** Link returns true iif this is a link. *)
Definition Link (l : option (ClusterList C)) : bool :=
  match l with
  | None => false
  | Some l => cl_link l
  end.

(** HREF returns the link to the list. *)
Definition HREF (l : option (ClusterList C)) : string :=
  match l with
  | Some l => cl_href l
  | None => ""
  end.

(** GetHREF returns the link of the list and a flag indicating if the link
    has a value. *)
Definition GetHREF (l : option (ClusterList C)) : string * bool :=
  match l with
  | Some l => if nonempty (cl_href l) then (cl_href l, true) else ("", false)
  | None => ("", false)
  end.

(** Len returns the length of the list. *)
Definition Len (l : option (ClusterList C)) : Z :=
  match l with
  | None => 0
  | Some l => Z.of_nat (length (cl_items l))
  end.

(** Empty returns true if the list is empty. *)
Definition Empty (l : option (ClusterList C)) : bool :=
  match l with
  | None => true
  | Some l => Z.of_nat (length (cl_items l)) =? 0
  end.

(** Get returns the item of the list with the given index. If there is no
    item with that index it returns nil. *)
Definition Get (l : option (ClusterList C)) (i : Z) : option C :=
  match l with
  | None => None
  | Some l =>
      if (i <? 0) || (i >=? Z.of_nat (length (cl_items l))) then None
      else
        match cl_items l !! Z.to_nat i with
        | Some item => item
        | None => None
        end
  end.

(** Slice returns a copy of the items of the list. *)
Definition Slice (l : option (ClusterList C)) : list (option C) :=
  match l with
  | None => []
  | Some l => cl_items l
  end.

(** The loop of [Range] from the item of index [index] on; the function may
    change the state [S] of its closure. *)
Fixpoint Range_loop {S : Type} (f : Z -> option C -> S -> bool * S)
    (index : Z) (items : list (option C)) (s : S) : S :=
  match items with
  | [] => s
  | item :: rest =>
      let '(go, s) := f index item s in
      if go then Range_loop f (index + 1) rest s else s
  end.

(** Range runs the given function for each index and item of the list, in
    order, until the function returns false. *)
Definition Range {S : Type} (l : option (ClusterList C))
    (f : Z -> option C -> S -> bool * S) (s : S) : S :=
  match l with
  | None => s
  | Some l => Range_loop f 0 (cl_items l) s
  end.

(** The loop of [Each]. *)
Fixpoint Each_loop {S : Type} (f : option C -> S -> bool * S)
    (items : list (option C)) (s : S) : S :=
  match items with
  | [] => s
  | item :: rest =>
      let '(go, s) := f item s in
      if go then Each_loop f rest s else s
  end.

(** Each runs the given function for each item of the list, in order, until
    the function returns false. *)
Definition Each {S : Type} (l : option (ClusterList C))
    (f : option C -> S -> bool * S) (s : S) : S :=
  match l with
  | None => s
  | Some l => Each_loop f (cl_items l) s
  end.

End Methods.

End ClusterList.

(** * Clusters (package [v1])

    The part of [Cluster] that the methods below read: the bitmap that says
    which attributes have a value, whose lowest bit says that the object is
    a link, and four of the attributes with their bits. The bitmap is a
    [uint64]; the field [id] is written [id_]. *)

Definition ClusterKind : string := "Cluster".
Definition ClusterLinkKind : string := "ClusterLink".
Definition ClusterNilKind : string := "ClusterNil".

Record Cluster : Type := mkCluster {
  bitmap_ : Z;
  id_ : string;
  href : string;
  displayName : string;
  etcdEncryption : bool;
}.

Module Cluster.

(** [o != nil && o.bitmap_&mask != 0] *)
Definition has (o : option Cluster) (mask : Z) : bool :=
  match o with
  | Some o => negb (Z.land (bitmap_ o) mask =? 0)
  | None => false
  end.

(** Kind returns the name of the type of the object. *)
Definition Kind (o : option Cluster) : string :=
  match o with
  | None => ClusterNilKind
  | Some c =>
      if negb (Z.land (bitmap_ c) 1 =? 0) then ClusterLinkKind else ClusterKind
  end.

(** Link returns true iif this is a link. *)
Definition Link (o : option Cluster) : bool := has o 1.

(** ID returns the identifier of the object. *)
Definition ID (o : option Cluster) : string :=
  match o with
  | Some c => if has o 2 then id_ c else ""
  | None => ""
  end.

(** GetID returns the identifier of the object and a flag indicating if the
    identifier has a value. *)
Definition GetID (o : option Cluster) : string * bool :=
  match o with
  | Some c => if has o 2 then (id_ c, true) else ("", false)
  | None => ("", false)
  end.

(** HREF returns the link to the object. *)
Definition HREF (o : option Cluster) : string :=
  match o with
  | Some c => if has o 4 then href c else ""
  | None => ""
  end.

(** GetHREF returns the link of the object and a flag indicating if the
    link has a value. *)
Definition GetHREF (o : option Cluster) : string * bool :=
  match o with
  | Some c => if has o 4 then (href c, true) else ("", false)
  | None => ("", false)
  end.

(** Empty returns true if the object is empty, i.e. no attribute has a
    value. *)
Definition Empty (o : option Cluster) : bool :=
  match o with
  | None => true
  | Some c => Z.ldiff (bitmap_ c) 1 =? 0
  end.

(** DisplayName returns the value of the 'display_name' attribute, or the
    zero value of the type if the attribute doesn't have a value. *)
Definition DisplayName (o : option Cluster) : string :=
  match o with
  | Some c => if has o 16384 then displayName c else ""
  | None => ""
  end.

(** GetDisplayName returns the value of the 'display_name' attribute and a
    flag indicating if the attribute has a value. *)
Definition GetDisplayName (o : option Cluster) : string * bool :=
  match o with
  | Some c => if has o 16384 then (displayName c, true) else ("", false)
  | None => ("", false)
  end.

(** EtcdEncryption returns the value of the 'etcd_encryption' attribute, or
    the zero value of the type if the attribute doesn't have a value. *)
Definition EtcdEncryption (o : option Cluster) : bool :=
  match o with
  | Some c => if has o 32768 then etcdEncryption c else false
  | None => false
  end.

(** GetEtcdEncryption returns the value of the 'etcd_encryption' attribute
    and a flag indicating if the attribute has a value. *)
Definition GetEtcdEncryption (o : option Cluster) : bool * bool :=
  match o with
  | Some c => if has o 32768 then (etcdEncryption c, true) else (false, false)
  | None => (false, false)
  end.

End Cluster.

(** A link to a cluster that carries values which its bitmap does not
    announce. *)
Definition bareLink : Cluster :=
  {| bitmap_ := 1; id_ := "1a2b3c"; href := "/api/clusters_mgmt/v1/clusters/1a2b3c";
     displayName := "staging"; etcdEncryption := true |}.

(** ** Observations on a call of [Tokens] *)

(** The stored tokens are as before, or both were saved anew; nothing else
    of the wrapper differs. *)
Definition kept (w w' : TransportWrapper) : Prop :=
  w' = w \/ exists access refresh, w' = saveTokens w access refresh.

(** What a metric that is registered receives for exchanges that are tagged
    with the number of their attempt: one observation each, labelled with
    the attempt and the code. *)
Definition counted (metric : option Collector)
    (tagged : list (Z * (Request * Exchange))) : list (string * string) :=
  if notNil metric
  then map (fun t => (pretty (fst t), pretty (codeOf (snd (snd t))))) tagged
  else [].

(** The traces that a run leaves: the tagged exchanges, latest first, are
    what was added to the exchanges and what the two metrics were told. *)
Definition Effects (st st' : World) (tagged : list (Z * (Request * Exchange)))
  : Prop :=
  exchanges st' = map snd tagged ++ exchanges st
  /\ tokenCount st'
     = counted (tokenCountMetric (wrapper st)) tagged ++ tokenCount st
  /\ tokenDuration st'
     = counted (tokenDurationMetric (wrapper st)) tagged ++ tokenDuration st.

(** What the three ways to send a grant have in common: at most [bound]
    exchanges, all tagged with the attempt; the wrapper as before on failure
    and with a new pair on success. *)
Definition granted (attempt : Z) (bound : nat) (st st' : World)
    (err : option error) : Prop :=
  exists new,
    (length new <= bound)%nat
    /\ Effects st st' (map (pair attempt) new)
    /\ match err with
       | Some _ => wrapper st' = wrapper st
       | None => exists a r, wrapper st' = saveTokens (wrapper st) a r
       end.

(** [n] runs of an operation in a row, each ending in an error that is not
    permanent, lead from [s] to [mid]. *)
Fixpoint failedRuns {S : Type} (op : S -> option BackoffError * S) (n : nat)
    (s mid : S) : Prop :=
  match n with
  | O => s = mid
  | Datatypes.S n =>
      exists e s1, op s = (Some (Transient e), s1) /\ failedRuns op n s1 mid
  end.

(** What a metric is told about the exchanges of one attempt: for each of
    them the number of the attempt and the code of the exchange. *)
Definition attemptLabels (attempt : Z) (new : list (Request * Exchange))
  : list (string * string) :=
  map (fun x => (pretty attempt, pretty (codeOf (snd x)))) new.

(** Between the states before and after the attempt of number [attempt],
    the metrics [count] and [duration], when they are registered, have
    received the labels of the exchanges that lie between the two states,
    and nothing else. *)
Definition attemptObserved (count duration : option Collector) (attempt : Z)
    (st st' : World) : Prop :=
  exchanges st' = newExchanges st st' ++ exchanges st
  /\ tokenCount st'
     = (if notNil count then attemptLabels attempt (newExchanges st st')
        else []) ++ tokenCount st
  /\ tokenDuration st'
     = (if notNil duration then attemptLabels attempt (newExchanges st st')
        else []) ++ tokenDuration st.

(** [n] attempts in a row, numbered from [attempt] on, lead from [st] to
    [st']: each is a run of [tokens] with its number and with the reading
    of the clock for that number, and each is observed by the metrics under
    its own number. *)
Fixpoint attemptsObserved (E : Collaborators) (clock : Z -> Time)
    (window : Duration) (count duration : option Collector) (attempt : Z)
    (n : nat) (st st' : World) : Prop :=
  match n with
  | O => st = st'
  | S n =>
      exists code access refresh err mid,
        tokens E (clock attempt) attempt window st
        = (code, access, refresh, err, mid)
        /\ attemptObserved count duration attempt st mid
        /\ attemptsObserved E clock window count duration (attempt + 1) n
             mid st'
  end.

(** Two calls of [Tokens]: one against the endpoint whose sessions are gone,
    with one retry granted, and one against the endpoint that cannot be
    reached, with five. *)
Definition restartedCall : string * string * option error * World :=
  Tokens (collaboratorsWith restartedEndpoint) stoppedClock 1 [] secretWorld.

Definition unreachableCall : string * string * option error * World :=
  Tokens (collaboratorsWith unreachable) stoppedClock 5 [] passwordWorld.

(** The wrapper of [secretWorld] with the two metrics registered, and the
    same call from there. *)
Definition meteredWorld : World :=
  freshWorld
    {| logger := sampleLogger; clientID := DefaultClientID;
       clientSecret := "secret"; user := ""; password := "";
       scopes := DefaultScopes; agent := ""; tokenURL := DefaultTokenURL;
       tokenServer := serverAddress DefaultTokenURL;
       accessToken := None; refreshToken := Some (tokenOf refreshText);
       metricsSubsystem := "api_outbound"; metricsRegisterer := None;
       tokenCountMetric := Some (CounterVec "api_outbound" "token_request_count");
       tokenDurationMetric :=
         Some (HistogramVec "api_outbound" "token_request_duration") |}.

Definition meteredCall : string * string * option error * World :=
  Tokens (collaboratorsWith restartedEndpoint) stoppedClock 1 [] meteredWorld.

(** ** Observations on [GetVersions]

    What the request for a page of a hundred enabled versions is answered
    with: a full page, which makes the loop go on, or a last page, which is
    an error or a response whose size is less than a hundred; the items and
    the error of the page. *)

Definition fullPage {V : Type}
    (send : string -> Z -> Z -> result (VersionsListResponse V)) (page : Z)
  : Prop :=
  exists response,
    send "enabled = 'true'" page 100 = Ok response /\ 100 <= vl_Size response.

Definition lastPage {V : Type}
    (send : string -> Z -> Z -> result (VersionsListResponse V)) (page : Z)
  : Prop :=
  match send "enabled = 'true'" page 100 with
  | Ok response => vl_Size response < 100
  | Err _ => True
  end.

Definition pageItems {V : Type}
    (send : string -> Z -> Z -> result (VersionsListResponse V)) (page : Z)
  : list V :=
  match send "enabled = 'true'" page 100 with
  | Ok response => vl_Items response
  | Err _ => []
  end.

Definition pageError {V : Type}
    (send : string -> Z -> Z -> result (VersionsListResponse V)) (page : Z)
  : option error :=
  match send "enabled = 'true'" page 100 with
  | Ok _ => None
  | Err err => Some err
  end.

(** The pages from [first] on, [n] of them. *)
Definition pagesFrom (first : Z) (n : nat) : list Z :=
  map (fun k => first + Z.of_nat k) (seq 0 n).

(** A server that holds the versions [all] and pages them as it is asked
    to: the page [page] of size [size] holds the versions from the index
    [(page - 1) * size] on, at most [size] of them, and the size that the
    response reports is the number of its items. *)
Definition pagedServer {V : Type} (all : list V)
  : string -> Z -> Z -> result (VersionsListResponse V) :=
  fun _ page size =>
    let items := take (Z.to_nat size) (drop (Z.to_nat ((page - 1) * size)) all) in
    Ok {| vl_Items := items; vl_Size := Z.of_nat (length items) |}.

(** A server that has a full page for every request. *)
Definition endlessServer : string -> Z -> Z -> result (VersionsListResponse Z) :=
  fun _ page size => Ok {| vl_Items := [page]; vl_Size := size |}.

(** ** Observations on [Range] and [Each] *)

(** The items with their indices, counted from [first]. *)
Fixpoint indexed {C : Type} (first : Z) (items : list (option C))
  : list (Z * option C) :=
  match items with
  | [] => []
  | item :: rest => (first, item) :: indexed (first + 1) rest
  end.

(** The function that a caller hands to [Range] to note what it is called
    with, and that stops the iteration when [p] says so; and the same for
    [Each]. *)
Definition noting {C : Type} (p : Z -> option C -> bool)
  : Z -> option C -> list (Z * option C) -> bool * list (Z * option C) :=
  fun index item seen => (p index item, seen ++ [(index, item)]).

Definition notingItems {C : Type} (p : option C -> bool)
  : option C -> list (option C) -> bool * list (option C) :=
  fun item seen => (p item, seen ++ [item]).

(** ** Samples for the builder and the round tripper *)

(** A builder set up by its methods: a logger, a user name with password,
    and three sources of trusted certificates of which the second is nil. *)
Definition chainedBuilder : TransportWrapperBuilder :=
  Builder.TrustedCAs [Some (CAFile "/etc/pki/ca.pem"); None; Some (CAFile "/etc/pki/extra.pem")]
    (Builder.User "user" "password"
       (Builder.Logger (Some sampleLogger) NewTransportWrapper)).

(** A builder with a client secret but no client identifier, and a token. *)
Definition secretOnlyBuilder : TransportWrapperBuilder :=
  Builder.Tokens [offlineText]
    (Builder.Client "" "secret"
       (Builder.Logger (Some sampleLogger) NewTransportWrapper)).

(** A registerer that accepts every collector, and a builder that asks it
    for metrics. *)
Definition acceptingRegisterer : Registerer := fun _ => RegisterNil.

Definition meteredBuilder : TransportWrapperBuilder :=
  Builder.MetricsRegisterer acceptingRegisterer None
    (Builder.MetricsSubsystem "api_outbound"
       (Builder.User "user" "password"
          (Builder.Logger (Some sampleLogger) NewTransportWrapper))).

(** A builder that names a metrics subsystem and was given no registerer. *)
Definition unregisteredBuilder : TransportWrapperBuilder :=
  Builder.MetricsSubsystem "api_outbound"
    (Builder.User "user" "password"
       (Builder.Logger (Some sampleLogger) NewTransportWrapper)).

(** A transport that answers every request with its header, and a request
    that carries an [Accept] header. *)
Definition echoTransport
  : Outgoing string -> option (gmap string (list string)) * option error :=
  fun request => (out_Header request, None).

Definition sampleRequest : Outgoing string :=
  {| out_Header := Some (Values_Set "Accept" "application/json" ∅);
     out_rest := "GET /api/clusters_mgmt/v1/clusters" |}.

Definition bareRequest : Outgoing string :=
  {| out_Header := None; out_rest := "GET /api/clusters_mgmt/v1/versions" |}.

(** ** Observations on the requests for tokens *)

(** A request for tokens as a wrapper makes it: a POST of a form to the
    token URL, with the content type of forms, JSON accepted and the user
    agent when the wrapper has one. The form carries the client identifier
    and is one of three: the password grant, with user name, password and
    scopes and without client secret; the client credentials grant, with
    client secret and scopes, made when there is no user name with password;
    and the refresh token grant, with the text of the stored refresh token
    and the client secret, and without scopes. *)
Definition grantRequest (w : TransportWrapper) (request : Request) : Prop :=
  Method request = "POST"
  /\ URL request = tokenURL w
  /\ Header request !! "Content-Type"
     = Some ["application/x-www-form-urlencoded"]
  /\ Header request !! "Accept" = Some ["application/json"]
  /\ Header request !! "User-Agent"
     = (if nonempty (agent w) then Some [agent w] else None)
  /\ Form request !! "client_id" = Some [clientID w]
  /\ ((Form request !! "grant_type" = Some ["password"]
       /\ havePassword w = true
       /\ Form request !! "username" = Some [user w]
       /\ Form request !! "password" = Some [password w]
       /\ Form request !! "scope" = Some [strings_Join (scopes w) " "]
       /\ Form request !! "client_secret" = None
       /\ Form request !! "refresh_token" = None)
      \/ (Form request !! "grant_type" = Some ["client_credentials"]
          /\ havePassword w = false
          /\ haveSecret w = true
          /\ Form request !! "client_secret" = Some [clientSecret w]
          /\ Form request !! "scope" = Some [strings_Join (scopes w) " "]
          /\ Form request !! "username" = None
          /\ Form request !! "password" = None
          /\ Form request !! "refresh_token" = None)
      \/ (Form request !! "grant_type" = Some ["refresh_token"]
          /\ (exists token,
                refreshToken w = Some token
                /\ Form request !! "refresh_token" = Some [Raw token])
          /\ Form request !! "client_secret" = Some [clientSecret w]
          /\ Form request !! "scope" = None
          /\ Form request !! "username" = None
          /\ Form request !! "password" = None)).

(** Between two states of the world, only requests for tokens of the
    wrapper [w] were sent. *)
Definition sent (w : TransportWrapper) (st st' : World) : Prop :=
  exists new,
    exchanges st' = new ++ exchanges st
    /\ Forall (fun p => grantRequest w (fst p)) new.

(** The wrapper of [secretWorld] with a password as well and with a user
    agent, and a call of [Tokens] from there. *)
Definition agentWorld : World :=
  freshWorld
    {| logger := sampleLogger; clientID := DefaultClientID;
       clientSecret := "secret"; user := "user"; password := "password";
       scopes := ["openid"; "offline_access"]; agent := "rosa/1.0";
       tokenURL := DefaultTokenURL;
       tokenServer := serverAddress DefaultTokenURL;
       accessToken := None; refreshToken := Some (tokenOf refreshText);
       metricsSubsystem := ""; metricsRegisterer := None;
       tokenCountMetric := None; tokenDurationMetric := None |}.

Definition agentCall : string * string * option error * World :=
  Tokens (collaboratorsWith restartedEndpoint) stoppedClock 1 [] agentWorld.

(** The first attempt of [agentCall]. *)
Definition agentAttempt : Z * string * string * option error * World :=
  tokens (collaboratorsWith restartedEndpoint) (stoppedClock 1) 1 tokenExpiry
    agentWorld.

(** A refresh token grant of [secretWorld] against the endpoint whose
    sessions are gone. *)
Definition rejectedRefresh : Z * option TokenResponse * option error * World :=
  sendRefreshTokenForm (collaboratorsWith restartedEndpoint) 1 secretWorld.

(** ** Observations on the answers of the token endpoint *)

(** The request with which a wrapper that has credentials asks for new
    tokens. *)
Definition credentialsRequest (w : TransportWrapper) : Request :=
  tokenRequest w
    (Values_Set "scope" (strings_Join (scopes w) " ")
       (if havePassword w then passwordForm w else clientCredentialsForm w)).

(** The exchanges after the same request was made [n] times in a row. *)
Fixpoint repeated (E : Collaborators) (request : Request) (n : nat)
    (history : list (Request * Exchange)) : list (Request * Exchange) :=
  match n with
  | O => history
  | S n =>
      let history := repeated E request n history in
      (request, Do E history request) :: history
  end.

(** An answer with a status of 500 or more. *)
Definition serverError (x : Exchange) : Prop :=
  exists status body, x = Response status body /\ 500 <= status.

(** An answer that gives a pair of tokens: status 200 and a body without
    error, whose token type is [bearer] if it has one and whose two tokens
    can be parsed. *)
Definition completeAnswer (E : Collaborators) (x : Exchange)
    (access refresh : Token) : Prop :=
  exists r accessText refreshText,
    x = Response 200 (Unmarshalled r None)
    /\ Error r = None
    /\ (TokenType r = None \/ TokenType r = Some "bearer")
    /\ AccessToken r = Some accessText
    /\ ParseUnverified E accessText = Ok access
    /\ RefreshToken r = Some refreshText
    /\ ParseUnverified E refreshText = Ok refresh.

(** An endpoint that is overloaded for its first two requests: it answers
    them with status 503 and an HTML page, and later ones with a pair of
    tokens. *)
Definition overloadedEndpoint : list (Request * Exchange) -> Request -> Exchange :=
  fun history _ =>
    if (length history <? 2)%nat then
      Response 503 (NotJSON "expected response content type 'application/json' but received 'text/html'")
    else Response 200 (Unmarshalled freshTokens None).

Definition overloadedCall : string * string * option error * World :=
  Tokens (collaboratorsWith overloadedEndpoint) stoppedClock 3 [] passwordWorld.

(** * Properties *)

(** ** Expiry *)


Lemma time_Sub_range (t u : Time) :
  minDuration <= time_Sub t u <= maxDuration.
Proof.
  unfold time_Sub.
  destruct (Z.ltb_spec (t - u) minDuration);
    [ unfold minDuration, maxDuration; lia |].
  destruct (Z.ltb_spec maxDuration (t - u));
    [ unfold minDuration, maxDuration; lia | lia ].
Qed.





(** C10: a token whose [exp] claim is the number zero (of either sign) is
    reported like a token without [exp] claim: it does not expire and has
    nothing left. *)
Theorem GetTokenExpiry_exp_zero (token : Token) (now : Time)
    (m : gmap string Value) (sign : bool) :
  token_Claims token = MapClaims m ->
  m !! "exp" = None \/ m !! "exp" = Some (VFloat64 (S754_zero sign)) ->
  GetTokenExpiry token now = (false, 0, None).
Proof.
  intros Hclaims [Hexp | Hexp]; unfold GetTokenExpiry;
    rewrite Hclaims, Hexp; reflexivity.
Qed.


(** The token with claims [{"typ":"Bearer","exp":0}]. *)
Lemma GetTokenExpiry_exp_zero_witness :
  GetTokenExpiry (tokenOf bearerExpZeroText) (time_Unix 1000000000)
  = (false, 0, None).
Proof.
  apply (GetTokenExpiry_exp_zero (tokenOf bearerExpZeroText)
           (time_Unix 1000000000)
           (list_to_map [("typ", VString "Bearer");
                         ("exp", VFloat64 (float64_of_Z 0))]) false).
  - vm_compute; reflexivity.
  - right. vm_compute; reflexivity.
Defined.


(** ** One exchange per form *)

Section Sending.

Context (E : Collaborators).

Lemma sendTokenFormTimed_trace form st code result err st' :
  sendTokenFormTimed E form st = (code, result, err, st') ->
  exchanges st'
  = (tokenRequest (wrapper st) form,
     Do E (exchanges st) (tokenRequest (wrapper st) form)) :: exchanges st
  /\ code = codeOf (Do E (exchanges st) (tokenRequest (wrapper st) form))
  /\ tokenCount st' = tokenCount st
  /\ tokenDuration st' = tokenDuration st.
Proof.
  unfold sendTokenFormTimed. intros H.
  repeat case_match; simplify_eq; done.
Qed.

Lemma sendTokenFormTimed_failure form st code result err st' :
  sendTokenFormTimed E form st = (code, result, err, st') ->
  is_Some err -> wrapper st' = wrapper st.
Proof.
  unfold sendTokenFormTimed. intros H [e He].
  repeat case_match; simplify_eq; done.
Qed.

Lemma sendTokenFormTimed_credentials form st code result err st' :
  sendTokenFormTimed E form st = (code, result, err, st') ->
  haveCredentials (wrapper st') = haveCredentials (wrapper st).
Proof.
  unfold sendTokenFormTimed. intros H.
  repeat case_match; simplify_eq; done.
Qed.

Lemma sendTokenForm_trace form attempt st code result err st' :
  sendTokenForm E form attempt st = (code, result, err, st') ->
  exchanges st'
  = (tokenRequest (wrapper st) form,
     Do E (exchanges st) (tokenRequest (wrapper st) form)) :: exchanges st
  /\ code = codeOf (Do E (exchanges st) (tokenRequest (wrapper st) form))
  /\ haveCredentials (wrapper st') = haveCredentials (wrapper st)
  /\ (is_Some err -> wrapper st' = wrapper st).
Proof.
  unfold sendTokenForm. intros H.
  destruct (sendTokenFormTimed E form st) as [[[code0 result0] err0] st0] eqn:Ht.
  pose proof (sendTokenFormTimed_trace _ _ _ _ _ _ Ht) as (Hx & Hc & _ & _).
  pose proof (sendTokenFormTimed_credentials _ _ _ _ _ _ Ht) as Hcred.
  pose proof (sendTokenFormTimed_failure _ _ _ _ _ _ Ht) as Hfail.
  case_match; simplify_eq; simpl; auto.
Qed.

Lemma attemptTrace_one (st st' : World) req x :
  exchanges st' = (req, x) :: exchanges st -> attemptTrace st st' (codeOf x).
Proof. intros H. right. exists req, x, []. by rewrite H. Qed.

Lemma attemptTrace_lastStatus (st st' : World) code :
  attemptTrace st st' code -> code = lastStatus st st'.
Proof.
  unfold lastStatus, newExchanges.
  intros [[Hx Hc] | (req & x & more & Hx & Hc)]; rewrite Hx.
  - by rewrite Nat.sub_diag.
  - simpl. rewrite length_app.
    replace (S (length more + length (exchanges st)) - length (exchanges st))%nat
      with (S (length more)) by lia.
    done.
Qed.

Lemma sendRequestTokenForm_trace attempt st code result err st' :
  sendRequestTokenForm E attempt st = (code, result, err, st') ->
  attemptTrace st st' code
  /\ (is_Some err -> wrapper st' = wrapper st).
Proof.
  unfold sendRequestTokenForm. intros H.
  repeat case_match; simplify_eq;
    try (apply sendTokenForm_trace in H as (Hx & Hc & _ & Hw);
         split; [subst code; by eapply attemptTrace_one | done]).
  split; [by left | done].
Qed.

Lemma sendRequestTokenForm_sends attempt st code result err st' :
  haveCredentials (wrapper st) = true ->
  sendRequestTokenForm E attempt st = (code, result, err, st') ->
  exists form,
    sendTokenForm E form attempt st = (code, result, err, st')
    /\ Form (tokenRequest (wrapper st) form) !! "grant_type"
       = Some [if havePassword (wrapper st) then "password"
               else "client_credentials"]
    /\ exchanges st'
       = (tokenRequest (wrapper st) form,
          Do E (exchanges st) (tokenRequest (wrapper st) form)) :: exchanges st
    /\ code = codeOf (Do E (exchanges st) (tokenRequest (wrapper st) form)).
Proof.
  unfold sendRequestTokenForm, haveCredentials. intros Hcred H.
  destruct (havePassword (wrapper st)) eqn:Hp;
    [| destruct (haveSecret (wrapper st)) eqn:Hs; [| done]];
    eexists; (split; [exact H |]);
    (split; [by vm_compute |]);
    by apply sendTokenForm_trace in H as (Hx & Hc & _ & _).
Qed.

Lemma sendRefreshTokenForm_trace attempt st code result err st' :
  sendRefreshTokenForm E attempt st = (code, result, err, st') ->
  attemptTrace st st' code
  /\ (is_Some err -> wrapper st' = wrapper st).
Proof.
  unfold sendRefreshTokenForm. intros H.
  destruct (refreshToken (wrapper st)) as [token |];
    [| simplify_eq; split; [by left | done]].
  destruct (sendTokenForm E (refreshForm (wrapper st) (Raw token)) attempt st)
    as [[[code1 result1] err1] st1] eqn:H1.
  apply sendTokenForm_trace in H1 as (Hx & Hc & _ & Hw).
  assert (Hdirect : (code1, result1, err1, st1) = (code, result, err, st') ->
                    attemptTrace st st' code
                    /\ (is_Some err -> wrapper st' = wrapper st)).
  { intros ?; simplify_eq. split; [by eapply attemptTrace_one | done]. }
  destruct err1 as [e1 |]; [| by apply Hdirect; destruct result1].
  destruct result1 as [r1 |]; [| by apply Hdirect].
  case_match eqn:Hfall; [| by apply Hdirect].
  apply andb_prop in Hfall as [_ Hcred].
  pose proof (sendRequestTokenForm_trace _ _ _ _ _ _ H) as [_ Hw'].
  apply sendRequestTokenForm_sends in H as (form & _ & _ & Hex & Hcode);
    [| done].
  split.
  - right. remember (Do E (exchanges st1) (tokenRequest (wrapper st1) form)) as x2.
    eexists _, x2, [_]. rewrite Hex, Hx. done.
  - intros Herr. rewrite Hw' by done. apply Hw. by eexists.
Qed.

Lemma tokens_trace now attempt expiresIn st code access refresh err st' :
  tokens E now attempt expiresIn st = (code, access, refresh, err, st') ->
  attemptTrace st st' code.
Proof.
  unfold tokens, afterGrant. intros H.
  repeat case_match; simplify_eq; try (by left);
    try (by eapply sendRefreshTokenForm_trace);
    try (by eapply sendRequestTokenForm_trace).
Qed.

End Sending.

(** ** Retries *)

Lemma backoff_Retry_nil {S : Type} (op : S -> option BackoffError * S)
    (retries : nat) (s s' : S) :
  op s = (None, s') -> backoff_Retry op retries s = s'.
Proof. intros H. destruct retries; simpl; by rewrite H. Qed.

Lemma backoff_Retry_permanent {S : Type} (op : S -> option BackoffError * S)
    (retries : nat) (s s' : S) (e : error) :
  op s = (Some (Permanent e), s') -> backoff_Retry op retries s = s'.
Proof. intros H. destruct retries; simpl; by rewrite H. Qed.

Lemma backoff_Retry_transient {S : Type} (op : S -> option BackoffError * S)
    (retries : nat) (s s' : S) (e : error) :
  op s = (Some (Transient e), s') ->
  backoff_Retry op (Datatypes.S retries) s = backoff_Retry op retries s'.
Proof. intros H. simpl. by rewrite H. Qed.

Lemma failedRuns_retry {S : Type} (op : S -> option BackoffError * S)
    (n : nat) :
  forall (retries : nat) (s mid : S),
    failedRuns op n s mid ->
    (n <= retries)%nat ->
    backoff_Retry op retries s = backoff_Retry op (retries - n) mid.
Proof.
  induction n as [| n IH]; intros retries s mid H Hle.
  - cbn in H. subst mid. by rewrite Nat.sub_0_r.
  - destruct H as (e & s1 & Hop & Hruns).
    destruct retries as [| retries]; [lia |].
    rewrite (backoff_Retry_transient _ _ _ _ _ Hop).
    by apply IH; [| lia].
Qed.

Lemma failedRuns_exhausted {S : Type} (op : S -> option BackoffError * S)
    (n : nat) :
  forall s mid : S, failedRuns op (Datatypes.S n) s mid -> backoff_Retry op n s = mid.
Proof.
  induction n as [| n IH]; intros s mid (e & s1 & Hop & Hruns).
  - cbn in Hruns. subst s1. cbn. by rewrite Hop.
  - rewrite (backoff_Retry_transient _ _ _ _ _ Hop). by apply IH.
Qed.

Lemma failedRuns_snoc {S : Type} (op : S -> option BackoffError * S)
    (n : nat) :
  forall (s mid s' : S) (e : error),
    failedRuns op n s mid ->
    op mid = (Some (Transient e), s') ->
    failedRuns op (Datatypes.S n) s s'.
Proof.
  induction n as [| n IH]; intros s mid s' e H Hop.
  - cbn in H. subst mid. by exists e, s'.
  - destruct H as (e1 & s1 & Hop1 & Hruns).
    exists e1, s1. split; [done |]. by eapply IH.
Qed.

Lemma operation_inv (E : Collaborators) clock expiresDuration c st r c' st' :
  operation E clock expiresDuration (c, st) = (r, (c', st')) ->
  exists code,
    tokens E (clock (c_attempt c + 1)) (c_attempt c + 1) expiresDuration st
    = (code, c_access c', c_refresh c', c_err c', st')
    /\ c_attempt c' = c_attempt c + 1
    /\ r = match c_err c' with
           | Some e =>
               if code >=? StatusInternalServerError then Some (Transient e)
               else Some (Permanent e)
           | None => None
           end.
Proof.
  unfold operation. intros H.
  destruct (tokens E _ _ _ _) as [[[[code access] refresh] err] st1].
  exists code. destruct err; [case_match |]; by simplify_eq.
Qed.

(** C1, as amended: a failed attempt is run again by the back-off loop
    exactly when the latest exchange of the attempt was answered with a
    status of 500 or more. An attempt whose call produced no response is not
    retried, and neither is one that was answered with a status below 500,
    the 4xx class included. *)
Theorem operation_retried_iff (E : Collaborators) (clock : Z -> Time)
    (expiresDuration : Duration) (c c' : Captured) (st st' : World)
    (r : option BackoffError) :
  operation E clock expiresDuration (c, st) = (r, (c', st')) ->
  is_Some (c_err c') ->
  exists e, c_err c' = Some e
    /\ (r = Some (Transient e) <-> 500 <= lastStatus st st')
    /\ (r = Some (Permanent e) <-> lastStatus st st' < 500)
    /\ (forall req e' rest,
          newExchanges st st' = (req, DoFailed e') :: rest ->
          r = Some (Permanent e))
    /\ (forall req status body rest,
          newExchanges st st' = (req, Response status body) :: rest ->
          400 <= status < 500 -> r = Some (Permanent e))
    /\ (r = Some (Transient e) ->
        forall retries,
          backoff_Retry (operation E clock expiresDuration) (S retries) (c, st)
          = backoff_Retry (operation E clock expiresDuration) retries (c', st'))
    /\ (r = Some (Permanent e) ->
        forall retries,
          backoff_Retry (operation E clock expiresDuration) retries (c, st)
          = (c', st')).
Proof.
  intros Hop [e He]. exists e. split; [done |].
  pose proof (operation_inv _ _ _ _ _ _ _ _ Hop) as (code & Htok & _ & Hr).
  apply tokens_trace, attemptTrace_lastStatus in Htok.
  rewrite He in Hr. rewrite <- Htok. unfold StatusInternalServerError in Hr.
  assert (Hiff : (r = Some (Transient e) <-> 500 <= code)
                 /\ (r = Some (Permanent e) <-> code < 500)).
  { destruct (Z.geb_spec code 500); subst r; split; split;
      intros; try done; try lia. }
  destruct Hiff as [Htr Hpe].
  split; [done |]. split; [done |].
  split; [| split; [| split]].
  - intros req e' rest Hnew. apply Hpe. rewrite Htok.
    unfold lastStatus. rewrite Hnew. simpl. lia.
  - intros req status body rest Hnew Hrange. apply Hpe. rewrite Htok.
    unfold lastStatus. rewrite Hnew. simpl. lia.
  - intros -> retries. by eapply backoff_Retry_transient.
  - intros -> retries. by eapply backoff_Retry_permanent.
Qed.

(** A first attempt that ends on status 503 is retried. *)
Lemma operation_retried_iff_witness :
  lastStatus secretWorld
    (snd (snd (firstAttempt (collaboratorsWith restartedEndpoint) secretWorld)))
  = 503
  /\ exists e,
       fst (firstAttempt (collaboratorsWith restartedEndpoint) secretWorld)
       = Some (Transient e).
Proof.
  split; [vm_compute; reflexivity |].
  set (out := firstAttempt (collaboratorsWith restartedEndpoint) secretWorld).
  destruct (operation_retried_iff (collaboratorsWith restartedEndpoint)
              stoppedClock tokenExpiry beforeFirstAttempt
              (fst (snd out)) secretWorld (snd (snd out)) (fst out))
    as (e & _ & Hretried & _).
  - vm_compute; reflexivity.
  - vm_compute. eexists; reflexivity.
  - exists e. apply Hretried. vm_compute. discriminate.
Defined.

(** C1, as stated, fails when the token endpoint cannot be reached: the
    attempt of a wrapper with a user name and a password fails, its only
    call produced no response, and the error is permanent; [Tokens], with
    five retries granted by the back-off policy, makes that one call only. *)
Lemma operation_unreachable_counterexample :
  (exists req,
     newExchanges passwordWorld
       (snd (snd (firstAttempt (collaboratorsWith unreachable) passwordWorld)))
     = [(req, DoFailed "dial tcp: connection refused")])
  /\ fst (firstAttempt (collaboratorsWith unreachable) passwordWorld)
     = Some (Permanent "can't send request: dial tcp: connection refused")
  /\ snd (fst (Tokens (collaboratorsWith unreachable) stoppedClock 5 []
                 passwordWorld))
     = Some "can't send request: dial tcp: connection refused"
  /\ length (exchanges (snd (Tokens (collaboratorsWith unreachable)
                               stoppedClock 5 [] passwordWorld))) = 1%nat
  /\ ~ stated_retry.
Proof.
  split; [| split; [| split; [| split]]].
  - eexists. vm_compute. reflexivity.
  - vm_compute. reflexivity.
  - vm_compute. reflexivity.
  - vm_compute. reflexivity.
  - intros H.
    set (out := firstAttempt (collaboratorsWith unreachable) passwordWorld).
    destruct (H (collaboratorsWith unreachable) stoppedClock tokenExpiry
                beforeFirstAttempt (fst (snd out))
                passwordWorld (snd (snd out)) (fst out)) as [_ Hback].
    + vm_compute; reflexivity.
    + vm_compute. eexists; reflexivity.
    + destruct Hback as [e He].
      * right. eexists _, _, _. vm_compute. reflexivity.
      * vm_compute in He. discriminate.
Qed.

(** ** Grants *)

Lemma sendTokenFormTimed_reports (E : Collaborators)
    (form : gmap string (list string)) (st st' : World) (code status : Z)
    (body : Payload) (r : TokenResponse) (result : option TokenResponse)
    (err : option error) :
  sendTokenFormTimed E form st = (code, result, err, st') ->
  Do E (exchanges st) (tokenRequest (wrapper st) form) = Response status body ->
  (exists e, body = NotJSON e)
  \/ (exists e, body = Unreadable e)
  \/ (exists e, body = Unmarshalled r (Some e))
  \/ (body = Unmarshalled r None
      /\ (is_Some (Error r)
          \/ status <> StatusOK
          \/ (exists t, TokenType r = Some t /\ t <> "bearer")
          \/ AccessToken r = None
          \/ RefreshToken r = None
          \/ (exists text e, AccessToken r = Some text
                             /\ ParseUnverified E text = Err e)
          \/ (exists text e, RefreshToken r = Some text
                             /\ ParseUnverified E text = Err e))) ->
  is_Some err.
Proof.
  unfold sendTokenFormTimed. intros H Hx Hcases. rewrite Hx in H.
  destruct Hcases as [[e ->] | [[e ->] | [[e ->] | [-> Hcases]]]];
    simplify_eq; try (by eexists).
  destruct (Error r) as [e |] eqn:Herror;
    [destruct (ErrorDescription r); simplify_eq; by eexists |].
  destruct (negb (status =? StatusOK)) eqn:Hstatus;
    [simplify_eq; by eexists |].
  apply negb_false_iff, Z.eqb_eq in Hstatus.
  destruct Hcases as [[? ?] | [? | [(t & Ht & Hne) | Hcases]]]; try done.
  { rewrite Ht in H.
    destruct (String.eqb_spec t "bearer"); [done |].
    simpl in H. simplify_eq. by eexists. }
  repeat case_match; simplify_eq; try (by eexists).
  all: exfalso;
    destruct Hcases as [? | [? | [(? & ? & ? & ?) | (? & ? & ? & ?)]]];
    simplify_eq; congruence.
Qed.

(** C5: a grant stores tokens only when it succeeds end to end, and then it
    stores both, decoded from the two token fields of a response with
    status 200 that has no error field; after any failure the wrapper is as
    it was, and an error is reported for each way a grant can fail: no
    client or no response, a content type that is not JSON, a body that
    cannot be read or parsed, an error field, a status other than 200, a
    token type other than [bearer], a missing token field, a token that
    cannot be decoded. *)
Theorem sendTokenFormTimed_all_or_nothing (E : Collaborators)
    (form : gmap string (list string)) (st st' : World) (code : Z)
    (result : option TokenResponse) (err : option error) :
  sendTokenFormTimed E form st = (code, result, err, st') ->
  (is_Some err ->
     wrapper st' = wrapper st
     /\ accessToken (wrapper st') = accessToken (wrapper st)
     /\ refreshToken (wrapper st') = refreshToken (wrapper st))
  /\ (err = None ->
      exists r accessText refreshText access refresh,
        Do E (exchanges st) (tokenRequest (wrapper st) form)
        = Response StatusOK (Unmarshalled r None)
        /\ Error r = None
        /\ AccessToken r = Some accessText
        /\ RefreshToken r = Some refreshText
        /\ ParseUnverified E accessText = Ok access
        /\ ParseUnverified E refreshText = Ok refresh
        /\ accessToken (wrapper st') = Some access
        /\ refreshToken (wrapper st') = Some refresh)
  /\ (forall e, Do E (exchanges st) (tokenRequest (wrapper st) form)
                = SelectFailed e
                \/ Do E (exchanges st) (tokenRequest (wrapper st) form)
                   = DoFailed e ->
      is_Some err)
  /\ (forall status body r,
        Do E (exchanges st) (tokenRequest (wrapper st) form)
        = Response status body ->
        (exists e, body = NotJSON e)
        \/ (exists e, body = Unreadable e)
        \/ (exists e, body = Unmarshalled r (Some e))
        \/ (body = Unmarshalled r None
            /\ (is_Some (Error r)
                \/ status <> StatusOK
                \/ (exists t, TokenType r = Some t /\ t <> "bearer")
                \/ AccessToken r = None
                \/ RefreshToken r = None
                \/ (exists text e, AccessToken r = Some text
                                   /\ ParseUnverified E text = Err e)
                \/ (exists text e, RefreshToken r = Some text
                                   /\ ParseUnverified E text = Err e))) ->
        is_Some err).
Proof.
  unfold sendTokenFormTimed. intros H.
  destruct (Do E (exchanges st) (tokenRequest (wrapper st) form))
    as [e0 | e0 | status body] eqn:Hx.
  1, 2: simplify_eq; repeat split; try done; try (intros; by eexists);
        intros; by simplify_eq.
  split; [| split; [| split]].
  - intros [e He]. repeat case_match; simplify_eq; done.
  - intros ->. repeat case_match; simplify_eq.
    all: match goal with
         | Hs : negb (_ =? StatusOK) = false |- _ =>
             apply negb_false_iff, Z.eqb_eq in Hs; subst
         end.
    all: by eexists _, _, _, _, _.
  - intros e [? | ?]; done.
  - intros status' body' r Heq Hcases. simplify_eq.
    eapply (sendTokenFormTimed_reports E form st st' code status' body' r);
      [| exact Hx | exact Hcases].
    unfold sendTokenFormTimed. by rewrite Hx.
Qed.

(** A password grant that is answered with a pair of tokens stores both. *)
Lemma sendTokenFormTimed_all_or_nothing_witness :
  is_Some (accessToken (wrapper (snd healthyGrant)))
  /\ is_Some (refreshToken (wrapper (snd healthyGrant))).
Proof.
  destruct (sendTokenFormTimed_all_or_nothing (collaboratorsWith healthyEndpoint)
              (passwordForm (wrapper passwordWorld)) passwordWorld
              (snd healthyGrant) (fst (fst (fst healthyGrant)))
              (snd (fst (fst healthyGrant))) (snd (fst healthyGrant)))
    as (_ & Hstored & _).
  - vm_compute; reflexivity.
  - destruct Hstored as (r & ? & ? & access & refresh & _ & _ & _ & _ & _ & _
                         & Haccess & Hrefresh);
      [vm_compute; reflexivity |].
    rewrite Haccess, Hrefresh. split; eexists; reflexivity.
Defined.

(** C8: for every response of the token endpoint the outcome is an error
    when the body has an error field, when the status is not 200, when the
    token type is given and is not exactly [bearer], and when the access
    token or the refresh token is missing. For a body that was parsed the
    message is the error field followed by its description when there is
    one, the error field alone when there is none, and a message with the
    status code when the status is not 200 and there is no error field. *)
Theorem sendTokenFormTimed_response_errors (E : Collaborators)
    (form : gmap string (list string)) (st st' : World) (code status : Z)
    (body : Payload) (result : option TokenResponse) (err : option error) :
  sendTokenFormTimed E form st = (code, result, err, st') ->
  Do E (exchanges st) (tokenRequest (wrapper st) form) = Response status body ->
  (forall e, body = NotJSON e \/ body = Unreadable e -> is_Some err)
  /\ (forall r parseErr, body = Unmarshalled r parseErr ->
        (is_Some (Error r) -> is_Some err)
        /\ (status <> 200 -> is_Some err)
        /\ (forall t, TokenType r = Some t -> t <> "bearer" -> is_Some err)
        /\ (AccessToken r = None -> is_Some err)
        /\ (RefreshToken r = None -> is_Some err))
  /\ (forall r, body = Unmarshalled r None ->
        (forall e d, Error r = Some e -> ErrorDescription r = Some d ->
           err = Some (e +:+ ": " +:+ d))
        /\ (forall e, Error r = Some e -> ErrorDescription r = None ->
            err = Some e)
        /\ (Error r = None -> status <> 200 ->
            err = Some ("token response status code is '"
                        +:+ pretty status +:+ "'"))
        /\ (forall t, Error r = None -> status = 200 ->
            TokenType r = Some t -> t <> "bearer" ->
            err = Some ("expected 'bearer' token type but got '" +:+ t))
        /\ (Error r = None -> status = 200 ->
            (forall t, TokenType r = Some t -> t = "bearer") ->
            AccessToken r = None ->
            err = Some "no access token was received")).
Proof.
  intros H Hx.
  assert (Hfail : forall r, _ -> is_Some err)
    by (intros r; exact (sendTokenFormTimed_reports E form st st' code status
                           body r result err H Hx)).
  split; [| split].
  - intros e [-> | ->]; eapply (Hfail emptyResponse); eauto.
  - intros r parseErr ->.
    assert (Hcases :
      is_Some (Error r) \/ status <> StatusOK
      \/ (exists t, TokenType r = Some t /\ t <> "bearer")
      \/ AccessToken r = None \/ RefreshToken r = None -> is_Some err).
    { intros Hc. apply (Hfail r).
      destruct parseErr as [e |]; [eauto |].
      do 3 right. split; [done |]. tauto. }
    repeat split; intros; apply Hcases; eauto 8.
  - intros r ->. unfold sendTokenFormTimed in H. rewrite Hx in H.
    repeat split.
    + intros e d He Hd. rewrite He, Hd in H. by simplify_eq.
    + intros e He Hd. rewrite He, Hd in H. by simplify_eq.
    + intros He Hs. rewrite He in H.
      destruct (Z.eqb_spec status StatusOK); [done |].
      simpl in H. by simplify_eq.
    + intros t He Hs Ht Hne. rewrite He, Ht in H. subst status.
      destruct (String.eqb_spec t "bearer"); [done |].
      simpl in H. by simplify_eq.
    + intros He Hs Ht Ha. rewrite He, Ha in H. subst status. simpl in H.
      destruct (TokenType r) as [t |]; [| by simplify_eq].
      rewrite (Ht t eq_refl) in H. simpl in H. by simplify_eq.
Qed.

(** The message for an [invalid_grant] answer with a description. *)
Lemma sendTokenFormTimed_response_errors_witness :
  snd (fst rejectedGrant) = Some "invalid_grant: Session not active".
Proof.
  destruct (sendTokenFormTimed_response_errors
              (collaboratorsWith restartedEndpoint)
              (refreshForm (wrapper secretWorld) refreshText) secretWorld
              (snd rejectedGrant) (fst (fst (fst rejectedGrant))) 400
              (Unmarshalled invalidGrant None)
              (snd (fst (fst rejectedGrant))) (snd (fst rejectedGrant)))
    as (_ & _ & Hmessage).
  - vm_compute; reflexivity.
  - vm_compute; reflexivity.
  - destruct (Hmessage invalidGrant eq_refl) as (Hboth & _).
    apply (Hboth "invalid_grant" "Session not active"); reflexivity.
Defined.

(** ** Cached tokens *)

Lemma GetTokenExpiry_no_exp (token : Token) (now : Time)
    (m : gmap string Value) :
  token_Claims token = MapClaims m -> m !! "exp" = None ->
  GetTokenExpiry token now = (false, 0, None).
Proof. intros Hc He. unfold GetTokenExpiry. by rewrite Hc, He. Qed.

Lemma tokens_fresh_access (E : Collaborators) (now : Time) (attempt : Z)
    (expiresIn : Duration) (st : World) (token : Token)
    (accessExpires : bool) (accessLeft : Duration) :
  accessToken (wrapper st) = Some token ->
  GetTokenExpiry token now = (accessExpires, accessLeft, None) ->
  accessExpires = false \/ expiresIn <= accessLeft ->
  (forall rt, refreshToken (wrapper st) = Some rt ->
              snd (GetTokenExpiry rt now) = None) ->
  tokens E now attempt expiresIn st
  = (0, Raw token, snd (currentTokens (wrapper st)), None, st).
Proof.
  intros Ha Hexp Hfresh Hrefresh. unfold tokens, currentTokens.
  rewrite Ha, Hexp.
  assert (Hcond : negb accessExpires || (accessLeft >=? expiresIn) = true).
  { destruct Hfresh as [-> | Hle]; [done |].
    apply orb_true_iff. right. by apply Z.geb_le. }
  destruct (refreshToken (wrapper st)) as [rt |].
  - specialize (Hrefresh rt eq_refl).
    destruct (GetTokenExpiry rt now) as [[re rl] rerr]. simpl in Hrefresh.
    subst rerr. simpl. by rewrite Hcond.
  - simpl. by rewrite Hcond.
Qed.

(** C2, as amended: when an access token is stored that carries no [exp]
    claim, or whose remaining life when the call starts is at least the
    freshness window, and the expiry of the stored refresh token, if there
    is one, can be determined, [Tokens] returns the stored access token and
    the stored refresh token without any exchange and leaves the wrapper and
    everything else as it was. *)
Theorem Tokens_fresh_access (E : Collaborators) (clock : Z -> Time)
    (retries : nat) (expiresIn : list Duration) (st : World) (token : Token) :
  accessToken (wrapper st) = Some token ->
  (exists m, token_Claims token = MapClaims m /\ m !! "exp" = None)
  \/ (exists left, GetTokenExpiry token (clock 1) = (true, left, None)
                   /\ freshnessWindow expiresIn <= left) ->
  (forall rt, refreshToken (wrapper st) = Some rt ->
              snd (GetTokenExpiry rt (clock 1)) = None) ->
  Tokens E clock retries expiresIn st
  = (Raw token, snd (currentTokens (wrapper st)), None, st).
Proof.
  intros Ha Hfresh Hrefresh. unfold Tokens.
  assert (Hattempt :
    tokens E (clock 1) 1 (freshnessWindow expiresIn) st
    = (0, Raw token, snd (currentTokens (wrapper st)), None, st)).
  { destruct Hfresh as [(m & Hm & Hexp) | (left & Hexp & Hle)].
    - eapply tokens_fresh_access; eauto using GetTokenExpiry_no_exp.
    - eapply tokens_fresh_access; eauto. }
  rewrite (backoff_Retry_nil _ _ _
             ({| c_attempt := 1; c_access := Raw token;
                 c_refresh := snd (currentTokens (wrapper st));
                 c_err := None |}, st)); [reflexivity |].
  unfold operation, beforeFirstAttempt. cbn [c_attempt].
  change (0 + 1) with 1. by rewrite Hattempt.
Qed.

(** An access token with thirty seconds left is returned for a freshness
    window of thirty seconds, whatever the endpoint. *)
Lemma Tokens_fresh_access_witness :
  Tokens (collaboratorsWith unreachable) stoppedClock 3 [30 * Second]
    accessOnlyWorld
  = (bearerExp1000000030Text, "", None, accessOnlyWorld).
Proof.
  apply (Tokens_fresh_access (collaboratorsWith unreachable) stoppedClock 3
           [30 * Second] accessOnlyWorld (tokenOf bearerExp1000000030Text)).
  - vm_compute; reflexivity.
  - right. exists (30 * Second). split; [vm_compute; reflexivity |].
    vm_compute. discriminate.
  - intros rt Hrt. vm_compute in Hrt. discriminate.
Defined.

(** C2, as stated, fails for the wrapper that [Build] makes from the
    access token with claims [{"typ":"Bearer"}], which has no [exp] claim,
    and the refresh token with claims [{"typ":"Refresh","exp":"never"}]:
    [Tokens] returns an error and no token. *)
Lemma Tokens_odd_refresh_counterexample :
  Build (collaboratorsWith healthyEndpoint)
    (tokensBuilder [bearerText; refreshExpNeverText])
  = Built (wrapper oddRefreshWorld)
  /\ accessToken (wrapper oddRefreshWorld) = Some (tokenOf bearerText)
  /\ (exists m, token_Claims (tokenOf bearerText) = MapClaims m
                /\ m !! "exp" = None)
  /\ Tokens (collaboratorsWith healthyEndpoint) stoppedClock 0 []
       oddRefreshWorld
     = ("", "", Some "expected floating point 'exp' but got string",
        oddRefreshWorld)
  /\ ~ stated_fresh_access.
Proof.
  split; [vm_compute; reflexivity |].
  split; [reflexivity |]. split; [| split].
  - eexists. split; [vm_compute; reflexivity | vm_compute; reflexivity].
  - vm_compute; reflexivity.
  - intros H.
    specialize (H (collaboratorsWith healthyEndpoint) stoppedClock 0%nat []
                  oddRefreshWorld (tokenOf bearerText) eq_refl).
    assert (Hout : Tokens (collaboratorsWith healthyEndpoint) stoppedClock 0 []
                     oddRefreshWorld
                   = ("", "", Some "expected floating point 'exp' but got string",
                      oddRefreshWorld)) by (vm_compute; reflexivity).
    rewrite Hout in H.
    assert (Hno : (exists m, token_Claims (tokenOf bearerText) = MapClaims m
                             /\ m !! "exp" = None))
      by (eexists; split; vm_compute; reflexivity).
    specialize (H (or_introl Hno)). discriminate.
Qed.

(** ** Without credentials *)

Lemma sendRefreshTokenForm_no_credentials (E : Collaborators) (attempt : Z)
    (st : World) (rt : Token) :
  refreshToken (wrapper st) = Some rt ->
  haveCredentials (wrapper st) = false ->
  sendRefreshTokenForm E attempt st
  = sendTokenForm E (refreshForm (wrapper st) (Raw rt)) attempt st.
Proof.
  intros Hrt Hcred. unfold sendRefreshTokenForm. rewrite Hrt.
  destruct (sendTokenForm E _ attempt st) as [[[code result] err] st1] eqn:Hs.
  apply sendTokenForm_trace in Hs as (_ & _ & Hsame & _).
  rewrite Hsame, Hcred.
  destruct err, result; try done. by rewrite andb_false_r.
Qed.

Lemma tokens_without_credentials (E : Collaborators) (now : Time)
    (attempt : Z) (expiresIn : Duration) (st : World)
    (accessExpires refreshExpires : bool) (accessLeft refreshLeft : Duration) :
  expiryOf (accessToken (wrapper st)) now = (accessExpires, accessLeft, None) ->
  expiryOf (refreshToken (wrapper st)) now
  = (refreshExpires, refreshLeft, None) ->
  accessToken (wrapper st) = None
  \/ (accessExpires = true /\ accessLeft < expiresIn) ->
  refreshToken (wrapper st) = None
  \/ (refreshExpires = true /\ refreshLeft < expiresIn) ->
  haveCredentials (wrapper st) = false ->
  tokens E now attempt expiresIn st
  = match refreshToken (wrapper st), accessToken (wrapper st) with
    | Some rt, _ =>
        if refreshLeft >? 0 then
          afterGrant
            (sendTokenForm E (refreshForm (wrapper st) (Raw rt)) attempt st)
        else if notNil (accessToken (wrapper st)) && (accessLeft >? 0) then
          (0, fst (currentTokens (wrapper st)),
           snd (currentTokens (wrapper st)), None, st)
        else (0, "", "", Some noTokensMessage, st)
    | None, Some _ =>
        if accessLeft >? 0 then
          (0, fst (currentTokens (wrapper st)),
           snd (currentTokens (wrapper st)), None, st)
        else (0, "", "", Some noTokensMessage, st)
    | None, None => (0, "", "", Some noTokensMessage, st)
    end.
Proof.
  unfold expiryOf, tokens. intros Ha Hr Hau Hru Hcred.
  rewrite Ha, Hr, Hcred.
  assert (Hnota : notNil (accessToken (wrapper st))
                  && (negb accessExpires || (accessLeft >=? expiresIn)) = false).
  { destruct Hau as [-> | [-> Hlt]]; [done |].
    apply andb_false_iff. right. simpl.
    destruct (Z.geb_spec accessLeft expiresIn); [lia | done]. }
  assert (Hnotr : notNil (refreshToken (wrapper st))
                  && (negb refreshExpires || (refreshLeft >=? expiresIn)) = false).
  { destruct Hru as [-> | [-> Hlt]]; [done |].
    apply andb_false_iff. right. simpl.
    destruct (Z.geb_spec refreshLeft expiresIn); [lia | done]. }
  rewrite Hnota, Hnotr.
  destruct (refreshToken (wrapper st)) as [rt |] eqn:Hrt.
  - simpl. destruct (refreshLeft >? 0) eqn:Hpos.
    + by rewrite (sendRefreshTokenForm_no_credentials E attempt st rt).
    + unfold currentTokens. rewrite Hrt.
      destruct (accessToken (wrapper st)); simpl; [| done].
      by destruct (accessLeft >? 0).
  - simpl. unfold currentTokens. rewrite Hrt.
    destruct (accessToken (wrapper st)); simpl; [| done].
    by destruct (accessLeft >? 0).
Qed.

Lemma Tokens_first_attempt_final (E : Collaborators) (clock : Z -> Time)
    (retries : nat) (expiresIn : list Duration) (st st' : World) (code : Z)
    (access refresh : string) (err : option error) :
  tokens E (clock 1) 1 (freshnessWindow expiresIn) st
  = (code, access, refresh, err, st') ->
  err = None \/ code < 500 ->
  Tokens E clock retries expiresIn st = (access, refresh, err, st').
Proof.
  intros Htokens Hfinal. unfold Tokens.
  set (c' := {| c_attempt := 1; c_access := access; c_refresh := refresh;
                c_err := err |}).
  assert (Hop : exists r,
    operation E clock (freshnessWindow expiresIn) (beforeFirstAttempt, st)
    = (r, (c', st')) /\ (r = None \/ exists e, r = Some (Permanent e))).
  { unfold operation, beforeFirstAttempt. cbn [c_attempt].
    change (0 + 1) with 1. rewrite Htokens. fold c'.
    destruct err as [e |]; [| eexists; split; [reflexivity | by left]].
    destruct Hfinal as [? | Hlt]; [done |].
    unfold StatusInternalServerError.
    destruct (Z.geb_spec code 500); [lia |].
    eexists; split; [reflexivity | right; by eexists]. }
  destruct Hop as (r & Hop & [-> | [e ->]]).
  - by rewrite (backoff_Retry_nil _ _ _ _ Hop).
  - by rewrite (backoff_Retry_permanent _ _ _ _ _ Hop).
Qed.

(** C6, as amended: when the expiry of the stored tokens can be
    determined, the access token is missing or has less than the freshness
    window left, the refresh token is missing or has less than the freshness
    window left, and there are no credentials, [Tokens] first sends a
    refresh token grant if the refresh token has any life left (one request,
    whose outcome is the outcome of the attempt); else it returns the access
    token if that has any life left; else it fails with the message that
    the tokens are unavailable or expired and that there are no credentials
    to request new ones. The last two outcomes involve no exchange and no
    change of the wrapper. *)
Theorem Tokens_without_credentials (E : Collaborators) (clock : Z -> Time)
    (retries : nat) (expiresIn : list Duration) (st : World)
    (accessExpires refreshExpires : bool) (accessLeft refreshLeft : Duration) :
  expiryOf (accessToken (wrapper st)) (clock 1)
  = (accessExpires, accessLeft, None) ->
  expiryOf (refreshToken (wrapper st)) (clock 1)
  = (refreshExpires, refreshLeft, None) ->
  accessToken (wrapper st) = None
  \/ (accessExpires = true /\ accessLeft < freshnessWindow expiresIn) ->
  refreshToken (wrapper st) = None
  \/ (refreshExpires = true /\ refreshLeft < freshnessWindow expiresIn) ->
  haveCredentials (wrapper st) = false ->
  (forall rt, refreshToken (wrapper st) = Some rt -> 0 < refreshLeft ->
     exists code result err st1,
       sendTokenForm E (refreshForm (wrapper st) (Raw rt)) 1 st
       = (code, result, err, st1)
       /\ Form (tokenRequest (wrapper st) (refreshForm (wrapper st) (Raw rt)))
            !! "grant_type" = Some ["refresh_token"]
       /\ newExchanges st st1
          = [(tokenRequest (wrapper st) (refreshForm (wrapper st) (Raw rt)),
              Do E (exchanges st)
                (tokenRequest (wrapper st) (refreshForm (wrapper st) (Raw rt))))]
       /\ tokens E (clock 1) 1 (freshnessWindow expiresIn) st
          = afterGrant (code, result, err, st1)
       /\ (err = None ->
           Tokens E clock retries expiresIn st
           = (fst (currentTokens (wrapper st1)),
              snd (currentTokens (wrapper st1)), None, st1))
       /\ (is_Some err -> code < 500 ->
           Tokens E clock retries expiresIn st = ("", "", err, st1)))
  /\ (refreshToken (wrapper st) = None \/ refreshLeft <= 0 ->
      forall token, accessToken (wrapper st) = Some token -> 0 < accessLeft ->
        Tokens E clock retries expiresIn st
        = (Raw token, snd (currentTokens (wrapper st)), None, st))
  /\ (refreshToken (wrapper st) = None \/ refreshLeft <= 0 ->
      accessToken (wrapper st) = None \/ accessLeft <= 0 ->
      Tokens E clock retries expiresIn st
      = ("", "", Some noTokensMessage, st)).
Proof.
  intros Ha Hr Hau Hru Hcred.
  pose proof (tokens_without_credentials E (clock 1) 1
                (freshnessWindow expiresIn) st _ _ _ _ Ha Hr Hau Hru Hcred)
    as Htokens.
  split; [| split].
  - intros rt Hrt Hpos. rewrite Hrt in Htokens.
    destruct (Z.gtb_spec refreshLeft 0); [| lia].
    destruct (sendTokenForm E (refreshForm (wrapper st) (Raw rt)) 1 st)
      as [[[code result] err] st1] eqn:Hsend.
    exists code, result, err, st1.
    pose proof (sendTokenForm_trace _ _ _ _ _ _ _ _ Hsend) as (Hx & _ & _ & _).
    split; [done |]. split; [by vm_compute |]. split.
    { unfold newExchanges. rewrite Hx. simpl.
      replace (S (length (exchanges st)) - length (exchanges st))%nat
        with 1%nat by lia.
      done. }
    split; [done |]. split.
    + intros ->. eapply Tokens_first_attempt_final; [| by left].
      rewrite Htokens. unfold afterGrant.
      by destruct (currentTokens (wrapper st1)).
    + intros [e ->] Hlt. eapply Tokens_first_attempt_final; [| by right].
      by rewrite Htokens.
  - intros Hnor token Htoken Hpos.
    eapply Tokens_first_attempt_final; [| by left].
    rewrite Htokens, Htoken. unfold currentTokens. rewrite Htoken.
    destruct (Z.gtb_spec accessLeft 0); [| lia].
    destruct (refreshToken (wrapper st)) as [rt |]; [| done].
    destruct Hnor as [? | Hle]; [done |].
    destruct (Z.gtb_spec refreshLeft 0); [lia | done].
  - intros Hnor Hnoa.
    assert (Hnone : tokens E (clock 1) 1 (freshnessWindow expiresIn) st
                    = (0, "", "", Some noTokensMessage, st)).
    { rewrite Htokens.
      destruct (refreshToken (wrapper st)) as [rt |].
      - destruct Hnor as [? | Hle]; [done |].
        destruct (Z.gtb_spec refreshLeft 0); [lia |].
        destruct Hnoa as [-> | Hle']; [done |].
        destruct (Z.gtb_spec accessLeft 0); [lia |].
        by rewrite andb_false_r.
      - destruct (accessToken (wrapper st)); [| done].
        destruct Hnoa as [? | Hle']; [done |].
        by destruct (Z.gtb_spec accessLeft 0); [lia |]. }
    eapply Tokens_first_attempt_final; [exact Hnone | right; lia].
Qed.

(** An access token with thirty seconds left is returned under the default
    window of one minute when there is nothing else to try. *)
Lemma Tokens_without_credentials_witness :
  Tokens (collaboratorsWith unreachable) stoppedClock 3 [] accessOnlyWorld
  = (bearerExp1000000030Text, "", None, accessOnlyWorld).
Proof.
  destruct (Tokens_without_credentials (collaboratorsWith unreachable)
              stoppedClock 3 [] accessOnlyWorld true false (30 * Second) 0)
    as (_ & Haccess & _).
  - vm_compute; reflexivity.
  - vm_compute; reflexivity.
  - right. split; vm_compute; reflexivity.
  - left. vm_compute; reflexivity.
  - vm_compute; reflexivity.
  - apply (Haccess (or_introl eq_refl) (tokenOf bearerExp1000000030Text));
      vm_compute; reflexivity.
Defined.

(** C6, as stated, fails for the wrapper that [Build] makes from an access
    token with thirty seconds left and the refresh token with claims
    [{"typ":"Refresh","exp":"never"}], without credentials: neither token is
    usable under the window of one minute, the refresh token has no life
    left that could be determined and the access token has, yet [Tokens]
    does not return the access token: it returns the error of the [exp]
    claim, without any exchange. *)
Lemma Tokens_odd_expiry_counterexample :
  Build (collaboratorsWith healthyEndpoint)
    (tokensBuilder [bearerExp1000000030Text; refreshExpNeverText])
  = Built (wrapper staleAccessWorld)
  /\ haveCredentials (wrapper staleAccessWorld) = false
  /\ GetTokenExpiry (tokenOf bearerExp1000000030Text) (stoppedClock 1)
     = (true, 30 * Second, None)
  /\ GetTokenExpiry (tokenOf refreshExpNeverText) (stoppedClock 1)
     = (false, 0, Some "expected floating point 'exp' but got string")
  /\ Tokens (collaboratorsWith healthyEndpoint) stoppedClock 0 []
       staleAccessWorld
     = ("", "", Some "expected floating point 'exp' but got string",
        staleAccessWorld)
  /\ ~ stated_without_credentials.
Proof.
  assert (Haccess : GetTokenExpiry (tokenOf bearerExp1000000030Text)
                      (stoppedClock 1) = (true, 30 * Second, None))
    by (vm_compute; reflexivity).
  assert (Hrefresh : GetTokenExpiry (tokenOf refreshExpNeverText)
                       (stoppedClock 1)
                     = (false, 0,
                        Some "expected floating point 'exp' but got string"))
    by (vm_compute; reflexivity).
  assert (Hout : Tokens (collaboratorsWith healthyEndpoint) stoppedClock 0 []
                   staleAccessWorld
                 = ("", "", Some "expected floating point 'exp' but got string",
                    staleAccessWorld)) by (vm_compute; reflexivity).
  split; [vm_compute; reflexivity |]. split; [reflexivity |].
  split; [exact Haccess |]. split; [exact Hrefresh |]. split; [exact Hout |].
  intros H.
  destruct (H (collaboratorsWith healthyEndpoint) stoppedClock 0%nat []
              staleAccessWorld) as (_ & Hreturned & _).
  - intros (token & expires & left & Htoken & Hexpiry & Hfresh).
    change (accessToken (wrapper staleAccessWorld))
      with (Some (tokenOf bearerExp1000000030Text)) in Htoken.
    injection Htoken as <-. rewrite Haccess in Hexpiry.
    injection Hexpiry as <- <-.
    destruct Hfresh as [Hfresh | Hfresh]; [discriminate |].
    vm_compute in Hfresh. by apply Hfresh.
  - intros (token & expires & left & Htoken & Hexpiry & _).
    change (refreshToken (wrapper staleAccessWorld))
      with (Some (tokenOf refreshExpNeverText)) in Htoken.
    injection Htoken as <-. rewrite Hrefresh in Hexpiry.
    discriminate.
  - reflexivity.
  - destruct Hreturned as (token & _ & Hreturn).
    + intros (token & left & Htoken & Hexpiry & _).
      change (refreshToken (wrapper staleAccessWorld))
        with (Some (tokenOf refreshExpNeverText)) in Htoken.
      injection Htoken as <-. rewrite Hrefresh in Hexpiry.
      discriminate.
    + exists (tokenOf bearerExp1000000030Text), (30 * Second).
      split; [reflexivity |]. split; [exact Haccess |]. vm_compute. reflexivity.
    + rewrite Hout in Hreturn. discriminate.
Qed.

(** ** Sessions that are gone *)

Lemma sendTokenForm_error_field (E : Collaborators)
    (form : gmap string (list string)) (attempt : Z) (st : World) (status : Z)
    (r : TokenResponse) (parseErr : option error) (e : string) :
  Do E (exchanges st) (tokenRequest (wrapper st) form)
  = Response status (Unmarshalled r parseErr) ->
  Error r = Some e ->
  exists msg st1,
    sendTokenForm E form attempt st = (status, Some r, Some msg, st1)
    /\ wrapper st1 = wrapper st
    /\ exchanges st1
       = (tokenRequest (wrapper st) form,
          Response status (Unmarshalled r parseErr)) :: exchanges st.
Proof.
  intros Hx He. unfold sendTokenForm, sendTokenFormTimed. rewrite Hx, He.
  destruct parseErr, (ErrorDescription r); simpl;
    destruct (notNil (tokenCountMetric (wrapper st))
              || notNil (tokenDurationMetric (wrapper st)));
    by eexists _, _.
Qed.

Lemma sendRefreshTokenForm_invalid_grant (E : Collaborators) (attempt : Z)
    (st : World) (rt : Token) (status : Z) (r : TokenResponse)
    (parseErr : option error) :
  refreshToken (wrapper st) = Some rt ->
  haveCredentials (wrapper st) = true ->
  Do E (exchanges st) (tokenRequest (wrapper st) (refreshForm (wrapper st) (Raw rt)))
  = Response status (Unmarshalled r parseErr) ->
  Error r = Some "invalid_grant" ->
  exists st1,
    wrapper st1 = wrapper st
    /\ exchanges st1
       = (tokenRequest (wrapper st) (refreshForm (wrapper st) (Raw rt)),
          Response status (Unmarshalled r parseErr)) :: exchanges st
    /\ sendRefreshTokenForm E attempt st = sendRequestTokenForm E attempt st1.
Proof.
  intros Hrt Hcred Hx He.
  destruct (sendTokenForm_error_field E _ attempt st status r parseErr _ Hx He)
    as (msg & st1 & Hsend & Hw & Hex).
  exists st1. split; [done |]. split; [done |].
  unfold sendRefreshTokenForm. rewrite Hrt, Hsend, He, Hw, Hcred. done.
Qed.

(** C4, as amended: in every attempt in which the refresh token grant is
    answered with [invalid_grant] while a user name and password or a client
    identifier and secret are configured, exactly one password or client
    credentials grant follows within that attempt, and the outcome of the
    attempt is the outcome of that grant, not the [invalid_grant] error.
    Whether the attempt is the first of a call of [Tokens] or comes after
    attempts that the back-off loop has run again, the outcome of that
    grant is the outcome of the call when the grant succeeds, when it fails
    with a status below 500, and when it fails with the retries used up;
    when it fails with a status of 500 or more and a retry is left, the
    loop goes on from the state that the grant has left, with one retry
    less. *)
Theorem tokens_invalid_grant_follow_up (E : Collaborators) (now : Time)
    (attempt : Z) (window : Duration) (st : World)
    (accessExpires refreshExpires : bool) (accessLeft refreshLeft : Duration)
    (rt : Token) (status : Z) (r : TokenResponse) (parseErr : option error) :
  expiryOf (accessToken (wrapper st)) now = (accessExpires, accessLeft, None) ->
  expiryOf (refreshToken (wrapper st)) now
  = (refreshExpires, refreshLeft, None) ->
  accessToken (wrapper st) = None
  \/ (accessExpires = true /\ accessLeft < window) ->
  refreshToken (wrapper st) = Some rt ->
  refreshExpires = false \/ window <= refreshLeft ->
  haveCredentials (wrapper st) = true ->
  Do E (exchanges st)
    (tokenRequest (wrapper st) (refreshForm (wrapper st) (Raw rt)))
  = Response status (Unmarshalled r parseErr) ->
  Error r = Some "invalid_grant" ->
  exists form code result err st1 st2,
    Form (tokenRequest (wrapper st) form) !! "grant_type"
    = Some [if havePassword (wrapper st) then "password"
            else "client_credentials"]
    /\ wrapper st1 = wrapper st
    /\ sendTokenForm E form attempt st1 = (code, result, err, st2)
    /\ newExchanges st st2
       = [(tokenRequest (wrapper st) form,
           Do E (exchanges st1) (tokenRequest (wrapper st) form));
          (tokenRequest (wrapper st) (refreshForm (wrapper st) (Raw rt)),
           Response status (Unmarshalled r parseErr))]
    /\ code = codeOf (Do E (exchanges st1) (tokenRequest (wrapper st) form))
    /\ tokens E now attempt window st = afterGrant (code, result, err, st2)
    /\ (forall clock retries expiresIn,
          now = clock 1 -> attempt = 1 -> window = freshnessWindow expiresIn ->
          (err = None ->
           Tokens E clock retries expiresIn st
           = (fst (currentTokens (wrapper st2)),
              snd (currentTokens (wrapper st2)), None, st2))
          /\ (is_Some err -> code < 500 ->
              Tokens E clock retries expiresIn st = ("", "", err, st2)))
    /\ (forall clock (retries n : nat) expiresIn st0 c,
          failedRuns (operation E clock (freshnessWindow expiresIn)) n
            (beforeFirstAttempt, st0) (c, st) ->
          (n <= retries)%nat ->
          now = clock (c_attempt c + 1) -> attempt = c_attempt c + 1 ->
          window = freshnessWindow expiresIn ->
          (err = None ->
           Tokens E clock retries expiresIn st0
           = (fst (currentTokens (wrapper st2)),
              snd (currentTokens (wrapper st2)), None, st2))
          /\ (is_Some err -> code < 500 \/ n = retries ->
              Tokens E clock retries expiresIn st0 = ("", "", err, st2))
          /\ (is_Some err -> 500 <= code -> (n < retries)%nat ->
              backoff_Retry (operation E clock (freshnessWindow expiresIn))
                retries (beforeFirstAttempt, st0)
              = backoff_Retry (operation E clock (freshnessWindow expiresIn))
                  (retries - S n)
                  ({| c_attempt := attempt; c_access := ""; c_refresh := "";
                      c_err := err |}, st2))).
Proof.
  intros Ha Hr Hau Hrt Hfresh Hcred Hx He.
  destruct (sendRefreshTokenForm_invalid_grant E attempt st rt status r
              parseErr Hrt Hcred Hx He) as (st1 & Hw & Hex1 & Hfallback).
  destruct (sendRequestTokenForm E attempt st1)
    as [[[code result] err] st2] eqn:Hfollow.
  pose proof Hcred as Hcred1. rewrite <- Hw in Hcred1.
  destruct (sendRequestTokenForm_sends E attempt st1 code result err st2
              Hcred1 Hfollow) as (form & Hsend & Hgrant & Hex2 & Hcode).
  rewrite Hw in Hgrant, Hex2, Hcode.
  assert (Htokens : tokens E now attempt window st
                    = afterGrant (code, result, err, st2)).
  { unfold expiryOf in Ha, Hr. unfold tokens. rewrite Ha, Hr, Hrt.
    assert (Hnota : notNil (accessToken (wrapper st))
                    && (negb accessExpires || (accessLeft >=? window)) = false).
    { destruct Hau as [-> | [-> Hlt]]; [done |].
      apply andb_false_iff. right. simpl.
      destruct (Z.geb_spec accessLeft window); [lia | done]. }
    assert (Hyesr : negb refreshExpires || (refreshLeft >=? window) = true).
    { destruct Hfresh as [-> | Hle]; [done |].
      apply orb_true_iff. right. by apply Z.geb_le. }
    rewrite Hnota, Hyesr. simpl. by rewrite Hfallback. }
  exists form, code, result, err, st1, st2.
  split; [done |]. split; [done |].
  split; [done |]. split.
  { unfold newExchanges. rewrite Hex2, Hex1. simpl.
    replace (S (S (length (exchanges st))) - length (exchanges st))%nat
      with 2%nat by lia.
    done. }
  split; [done |]. split; [done |]. split.
  { intros clock retries expiresIn -> -> ->. split.
    - intros ->. eapply Tokens_first_attempt_final; [| by left].
      rewrite Htokens. unfold afterGrant.
      by destruct (currentTokens (wrapper st2)).
    - intros [e ->] Hlt. eapply Tokens_first_attempt_final; [| by right].
      by rewrite Htokens. }
  intros clock retries n expiresIn st0 c Hruns Hle -> -> ->.
  assert (Hstart : backoff_Retry
                     (operation E clock (freshnessWindow expiresIn)) retries
                     (beforeFirstAttempt, st0)
                   = backoff_Retry
                       (operation E clock (freshnessWindow expiresIn))
                       (retries - n) (c, st))
    by by apply failedRuns_retry.
  assert (Hop : operation E clock (freshnessWindow expiresIn) (c, st)
                = (match err with
                   | Some e =>
                       if code >=? StatusInternalServerError
                       then Some (Transient e) else Some (Permanent e)
                   | None => None
                   end,
                   ({| c_attempt := c_attempt c + 1;
                       c_access :=
                         match err with
                         | Some _ => ""
                         | None => fst (currentTokens (wrapper st2))
                         end;
                       c_refresh :=
                         match err with
                         | Some _ => ""
                         | None => snd (currentTokens (wrapper st2))
                         end;
                       c_err := err |}, st2))).
  { unfold operation. rewrite Htokens. unfold afterGrant.
    destruct err as [e |]; [by destruct (code >=? StatusInternalServerError) |].
    by destruct (currentTokens (wrapper st2)). }
  split; [| split].
  - intros ->. unfold Tokens. rewrite Hstart.
    by rewrite (backoff_Retry_nil _ _ _ _ Hop).
  - intros [e ->] Hfinal. unfold Tokens. rewrite Hstart.
    destruct (code >=? StatusInternalServerError) eqn:Hhigh.
    + destruct Hfinal as [Hlt | ->];
        [unfold StatusInternalServerError in Hhigh; lia |].
      rewrite Nat.sub_diag. cbn [backoff_Retry]. by rewrite Hop.
    + by rewrite (backoff_Retry_permanent _ _ _ _ _ Hop).
  - intros [e ->] Hhigh Hlt.
    assert ((code >=? StatusInternalServerError) = true) as Hretry
      by (unfold StatusInternalServerError; lia).
    rewrite Hretry in Hop.
    apply (failedRuns_retry _ _ _ _ _ (failedRuns_snoc _ _ _ _ _ _ Hruns Hop)).
    lia.
Qed.

(** An attempt with a client secret against the endpoint whose sessions are
    gone: two exchanges, and the outcome is that of the second. *)
Lemma tokens_invalid_grant_follow_up_witness :
  exists code result err st2,
    tokens (collaboratorsWith restartedEndpoint) (stoppedClock 1) 1 tokenExpiry
      secretWorld
    = afterGrant (code, result, err, st2)
    /\ length (newExchanges secretWorld st2) = 2%nat.
Proof.
  destruct (tokens_invalid_grant_follow_up (collaboratorsWith restartedEndpoint)
              (stoppedClock 1) 1 tokenExpiry secretWorld false false 0 0
              (tokenOf refreshText) 400 invalidGrant None)
    as (form & code & result & err & st1 & st2 & _ & _ & _ & Hnew & _
        & Houtcome & _).
  - vm_compute; reflexivity.
  - vm_compute; reflexivity.
  - by left.
  - vm_compute; reflexivity.
  - by left.
  - vm_compute; reflexivity.
  - vm_compute; reflexivity.
  - vm_compute; reflexivity.
  - exists code, result, err, st2. split; [exact Houtcome |].
    by rewrite Hnew.
Defined.

(** C4, as stated, fails for a wrapper with a client secret and a refresh
    token against an endpoint whose sessions are gone and that answers the
    first client credentials grant with status 503: with one retry granted,
    one call of [Tokens] makes the refresh token grant twice, each answered
    with [invalid_grant], and the client credentials grant twice. *)
Lemma Tokens_restarted_counterexample :
  haveCredentials (wrapper secretWorld) = true
  /\ map (fun p => (grantType (fst p), codeOf (snd p)))
       (newExchanges secretWorld
          (snd (Tokens (collaboratorsWith restartedEndpoint) stoppedClock 1 []
                  secretWorld)))
     = [("client_credentials", 200); ("refresh_token", 400);
        ("client_credentials", 503); ("refresh_token", 400)]
  /\ ~ stated_single_follow_up.
Proof.
  split; [reflexivity |]. split; [vm_compute; reflexivity |].
  intros H.
  specialize (H (collaboratorsWith restartedEndpoint) stoppedClock 1%nat []
                secretWorld eq_refl).
  assert (Hcount :
    length (List.filter (fun p => isCredentialsGrant (fst p))
              (newExchanges secretWorld
                 (snd (Tokens (collaboratorsWith restartedEndpoint)
                         stoppedClock 1 [] secretWorld)))) = 2%nat)
    by (vm_compute; reflexivity).
  rewrite Hcount in H. 
  assert (Hne : 2%nat <> 1%nat) by discriminate.
  apply Hne, H.
  exists (tokenRequest (wrapper secretWorld)
            (refreshForm (wrapper secretWorld) refreshText)),
         400, invalidGrant, None.
  split; [| split; [vm_compute; reflexivity | reflexivity]].
  vm_compute. right. right. right. left. reflexivity.
Qed.

(** ** Build *)

Lemma nonempty_false (s : string) : nonempty s = false <-> s = "".
Proof.
  unfold nonempty. destruct (String.eqb_spec s ""); simpl; split; congruence.
Qed.

Lemma nonempty_true (s : string) : nonempty s = true <-> s <> "".
Proof.
  unfold nonempty. destruct (String.eqb_spec s ""); simpl; split; congruence.
Qed.

Section TokenLoop.

Context (E : Collaborators).

(** What the loop of [Build] does with one token. *)
Lemma parseTokens_step (i : nat) (text : string) (rest : list string)
    (a r : option Token) :
  (rejectedToken E text
   /\ exists e, parseTokens E i (text :: rest) a r = Err e)
  \/ (exists token typ,
        ParseUnverified E text = Ok token
        /\ tokenTyp token = Some (VString typ)
        /\ ((accessTyp typ = true
             /\ parseTokens E i (text :: rest) a r
                = parseTokens E (S i) rest (Some token) r)
            \/ (accessTyp typ = false /\ refreshTyp typ = true
                /\ parseTokens E i (text :: rest) a r
                   = parseTokens E (S i) rest a (Some token)))).
Proof.
  unfold rejectedToken, accessTyp, refreshTyp. simpl.
  destruct (ParseUnverified E text) as [token | e];
    [| left; split; [left |]; by eexists].
  destruct (token_Claims token) as [m | name] eqn:Hc;
    [| left; split; [| by eexists];
       right; exists token; split; [done |]; left;
       unfold tokenTyp; by rewrite Hc].
  destruct (m !! "typ") as [v |] eqn:Hm;
    [| left; split; [| by eexists];
       right; exists token; split; [done |]; left;
       unfold tokenTyp; by rewrite Hc].
  assert (Htyp : tokenTyp token = Some v)
    by (unfold tokenTyp; by rewrite Hc).
  destruct v as [| b | f | typ | items | fields];
    try (left; split; [| by eexists];
         right; exists token; split; [done |]; right;
         eexists; split; [exact Htyp | intros ? [=]]).
  destruct (strings_EqualFold typ "Bearer") eqn:Hb;
    [right; exists token, typ; split; [done |]; split; [done |];
     left; by split |].
  destruct (strings_EqualFold typ "Refresh") eqn:Hr;
    [right; exists token, typ; split; [done |]; split; [done |];
     right; split; [done |]; split; [by rewrite Hr | done] |].
  destruct (strings_EqualFold typ "Offline") eqn:Ho;
    [right; exists token, typ; split; [done |]; split; [done |];
     right; split; [done |]; split; [by rewrite Ho, orb_true_r | done] |].
  left. split; [| by eexists].
  right. exists token. split; [done |]. right.
  eexists. split; [exact Htyp |]. intros ? [= <-]. by rewrite Hb, Hr, Ho.
Qed.

Lemma rejectedToken_not_accepted (text : string) (token : Token)
    (typ : string) :
  rejectedToken E text ->
  ParseUnverified E text = Ok token ->
  tokenTyp token = Some (VString typ) ->
  accessTyp typ = false /\ refreshTyp typ = false.
Proof.
  intros [[e He] | (token' & Hp & [Hnone | (v & Hv & Hnot)])] Hparse Htyp;
    [congruence | congruence |].
  assert (token' = token) by congruence. subst token'.
  apply Hnot. congruence.
Qed.

Lemma parseTokens_fails_iff (texts : list string) (i : nat)
    (a r : option Token) :
  (exists e, parseTokens E i texts a r = Err e)
  <-> exists text, In text texts /\ rejectedToken E text.
Proof.
  revert i a r. induction texts as [| text rest IH]; intros i a r.
  - simpl. split; [intros [e ?]; done | intros (? & [] & _)].
  - destruct (parseTokens_step i text rest a r)
      as [[Hrej Herr] | (token & typ & Hparse & Htyp & Hstep)].
    + split; [| done]. intros _. exists text. split; [by left | done].
    + assert (Hnot : ~ rejectedToken E text).
      { intros Hrej.
        destruct (rejectedToken_not_accepted _ _ _ Hrej Hparse Htyp).
        destruct Hstep as [[? _] | (_ & ? & _)]; congruence. }
      assert (Hin : (exists t, In t (text :: rest) /\ rejectedToken E t)
                    <-> (exists t, In t rest /\ rejectedToken E t)).
      { split.
        - intros (t & [<- | Hin] & Hrej); [done | by exists t].
        - intros (t & Hin & Hrej). exists t. split; [by right | done]. }
      rewrite Hin.
      destruct Hstep as [[_ ->] | (_ & _ & ->)]; apply IH.
Qed.

(** The tokens that the loop leaves are the ones it started with or tokens
    of the list, each of its own class. *)
Lemma parseTokens_origin (texts : list string) (i : nat)
    (a r a' r' : option Token) :
  parseTokens E i texts a r = Ok (a', r') ->
  (a' = a
   \/ exists token typ, a' = Some token
        /\ tokenTyp token = Some (VString typ) /\ accessTyp typ = true)
  /\ (r' = r
      \/ exists token typ, r' = Some token
           /\ tokenTyp token = Some (VString typ)
           /\ accessTyp typ = false /\ refreshTyp typ = true).
Proof.
  revert i a r. induction texts as [| text rest IH]; intros i a r H.
  - simpl in H. simplify_eq. split; by left.
  - destruct (parseTokens_step i text rest a r)
      as [[_ [e Herr]] | (token & typ & Hparse & Htyp & Hstep)];
      [congruence |].
    destruct Hstep as [[Hacc Heq] | (Hacc & Href & Heq)];
      rewrite Heq in H; apply IH in H as [Ha Hr]; split; try done.
    + destruct Ha as [-> | ?]; [| by right]. right. by exists token, typ.
    + destruct Hr as [-> | ?]; [| by right]. right. by exists token, typ.
Qed.

(** Tokens for the access token only leave the refresh token as it is, and
    the other way round. *)
Lemma parseTokens_keeps_refresh (texts : list string) (i : nat)
    (a r a' r' : option Token) :
  (forall text token typ, In text texts -> ParseUnverified E text = Ok token ->
     tokenTyp token = Some (VString typ) -> refreshTyp typ = false) ->
  parseTokens E i texts a r = Ok (a', r') -> r' = r.
Proof.
  revert i a. induction texts as [| text rest IH]; intros i a Hall H.
  - simpl in H. by simplify_eq.
  - destruct (parseTokens_step i text rest a r)
      as [[_ [e Herr]] | (token & typ & Hparse & Htyp & Hstep)];
      [congruence |].
    destruct Hstep as [[_ Heq] | (_ & Href & _)].
    + rewrite Heq in H. eapply IH; [| exact H].
      intros; eapply Hall; eauto. by right.
    + rewrite (Hall text token typ) in Href; [done | by left | done | done].
Qed.

Lemma parseTokens_keeps_access (texts : list string) (i : nat)
    (a r a' r' : option Token) :
  (forall text token typ, In text texts -> ParseUnverified E text = Ok token ->
     tokenTyp token = Some (VString typ) -> accessTyp typ = false) ->
  parseTokens E i texts a r = Ok (a', r') -> a' = a.
Proof.
  revert i r. induction texts as [| text rest IH]; intros i r Hall H.
  - simpl in H. by simplify_eq.
  - destruct (parseTokens_step i text rest a r)
      as [[_ [e Herr]] | (token & typ & Hparse & Htyp & Hstep)];
      [congruence |].
    destruct Hstep as [[Hacc _] | (_ & _ & Heq)].
    + rewrite (Hall text token typ) in Hacc; [done | by left | done | done].
    + rewrite Heq in H. eapply IH; [| exact H].
      intros; eapply Hall; eauto. by right.
Qed.

(** The loop over a list in two parts. *)
Lemma parseTokens_app (before rest : list string) (i : nat)
    (a r : option Token) (res : option Token * option Token) :
  parseTokens E i (before ++ rest) a r = Ok res ->
  exists a1 r1, parseTokens E (i + length before) rest a1 r1 = Ok res.
Proof.
  revert i a r. induction before as [| text before IH]; intros i a r H.
  - exists a, r. simpl. by rewrite Nat.add_0_r.
  - change ((text :: before) ++ rest) with (text :: (before ++ rest)) in H.
    destruct (parseTokens_step i text (before ++ rest) a r)
      as [[_ [e Herr]] | (token & typ & Hparse & Htyp & Hstep)];
      [congruence |].
    simpl length. replace (i + S (length before))%nat
      with (S i + length before)%nat by lia.
    destruct Hstep as [[_ Heq] | (_ & _ & Heq)]; rewrite Heq in H;
      by apply IH in H.
Qed.

End TokenLoop.

Lemma Build_tokens (E : Collaborators) (b : TransportWrapperBuilder)
    (w : TransportWrapper) :
  Build E b = Built w ->
  parseTokens E 0 (b_tokens b) None None = Ok (accessToken w, refreshToken w).
Proof.
  unfold Build, register. intros H.
  repeat case_match; simplify_eq; done.
Qed.

Lemma noCredentialSource_iff (b : TransportWrapperBuilder) :
  negb (0 <? length (b_tokens b))%nat
  && negb (nonempty (b_user b) && nonempty (b_password b))
  && negb (nonempty (b_clientID b) && nonempty (b_clientSecret b)) = true
  <-> noCredentialSource b.
Proof.
  unfold noCredentialSource.
  rewrite !andb_true_iff, !negb_true_iff, !andb_false_iff, !nonempty_false.
  rewrite Nat.ltb_ge.
  split.
  - intros [[Hlen Hp] Hs]. split; [| done].
    destruct (b_tokens b); [done | simpl in Hlen; lia].
  - intros (Hlen & Hp & Hs). rewrite Hlen. simpl. done.
Qed.

Lemma Build_branch_failed (D S R : Prop) (err : error) :
  D ->
  ((exists e, BuildFailed err = BuildFailed e) <-> D) /\ (~ D -> S -> R).
Proof. intros HD. split; [split; [done | by eexists] | done]. Qed.

Lemma Build_branch_built (D S : Prop) (w : TransportWrapper) :
  ~ D ->
  ((exists e, Built w = BuildFailed e) <-> D)
  /\ (~ D -> S -> exists w', Built w = Built w').
Proof.
  intros HD. split; [split; [intros [? ?]; done | done] | by eexists].
Qed.

Lemma Build_branch_panic (D S R : Prop) :
  ~ D -> ~ S ->
  ((exists e, BuildPanic = BuildFailed e) <-> D) /\ (~ D -> S -> R).
Proof.
  intros HD HS. split; [split; [intros [? ?]; done | done] | done].
Qed.

(** C7, as amended: [Build] fails with an error exactly when no logger is
    supplied, or none of the tokens, the user name with password and the
    client identifier with secret is present, or a token cannot be parsed,
    has no [typ] claim, or has a [typ] that is not one of [Bearer],
    [Refresh] and [Offline] up to letter case, or the token URL (the default
    one when none is given) cannot be parsed, or the client selector cannot
    be built, or the registration of a metric fails with an error; otherwise
    [Build] returns a wrapper, provided that the registration of metrics,
    when a subsystem is named, has a registerer to go to and finds
    collectors of the expected kind. *)
Theorem Build_fails_iff (E : Collaborators) (b : TransportWrapperBuilder) :
  ((exists err, Build E b = BuildFailed err) <-> buildFailure E b)
  /\ (~ buildFailure E b -> registrationSound b ->
      exists w, Build E b = Built w).
Proof.
  unfold Build. cbv zeta.
  change (if nonempty (b_tokenURL b) then b_tokenURL b else DefaultTokenURL)
    with (effectiveTokenURL b).
  destruct (b_logger b) as [lg |] eqn:Hlog;
    [| apply Build_branch_failed; by left].
  destruct (negb (0 <? length (b_tokens b))%nat && _ && _) eqn:Hcred.
  { apply Build_branch_failed. right; left. by apply noCredentialSource_iff. }
  assert (Hcred' : ~ noCredentialSource b).
  { intros Hc. apply noCredentialSource_iff in Hc. congruence. }
  pose proof (parseTokens_fails_iff E (b_tokens b) 0 None None) as Htokens.
  destruct (parseTokens E 0 (b_tokens b) None None) as [[a r] | e].
  2: { apply Build_branch_failed. do 2 right; left.
       apply Htokens. by eexists. }
  assert (Hacc : ~ exists text, In text (b_tokens b) /\ rejectedToken E text).
  { intros Hrej. apply Htokens in Hrej as [? ?]. done. }
  destruct (ParseServerAddress E (effectiveTokenURL b)) as [server | e] eqn:Hurl.
  2: { apply Build_branch_failed. do 3 right; left. by eexists. }
  destruct (NewClientSelector_Build E (b_trustedCAs b) (b_insecure b))
    as [e |] eqn:Hsel.
  { apply Build_branch_failed. do 4 right; left. by eexists. }
  assert (Hrest : buildFailure E b -> registrationFails b).
  { intros [? | [? | [? | [[? ?] | [[? ?] | ?]]]]]; congruence || done. }
  destruct (nonempty (b_metricsSubsystem b)) eqn:Hsub.
  - apply nonempty_true in Hsub.
    destruct (register (b_metricsRegisterer b) (CounterVec _ _) isCounterVec)
      as [c | e |] eqn:Hcount.
    + destruct (register (b_metricsRegisterer b) (HistogramVec _ _)
                  isHistogramVec) as [h | e |] eqn:Hduration.
      * apply Build_branch_built. intros HD.
        destruct (Hrest HD) as [_ [e [? | [_ ?]]]]; congruence.
      * apply Build_branch_failed. do 5 right. split; [done |].
        exists e. right. split; [by eexists | done].
      * apply Build_branch_panic.
        -- intros HD. destruct (Hrest HD) as [_ [e [? | [_ ?]]]]; congruence.
        -- intros [? | [_ ?]]; congruence.
    + apply Build_branch_failed. do 5 right. split; [done |].
      exists e. by left.
    + apply Build_branch_panic.
      * intros HD. destruct (Hrest HD) as [_ [e [? | [[? ?] _]]]]; congruence.
      * intros [? | [? _]]; congruence.
  - apply nonempty_false in Hsub.
    apply Build_branch_built. intros HD.
    destruct (Hrest HD) as [? _]. congruence.
Qed.

(** A logger, a user name and a password are enough for [Build]. *)
Lemma Build_fails_iff_witness :
  exists w, Build (collaboratorsWith healthyEndpoint) passwordBuilder = Built w.
Proof.
  destruct (Build_fails_iff (collaboratorsWith healthyEndpoint) passwordBuilder)
    as [Hiff Hbuilt].
  apply Hbuilt.
  - intros Hfail. apply Hiff in Hfail as [err Herr].
    vm_compute in Herr. discriminate.
  - by left.
Defined.

(** C7, as stated, fails for a builder with a logger, a user name, a
    password and a metrics subsystem whose registerer answers with an error
    other than [AlreadyRegisteredError]: [Build] returns that error although
    the logger, the credentials and the token URL are in order and there is
    no token. It also fails on the letter case of [typ]: the token with
    claims [{"typ":"bearer"}] is accepted and becomes the access token. *)
Lemma Build_conflicting_counterexample :
  (exists err, Build (collaboratorsWith healthyEndpoint) conflictingBuilder
               = BuildFailed err)
  /\ b_logger conflictingBuilder = Some sampleLogger
  /\ ~ noCredentialSource conflictingBuilder
  /\ b_tokens conflictingBuilder = []
  /\ ParseServerAddress (collaboratorsWith healthyEndpoint)
       (effectiveTokenURL conflictingBuilder)
     = Ok (serverAddress DefaultTokenURL)
  /\ (exists w, Build (collaboratorsWith healthyEndpoint)
                  (tokensBuilder [bearerLowerText]) = Built w
                /\ accessToken w = Some (tokenOf bearerLowerText))
  /\ tokenTyp (tokenOf bearerLowerText) = Some (VString "bearer")
  /\ ~ stated_build_failure.
Proof.
  assert (Hcred : ~ noCredentialSource conflictingBuilder).
  { intros (_ & [Hu | Hp] & _); discriminate. }
  split; [eexists; vm_compute; reflexivity |].
  split; [reflexivity |]. split; [exact Hcred |].
  split; [reflexivity |]. split; [reflexivity |].
  split; [eexists; split; vm_compute; reflexivity |].
  split; [vm_compute; reflexivity |].
  intros H.
  destruct (H (collaboratorsWith healthyEndpoint) conflictingBuilder)
    as [[Hfails _] _].
  destruct Hfails as [Hl | [Hc | [(text & [] & _) | [e He]]]].
  - eexists; vm_compute; reflexivity.
  - discriminate.
  - by apply Hcred.
  - vm_compute in He. discriminate.
Qed.

(** C9, as amended: after a successful [Build], a token given to the
    builder with [typ] [Offline] is never the access token of the wrapper,
    and it is the refresh token when no token after it in the list has the
    type of a refresh token ([Refresh] or [Offline], up to letter case); a
    token with [typ] [Bearer] is never the refresh token, and it is the
    access token when no token after it has the type [Bearer]. *)
Theorem Build_token_classes (E : Collaborators) (b : TransportWrapperBuilder)
    (w : TransportWrapper) (before after : list string) (text : string)
    (token : Token) :
  Build E b = Built w ->
  b_tokens b = before ++ text :: after ->
  ParseUnverified E text = Ok token ->
  (tokenTyp token = Some (VString "Offline") ->
   accessToken w <> Some token
   /\ ((forall t tok typ, In t after -> ParseUnverified E t = Ok tok ->
          tokenTyp tok = Some (VString typ) -> refreshTyp typ = false) ->
       refreshToken w = Some token))
  /\ (tokenTyp token = Some (VString "Bearer") ->
      refreshToken w <> Some token
      /\ ((forall t tok typ, In t after -> ParseUnverified E t = Ok tok ->
             tokenTyp tok = Some (VString typ) -> accessTyp typ = false) ->
          accessToken w = Some token)).
Proof.
  intros Hbuild Hlist Hparse.
  apply Build_tokens in Hbuild. rewrite Hlist in Hbuild.
  pose proof (parseTokens_origin E _ _ _ _ _ _ Hbuild) as [Horigin_a Horigin_r].
  apply parseTokens_app in Hbuild as (a1 & r1 & Hrest).
  destruct (parseTokens_step E (0 + length before) text after a1 r1)
    as [[_ [e Herr]] | (token' & typ & Hparse' & Htyp' & Hstep)];
    [congruence |].
  assert (token' = token) by congruence. subst token'.
  split; intros Htyp; rewrite Htyp in Htyp'; injection Htyp' as <-.
  - split.
    + intros Hsame.
      destruct Horigin_a as [? | (tok & typ & Heq & Htyp0 & Hacc)];
        [congruence |].
      assert (tok = token) by congruence. subst tok.
      rewrite Htyp in Htyp0. injection Htyp0 as <-. vm_compute in Hacc.
      discriminate.
    + intros Hlater.
      destruct Hstep as [[Hacc _] | (_ & _ & Heq)];
        [vm_compute in Hacc; discriminate |].
      rewrite Heq in Hrest.
      by eapply parseTokens_keeps_refresh in Hrest.
  - split.
    + intros Hsame.
      destruct Horigin_r as [? | (tok & typ & Heq & Htyp0 & Hacc & _)];
        [congruence |].
      assert (tok = token) by congruence. subst tok.
      rewrite Htyp in Htyp0. injection Htyp0 as <-. vm_compute in Hacc.
      discriminate.
    + intros Hlater.
      destruct Hstep as [[_ Heq] | (Hacc & _)];
        [| vm_compute in Hacc; discriminate].
      rewrite Heq in Hrest.
      by eapply parseTokens_keeps_access in Hrest.
Qed.

(** A [Bearer] token followed by an [Offline] token. *)
Lemma Build_token_classes_witness :
  exists w,
    Build (collaboratorsWith healthyEndpoint)
      (tokensBuilder [bearerText; offlineText]) = Built w
    /\ refreshToken w = Some (tokenOf offlineText)
    /\ accessToken w <> Some (tokenOf offlineText).
Proof.
  eexists. split; [vm_compute; reflexivity |].
  match goal with
  | |- refreshToken ?w = _ /\ _ =>
      destruct (Build_token_classes (collaboratorsWith healthyEndpoint)
                  (tokensBuilder [bearerText; offlineText]) w
                  [bearerText] [] offlineText (tokenOf offlineText))
        as [Hoffline _]
  end.
  - vm_compute; reflexivity.
  - reflexivity.
  - vm_compute; reflexivity.
  - destruct Hoffline as [Hnot Hlast]; [vm_compute; reflexivity |].
    split; [| exact Hnot]. apply Hlast. intros t tok typ [].
Defined.

(** C9, as stated, fails for the tokens with claims [{"typ":"Offline"}] and
    [{"typ":"Refresh"}] given in this order: [Build] succeeds and the
    refresh token of the wrapper is the second one, not the one with type
    [Offline]. *)
Lemma Build_two_refresh_counterexample :
  (exists w,
     Build (collaboratorsWith healthyEndpoint)
       (tokensBuilder [offlineText; refreshText]) = Built w
     /\ refreshToken w = Some (tokenOf refreshText))
  /\ tokenTyp (tokenOf offlineText) = Some (VString "Offline")
  /\ tokenOf refreshText <> tokenOf offlineText
  /\ ~ stated_token_classes.
Proof.
  split; [eexists; split; vm_compute; reflexivity |].
  split; [vm_compute; reflexivity |].
  assert (Hne : tokenOf refreshText <> tokenOf offlineText)
    by (vm_compute; discriminate).
  split; [exact Hne |].
  intros H.
  destruct (Build (collaboratorsWith healthyEndpoint)
              (tokensBuilder [offlineText; refreshText])) as [w | e |] eqn:Hb;
    [| vm_compute in Hb; discriminate | vm_compute in Hb; discriminate].
  destruct (H (collaboratorsWith healthyEndpoint)
              (tokensBuilder [offlineText; refreshText]) w
              offlineText (tokenOf offlineText)) as [Hoffline _].
  - exact Hb.
  - by left.
  - vm_compute; reflexivity.
  - destruct Hoffline as [Hstored _]; [vm_compute; reflexivity |].
    vm_compute in Hb. injection Hb as <-.
    vm_compute in Hstored. discriminate.
Qed.

(** * Further properties *)

(** ** Expiry over time *)

Lemma time_Sub_antitone (t u u' : Time) :
  u <= u' -> time_Sub t u' <= time_Sub t u.
Proof.
  intros Hle. unfold time_Sub, minDuration, maxDuration.
  repeat match goal with
         | |- context [?a <? ?b] => destruct (Z.ltb_spec a b)
         end; lia.
Qed.

Lemma time_Sub_elapsed (t u u' : Time) :
  u <= u' -> minDuration < time_Sub t u' -> time_Sub t u < maxDuration ->
  time_Sub t u - time_Sub t u' = u' - u.
Proof.
  unfold time_Sub, minDuration, maxDuration.
  repeat match goal with
         | |- context [?a <? ?b] => destruct (Z.ltb_spec a b)
         end; lia.
Qed.

(** X1: what [GetTokenExpiry] says about a token at two instants, the
    second not before the first. Whether the token expires and whether the
    claims are in order does not depend on the instant; what is left never
    grows, stays in the range of a duration, and is zero for a token that
    does not expire; and as long as neither value is at an end of the range,
    what is left of a token that expires shrinks by exactly the time that
    has passed. *)
Theorem GetTokenExpiry_over_time (token : Token) (now now' : Time)
    (expires expires' : bool) (left left' : Duration)
    (err err' : option error) :
  now <= now' ->
  GetTokenExpiry token now = (expires, left, err) ->
  GetTokenExpiry token now' = (expires', left', err') ->
  expires' = expires /\ err' = err
  /\ left' <= left
  /\ minDuration <= left' /\ left <= maxDuration
  /\ (expires = false -> left = 0 /\ left' = 0)
  /\ (is_Some err -> expires = false)
  /\ (expires = true -> minDuration < left' -> left < maxDuration ->
      left - left' = now' - now).
Proof.
  unfold GetTokenExpiry. intros Hle H H'.
  assert (Hrange : minDuration <= 0 <= maxDuration)
    by (unfold minDuration, maxDuration; lia).
  assert (Hnothing : forall e : option error,
            (false, 0, e) = (expires, left, err) ->
            (false, 0, e) = (expires', left', err') ->
            expires' = expires /\ err' = err
            /\ left' <= left
            /\ minDuration <= left' /\ left <= maxDuration
            /\ (expires = false -> left = 0 /\ left' = 0)
            /\ (is_Some err -> expires = false)
            /\ (expires = true -> minDuration < left' ->
                left < maxDuration -> left - left' = now' - now)).
  { intros e ? ?. simplify_eq. repeat split; try done; lia. }
  destruct (token_Claims token) as [m | name];
    [| eapply Hnothing; eassumption].
  cbv zeta in H, H'.
  destruct (m !! "exp") as [claim |];
    [| simpl in H, H'; eapply Hnothing; eassumption].
  destruct claim as [| b | f | s | items | fields];
    try (eapply Hnothing; eassumption).
  destruct (float64_is_zero f); [eapply Hnothing; eassumption |].
  simplify_eq.
  pose proof (time_Sub_antitone (time_Unix (float64_to_int64 f)) now now' Hle).
  pose proof (time_Sub_range (time_Unix (float64_to_int64 f)) now).
  pose proof (time_Sub_range (time_Unix (float64_to_int64 f)) now').
  repeat split; try done; try lia; intros;
    try (by apply time_Sub_elapsed);
    match goal with
    | Hsome : is_Some None |- _ => by apply is_Some_None in Hsome
    end.
Qed.

(** The token with claims [{"typ":"Bearer","exp":1000000030}], thirty and
    then twenty seconds before it expires. *)
Lemma GetTokenExpiry_over_time_witness :
  30 * Second - 20 * Second = time_Unix 1000000010 - time_Unix 1000000000.
Proof.
  destruct (GetTokenExpiry_over_time (tokenOf bearerExp1000000030Text)
              (time_Unix 1000000000) (time_Unix 1000000010)
              true true (30 * Second) (20 * Second) None None)
    as (_ & _ & _ & _ & _ & _ & _ & Helapsed).
  - vm_compute. discriminate.
  - vm_compute; reflexivity.
  - vm_compute; reflexivity.
  - apply Helapsed; vm_compute; reflexivity.
Defined.

(** ** What a call of [Tokens] leaves behind *)

Lemma kept_refl (w : TransportWrapper) : kept w w.
Proof. by left. Qed.

Lemma kept_trans (w1 w2 w3 : TransportWrapper) :
  kept w1 w2 -> kept w2 w3 -> kept w1 w3.
Proof.
  intros [-> | (a & r & ->)] [-> | (a' & r' & ->)];
    [by left | right; by eexists _, _ | right; by eexists _, _ |].
  right. by exists a', r'.
Qed.

Lemma kept_metrics (w w' : TransportWrapper) :
  kept w w' ->
  tokenCountMetric w' = tokenCountMetric w
  /\ tokenDurationMetric w' = tokenDurationMetric w
  /\ haveCredentials w' = haveCredentials w.
Proof. by intros [-> | (a & r & ->)]. Qed.

Lemma kept_configuration (w w' : TransportWrapper) :
  kept w w' ->
  logger w' = logger w /\ clientID w' = clientID w
  /\ clientSecret w' = clientSecret w /\ user w' = user w
  /\ password w' = password w /\ scopes w' = scopes w /\ agent w' = agent w
  /\ tokenURL w' = tokenURL w /\ tokenServer w' = tokenServer w
  /\ metricsSubsystem w' = metricsSubsystem w
  /\ metricsRegisterer w' = metricsRegisterer w
  /\ tokenCountMetric w' = tokenCountMetric w
  /\ tokenDurationMetric w' = tokenDurationMetric w.
Proof. by intros [-> | (a & r & ->)]. Qed.

Lemma Effects_nothing (st : World) : Effects st st [].
Proof.
  unfold Effects, counted.
  by destruct (notNil (tokenCountMetric (wrapper st))),
       (notNil (tokenDurationMetric (wrapper st))).
Qed.

Lemma counted_app (metric : option Collector)
    (t2 t1 : list (Z * (Request * Exchange))) :
  counted metric (t2 ++ t1) = counted metric t2 ++ counted metric t1.
Proof. unfold counted. destruct (notNil metric); [apply map_app | done]. Qed.

Lemma Effects_then (st st1 st2 : World)
    (t1 t2 : list (Z * (Request * Exchange))) :
  Effects st st1 t1 -> kept (wrapper st) (wrapper st1) ->
  Effects st1 st2 t2 -> Effects st st2 (t2 ++ t1).
Proof.
  intros (Hx1 & Hc1 & Hd1) Hkept (Hx2 & Hc2 & Hd2).
  apply kept_metrics in Hkept as (Hmc & Hmd & _).
  unfold Effects. rewrite Hx2, Hc2, Hd2, Hx1, Hc1, Hd1, Hmc, Hmd.
  rewrite !counted_app, map_app, <- !app_assoc. done.
Qed.

Section Effects.

Context (E : Collaborators).

Lemma sendTokenFormTimed_kept form st code result err st' :
  sendTokenFormTimed E form st = (code, result, err, st') ->
  match err with
  | Some _ => wrapper st' = wrapper st
  | None => exists a r, wrapper st' = saveTokens (wrapper st) a r
  end.
Proof.
  unfold sendTokenFormTimed. intros H.
  repeat case_match; simplify_eq; try done; by eexists _, _.
Qed.

Lemma sendTokenForm_effects form attempt st code result err st' :
  sendTokenForm E form attempt st = (code, result, err, st') ->
  Effects st st'
    [(attempt, (tokenRequest (wrapper st) form,
                Do E (exchanges st) (tokenRequest (wrapper st) form)))]
  /\ match err with
     | Some _ => wrapper st' = wrapper st
     | None => exists a r, wrapper st' = saveTokens (wrapper st) a r
     end.
Proof.
  unfold sendTokenForm. intros H.
  destruct (sendTokenFormTimed E form st) as [[[code0 result0] err0] st0] eqn:Ht.
  pose proof (sendTokenFormTimed_trace _ _ _ _ _ _ _ Ht) as (Hx & Hc & Hcount & Hdur).
  pose proof (sendTokenFormTimed_kept _ _ _ _ _ _ Ht) as Hkept.
  assert (Hk : kept (wrapper st) (wrapper st0)).
  { destruct err0; [left | right]; done. }
  apply kept_metrics in Hk as (Hmc & Hmd & _).
  unfold Effects, counted. rewrite <- Hmc, <- Hmd.
  destruct (notNil (tokenCountMetric (wrapper st0))),
    (notNil (tokenDurationMetric (wrapper st0)));
    simpl in H; simplify_eq; simpl; rewrite ?Hx, ?Hcount, ?Hdur; done.
Qed.

Lemma granted_one form attempt st code result err st' :
  sendTokenForm E form attempt st = (code, result, err, st') ->
  granted attempt 1 st st' err.
Proof.
  intros H. apply sendTokenForm_effects in H as [Heff Hw].
  by exists [(tokenRequest (wrapper st) form,
              Do E (exchanges st) (tokenRequest (wrapper st) form))].
Qed.

Lemma granted_nothing attempt bound st e : granted attempt bound st st (Some e).
Proof.
  exists []. split; [simpl; lia |]. split; [apply Effects_nothing | done].
Qed.

Lemma granted_more attempt n m st st' err :
  (n <= m)%nat -> granted attempt n st st' err -> granted attempt m st st' err.
Proof. intros Hle (new & Hlen & H). exists new. split; [lia | done]. Qed.

Lemma sendRequestTokenForm_granted attempt st code result err st' :
  sendRequestTokenForm E attempt st = (code, result, err, st') ->
  granted attempt 1 st st' err.
Proof.
  unfold sendRequestTokenForm. intros H.
  repeat case_match; simplify_eq;
    try (by eapply granted_one); apply granted_nothing.
Qed.

Lemma sendRefreshTokenForm_granted attempt st code result err st' :
  sendRefreshTokenForm E attempt st = (code, result, err, st') ->
  granted attempt 2 st st' err.
Proof.
  unfold sendRefreshTokenForm. intros H.
  destruct (refreshToken (wrapper st)) as [token |];
    [| simplify_eq; apply granted_nothing].
  destruct (sendTokenForm E (refreshForm (wrapper st) (Raw token)) attempt st)
    as [[[code1 result1] err1] st1] eqn:H1.
  apply granted_one in H1.
  assert (Hdirect : (code1, result1, err1, st1) = (code, result, err, st') ->
                    granted attempt 2 st st' err).
  { intros ?; simplify_eq. eapply granted_more; [| done]. lia. }
  destruct err1 as [e1 |]; [| by apply Hdirect; destruct result1].
  destruct result1 as [r1 |]; [| by apply Hdirect].
  case_match; [| by apply Hdirect].
  apply sendRequestTokenForm_granted in H.
  destruct H1 as (new1 & Hlen1 & Heff1 & Hw1).
  destruct H as (new2 & Hlen2 & Heff2 & Hw2).
  exists (new2 ++ new1). split; [rewrite length_app; lia |].
  split.
  - rewrite map_app. eapply Effects_then; [done | | done].
    left. done.
  - rewrite Hw1 in Hw2. done.
Qed.

Lemma tokens_effects now attempt expiresIn st code access refresh err st' :
  tokens E now attempt expiresIn st = (code, access, refresh, err, st') ->
  exists new,
    (length new <= 2)%nat
    /\ Effects st st' (map (pair attempt) new)
    /\ kept (wrapper st) (wrapper st')
    /\ (is_Some err ->
        wrapper st' = wrapper st /\ access = "" /\ refresh = "")
    /\ (err = None ->
        (access, refresh) = currentTokens (wrapper st')
        /\ is_Some (accessToken (wrapper st'))).
Proof.
  assert (Hgrant : forall r,
    (forall code0 result0 err0 st0,
       r = (code0, result0, err0, st0) -> granted attempt 2 st st0 err0) ->
    afterGrant r = (code, access, refresh, err, st') ->
    exists new,
      (length new <= 2)%nat
      /\ Effects st st' (map (pair attempt) new)
      /\ kept (wrapper st) (wrapper st')
      /\ (is_Some err ->
          wrapper st' = wrapper st /\ access = "" /\ refresh = "")
      /\ (err = None ->
          (access, refresh) = currentTokens (wrapper st')
          /\ is_Some (accessToken (wrapper st')))).
  { intros [[[code0 result0] err0] st0] Hgranted Hafter.
    destruct (Hgranted _ _ _ _ eq_refl) as (new & Hlen & Heff & Hw).
    simpl in *. exists new. split; [done |].
    destruct err0 as [e |]; simpl in Hafter.
    - simplify_eq. split; [done |]. split; [by left |].
      split; [done |]. done.
    - destruct (currentTokens (wrapper st0)) as [a r] eqn:Hcur.
      simplify_eq. split; [done |]. split; [by right |].
      split; [by intros ?%is_Some_None |]. intros _. split; [done |].
      destruct Hw as (ta & tr & ->). by eexists. }
  assert (Hfailed : forall e,
    (0, "", "", Some e, st) = (code, access, refresh, err, st') ->
    exists new : list (Request * Exchange),
      (length new <= 2)%nat
      /\ Effects st st' (map (pair attempt) new)
      /\ kept (wrapper st) (wrapper st')
      /\ (is_Some err ->
          wrapper st' = wrapper st /\ access = "" /\ refresh = "")
      /\ (err = None ->
          (access, refresh) = currentTokens (wrapper st')
          /\ is_Some (accessToken (wrapper st')))).
  { intros e ?. simplify_eq. exists []. split; [simpl; lia |].
    split; [apply Effects_nothing |]. split; [by left |]. done. }
  unfold tokens. intros H.
  destruct (accessToken (wrapper st)) as [at_ |] eqn:Hat;
    [destruct (GetTokenExpiry at_ now) as [[ae al] aerr] |];
    (destruct (refreshToken (wrapper st)) as [rt |] eqn:Hrt;
     [destruct (GetTokenExpiry rt now) as [[re rl] rerr] |]);
    simpl in H;
    try destruct aerr; try destruct rerr;
    try (by eapply Hfailed);
    repeat case_match; simplify_eq;
    try (by eapply Hfailed);
    try (eapply Hgrant; [| eassumption]; intros ? ? ? ? Hr;
         first [ by eapply sendRefreshTokenForm_granted
               | eapply granted_more;
                 [| by eapply sendRequestTokenForm_granted]; lia ]);
    try (exists []; split; [simpl; lia |];
         split; [apply Effects_nothing |]; split; [by left |];
         split; [by intros ?%is_Some_None |]; intros _;
         split; [| by eexists];
         unfold currentTokens;
         repeat match goal with
                | Hx : _ (wrapper _) = _ |- _ => rewrite Hx; clear Hx
                end;
         done).
Qed.

End Effects.

Lemma backoff_Retry_runs {S : Type} (op : S -> option BackoffError * S)
    (retries : nat) (s s' : S) :
  backoff_Retry op retries s = s' ->
  exists n mid r,
    (n <= retries)%nat
    /\ failedRuns op n s mid
    /\ op mid = (r, s')
    /\ (r = None \/ (exists e, r = Some (Permanent e))
        \/ (n = retries /\ exists e, r = Some (Transient e))).
Proof.
  revert s. induction retries as [| retries IH]; intros s H.
  - simpl in H. destruct (op s) as [r s1] eqn:Hop.
    exists 0%nat, s, r.
    assert (s1 = s') by (destruct r as [[e | e] |]; done). subst s1.
    split; [lia |]. split; [done |]. split; [done |].
    destruct r as [[e | e] |]; [| right; left; by eexists | by left].
    right; right. split; [done | by eexists].
  - simpl in H. destruct (op s) as [r s1] eqn:Hop.
    destruct r as [[e | e] |].
    + apply IH in H as (n & mid & r & Hle & Hruns & Hlast & Hr).
      exists (Datatypes.S n), mid, r. split; [lia |].
      split; [simpl; by exists e, s1 |]. split; [done |].
      destruct Hr as [? | [? | [-> ?]]]; [by left | right; by left |].
      right; right. done.
    + subst s1. exists 0%nat, s, (Some (Permanent e)).
      split; [lia |]. split; [done |]. split; [done |].
      right; left. by eexists.
    + subst s1. exists 0%nat, s, None.
      split; [lia |]. split; [done |]. split; [done |]. by left.
Qed.

Lemma failedRuns_effects (E : Collaborators) (clock : Z -> Time)
    (window : Duration) (n : nat) (c cm : Captured) (st stm : World) :
  failedRuns (operation E clock window) n (c, st) (cm, stm) ->
  c_attempt cm = c_attempt c + Z.of_nat n
  /\ wrapper stm = wrapper st
  /\ exists tagged,
       (length tagged <= 2 * n)%nat
       /\ Effects st stm tagged
       /\ Forall (fun t => c_attempt c < fst t <= c_attempt c + Z.of_nat n)
            tagged.
Proof.
  revert c st. induction n as [| n IH]; intros c st H.
  - simpl in H. simplify_eq. split; [lia |]. split; [done |].
    exists []. split; [simpl; lia |]. split; [apply Effects_nothing | done].
  - simpl in H. destruct H as (e & [c1 st1] & Hop & Hruns).
    apply operation_inv in Hop as (code & Htokens & Hattempt & Hr).
    assert (Hfail : is_Some (c_err c1)).
    { destruct (c_err c1); [by eexists | done]. }
    apply tokens_effects in Htokens
      as (new & Hlen & Heff & _ & Hfailure & _).
    destruct (Hfailure Hfail) as (Hw & _).
    apply IH in Hruns as (Hattempts & Hwm & tagged & Hlen' & Heff' & Htags).
    split; [lia |]. split; [congruence |].
    exists (tagged ++ map (pair (c_attempt c + 1)) new).
    split; [rewrite length_app, length_map; lia |].
    split; [eapply Effects_then; [done | by left; done | done] |].
    apply Forall_app. split.
    + eapply Forall_impl; [exact Htags |]. simpl. intros t Ht. lia.
    + apply Forall_forall. intros t Hin.
      apply list_elem_of_fmap in Hin as (p & -> & _). simpl. lia.
Qed.

Lemma Tokens_effects (E : Collaborators) (clock : Z -> Time) (retries : nat)
    (expiresIn : list Duration) (st st' : World) (access refresh : string)
    (err : option error) :
  Tokens E clock retries expiresIn st = (access, refresh, err, st') ->
  exists tagged,
    (length tagged <= 2 * (retries + 1))%nat
    /\ Effects st st' tagged
    /\ Forall (fun t => 1 <= fst t <= Z.of_nat retries + 1) tagged
    /\ kept (wrapper st) (wrapper st')
    /\ (is_Some err ->
        wrapper st' = wrapper st /\ access = "" /\ refresh = "")
    /\ (err = None ->
        (access, refresh) = currentTokens (wrapper st')
        /\ is_Some (accessToken (wrapper st'))).
Proof.
  unfold Tokens. intros H.
  destruct (backoff_Retry _ retries (beforeFirstAttempt, st)) as [c' st1] eqn:Hretry.
  simplify_eq.
  apply backoff_Retry_runs in Hretry
    as (n & [cm stm] & r & Hle & Hruns & Hlast & _).
  apply failedRuns_effects in Hruns
    as (Hattempts & Hwm & tagged & Hlen & Heff & Htags).
  apply operation_inv in Hlast as (code & Htokens & _ & _).
  apply tokens_effects in Htokens
    as (new & Hlen' & Heff' & Hkept & Hfailure & Hsuccess).
  simpl in Hattempts.
  exists (map (pair (c_attempt cm + 1)) new ++ tagged).
  split; [rewrite length_app, length_map; lia |].
  split; [eapply Effects_then; [done | left; done | done] |].
  split.
  { apply Forall_app. split.
    - apply Forall_forall. intros t Hin.
      apply list_elem_of_fmap in Hin as (p & -> & _). simpl. lia.
    - eapply Forall_impl; [exact Htags |]. simpl. intros t Ht. lia. }
  rewrite Hwm in Hkept, Hfailure. done.
Qed.

Lemma newExchanges_app (st st' : World) (new : list (Request * Exchange)) :
  exchanges st' = new ++ exchanges st -> newExchanges st st' = new.
Proof.
  intros H. unfold newExchanges. rewrite H, length_app.
  replace (length new + length (exchanges st) - length (exchanges st))%nat
    with (length new) by lia.
  by rewrite take_app_length.
Qed.

(** X2: a call of [Tokens] that returns an error returns two empty texts
    and leaves the wrapper exactly as it was, however many attempts and
    grants it made. *)
Theorem Tokens_failure_leaves_wrapper (E : Collaborators) (clock : Z -> Time)
    (retries : nat) (expiresIn : list Duration) (st st' : World)
    (access refresh : string) (err : option error) :
  Tokens E clock retries expiresIn st = (access, refresh, err, st') ->
  is_Some err ->
  wrapper st' = wrapper st /\ access = "" /\ refresh = "".
Proof.
  intros H Herr.
  apply Tokens_effects in H as (tagged & _ & _ & _ & _ & Hfailure & _).
  by apply Hfailure.
Qed.

Lemma Tokens_failure_leaves_wrapper_witness :
  wrapper (snd unreachableCall) = wrapper passwordWorld.
Proof.
  destruct (Tokens_failure_leaves_wrapper (collaboratorsWith unreachable)
              stoppedClock 5 [] passwordWorld (snd unreachableCall)
              (fst (fst (fst unreachableCall)))
              (snd (fst (fst unreachableCall))) (snd (fst unreachableCall)))
    as (Hsame & _).
  - vm_compute; reflexivity.
  - vm_compute. by eexists.
  - exact Hsame.
Defined.

(** X3: a call of [Tokens] that returns no error returns the texts of the
    tokens that the wrapper holds afterwards, and an access token is then
    held. The wrapper is as before or holds a new pair, both tokens saved
    together; the credentials, the scopes, the token URL and the metrics of
    the wrapper are never touched. *)
Theorem Tokens_success_returns_stored (E : Collaborators)
    (clock : Z -> Time) (retries : nat) (expiresIn : list Duration)
    (st st' : World) (access refresh : string) :
  Tokens E clock retries expiresIn st = (access, refresh, None, st') ->
  (exists token, accessToken (wrapper st') = Some token /\ access = Raw token)
  /\ refresh = match refreshToken (wrapper st') with
               | Some token => Raw token
               | None => ""
               end
  /\ (wrapper st' = wrapper st
      \/ exists a r, wrapper st' = saveTokens (wrapper st) a r)
  /\ Client (wrapper st') = Client (wrapper st)
  /\ User (wrapper st') = User (wrapper st)
  /\ Scopes (wrapper st') = Scopes (wrapper st)
  /\ TokenURL (wrapper st') = TokenURL (wrapper st)
  /\ tokenCountMetric (wrapper st') = tokenCountMetric (wrapper st)
  /\ tokenDurationMetric (wrapper st') = tokenDurationMetric (wrapper st).
Proof.
  intros H.
  apply Tokens_effects in H as (tagged & _ & _ & _ & Hkept & _ & Hsuccess).
  destruct (Hsuccess eq_refl) as [Hcur [token Htoken]].
  unfold currentTokens in Hcur. rewrite Htoken in Hcur.
  injection Hcur as -> ->.
  split; [by exists token |]. split; [done |]. split; [exact Hkept |].
  apply kept_configuration in Hkept
    as (_ & Hid & Hsecret & Huser & Hpassword & Hscopes & _ & Hurl & _ & _ & _
        & Hcount & Hduration).
  unfold Client, User, Scopes, TokenURL.
  rewrite Hid, Hsecret, Huser, Hpassword, Hscopes, Hurl. done.
Qed.

Lemma Tokens_success_returns_stored_witness :
  exists token,
    accessToken (wrapper (snd restartedCall)) = Some token
    /\ fst (fst (fst restartedCall)) = Raw token.
Proof.
  destruct (Tokens_success_returns_stored (collaboratorsWith restartedEndpoint)
              stoppedClock 1 [] secretWorld (snd restartedCall)
              (fst (fst (fst restartedCall)))
              (snd (fst (fst restartedCall))))
    as (Hstored & _).
  - vm_compute; reflexivity.
  - exact Hstored.
Defined.

(** X4: a call of [Tokens] adds its exchanges in front of the ones that
    took place before, which it keeps, and it makes at most two exchanges
    for each attempt: at most twice the number of retries plus one. *)
Theorem Tokens_exchanges_bounded (E : Collaborators) (clock : Z -> Time)
    (retries : nat) (expiresIn : list Duration) (st st' : World)
    (access refresh : string) (err : option error) :
  Tokens E clock retries expiresIn st = (access, refresh, err, st') ->
  exchanges st' = newExchanges st st' ++ exchanges st
  /\ (length (newExchanges st st') <= 2 * (retries + 1))%nat.
Proof.
  intros H.
  apply Tokens_effects in H as (tagged & Hlen & (Hx & _) & _).
  rewrite (newExchanges_app _ _ _ Hx). split; [done |].
  by rewrite length_map.
Qed.

Lemma Tokens_exchanges_bounded_witness :
  (length (newExchanges secretWorld (snd restartedCall)) <= 4)%nat.
Proof.
  destruct (Tokens_exchanges_bounded (collaboratorsWith restartedEndpoint)
              stoppedClock 1 [] secretWorld (snd restartedCall)
              (fst (fst (fst restartedCall)))
              (snd (fst (fst restartedCall))) (snd (fst restartedCall)))
    as (_ & Hbound).
  - vm_compute; reflexivity.
  - exact Hbound.
Defined.

Lemma tokens_observed (E : Collaborators) now attempt window st code access
    refresh err st' :
  tokens E now attempt window st = (code, access, refresh, err, st') ->
  attemptObserved (tokenCountMetric (wrapper st))
    (tokenDurationMetric (wrapper st)) attempt st st'.
Proof.
  intros H.
  apply tokens_effects in H as (new & _ & (Hx & Hc & Hd) & _).
  assert (Hnew : map snd (map (pair attempt) new) = new).
  { rewrite map_map. cbn. apply map_id. }
  rewrite Hnew in Hx.
  assert (Hlabels : forall metric,
            counted metric (map (pair attempt) new)
            = if notNil metric then attemptLabels attempt new else []).
  { intros metric. unfold counted, attemptLabels.
    destruct (notNil metric); [| done]. by rewrite map_map. }
  rewrite Hlabels in Hc, Hd.
  unfold attemptObserved. by rewrite (newExchanges_app _ _ _ Hx).
Qed.

Lemma attemptsObserved_snoc (E : Collaborators) (clock : Z -> Time)
    (window : Duration) (count duration : option Collector) (n : nat) :
  forall (attempt : Z) (st mid st' : World) code access refresh err,
    attemptsObserved E clock window count duration attempt n st mid ->
    tokens E (clock (attempt + Z.of_nat n)) (attempt + Z.of_nat n) window mid
    = (code, access, refresh, err, st') ->
    attemptObserved count duration (attempt + Z.of_nat n) mid st' ->
    attemptsObserved E clock window count duration attempt (S n) st st'.
Proof.
  induction n as [| n IH];
    intros attempt st mid st' code access refresh err Hruns Htokens Hobserved.
  - cbn in Hruns. subst mid.
    replace (attempt + Z.of_nat 0) with attempt in * by lia.
    cbn. by eexists code, access, refresh, err, st'.
  - destruct Hruns as (code1 & a1 & r1 & e1 & st1 & Hfirst & Hobs1 & Hrest).
    replace (attempt + Z.of_nat (S n)) with (attempt + 1 + Z.of_nat n) in *
      by lia.
    exists code1, a1, r1, e1, st1. split; [done |]. split; [done |].
    by eapply IH.
Qed.

Lemma failedRuns_observed (E : Collaborators) (clock : Z -> Time)
    (window : Duration) (n : nat) :
  forall (c cm : Captured) (st stm : World),
    failedRuns (operation E clock window) n (c, st) (cm, stm) ->
    attemptsObserved E clock window (tokenCountMetric (wrapper st))
      (tokenDurationMetric (wrapper st)) (c_attempt c + 1) n st stm
    /\ wrapper stm = wrapper st
    /\ c_attempt cm = c_attempt c + Z.of_nat n.
Proof.
  induction n as [| n IH]; intros c cm st stm H.
  - cbn in H. simplify_eq. split; [done |]. split; [done | lia].
  - destruct H as (e & [c1 st1] & Hop & Hruns).
    apply operation_inv in Hop as (code & Htokens & Hattempt & Hr).
    assert (Hfail : is_Some (c_err c1)).
    { destruct (c_err c1); [by eexists | done]. }
    pose proof (tokens_observed _ _ _ _ _ _ _ _ _ _ Htokens) as Hobserved.
    apply tokens_effects in Htokens as Heffects.
    destruct Heffects as (new & _ & _ & _ & Hfailure & _).
    destruct (Hfailure Hfail) as (Hw & _).
    apply IH in Hruns as (Hrest & Hwm & Hcount).
    rewrite Hw, Hattempt in Hrest.
    split; [| split; [congruence | lia]].
    cbn. by eexists code, _, _, _, st1.
Qed.

(** X5: a call of [Tokens] is a row of attempts numbered from one, at most
    one more than the retries that are granted, and each attempt is a run
    of [tokens]. A metric that is registered receives exactly one
    observation for each exchange of each attempt, in the same order,
    labelled with the number of the attempt that made the exchange and with
    the status code of the exchange, zero when there was no response; a
    metric that is not registered receives nothing. *)
Theorem Tokens_metrics (E : Collaborators) (clock : Z -> Time)
    (retries : nat) (expiresIn : list Duration) (st st' : World)
    (access refresh : string) (err : option error) :
  Tokens E clock retries expiresIn st = (access, refresh, err, st') ->
  exists n : nat,
    (1 <= n <= retries + 1)%nat
    /\ attemptsObserved E clock (freshnessWindow expiresIn)
         (tokenCountMetric (wrapper st)) (tokenDurationMetric (wrapper st))
         1 n st st'.
Proof.
  unfold Tokens. intros H.
  destruct (backoff_Retry _ retries (beforeFirstAttempt, st))
    as [c' st1] eqn:Hretry.
  simplify_eq.
  apply backoff_Retry_runs in Hretry
    as (n & [cm stm] & r & Hle & Hruns & Hlast & _).
  apply failedRuns_observed in Hruns as (Hrest & Hwm & Hcount).
  apply operation_inv in Hlast as (code & Htokens & _ & _).
  pose proof (tokens_observed _ _ _ _ _ _ _ _ _ _ Htokens) as Hobserved.
  rewrite Hwm in Hobserved. cbn [c_attempt beforeFirstAttempt] in *.
  change (0 + 1) with 1 in Hrest.
  replace (c_attempt cm + 1) with (1 + Z.of_nat n) in * by lia.
  exists (S n). split; [lia |].
  by eapply attemptsObserved_snoc.
Qed.

Lemma Tokens_metrics_witness :
  tokenCount (snd meteredCall)
  = [("2", "200"); ("2", "400"); ("1", "503"); ("1", "400")].
Proof.
  destruct (Tokens_metrics (collaboratorsWith restartedEndpoint)
              stoppedClock 1 [] meteredWorld (snd meteredCall)
              (fst (fst (fst meteredCall)))
              (snd (fst (fst meteredCall))) (snd (fst meteredCall)))
    as (n & _ & _).
  - vm_compute; reflexivity.
  - vm_compute; reflexivity.
Defined.

(** ** What [Build] makes *)

Lemma Build_inv (E : Collaborators) (b : TransportWrapperBuilder)
    (w : TransportWrapper) :
  Build E b = Built w ->
  exists lg server,
    b_logger b = Some lg
    /\ ParseServerAddress E (effectiveTokenURL b) = Ok server
    /\ negb (0 <? length (b_tokens b))%nat
       && negb (nonempty (b_user b) && nonempty (b_password b))
       && negb (nonempty (b_clientID b) && nonempty (b_clientSecret b)) = false
    /\ logger w = lg
    /\ clientID w
       = (if nonempty (b_clientID b) then b_clientID b else DefaultClientID)
    /\ clientSecret w = b_clientSecret b
    /\ user w = b_user b
    /\ password w = b_password b
    /\ scopes w
       = (if (length (b_scopes b) =? 0)%nat then DefaultScopes else b_scopes b)
    /\ agent w = b_agent b
    /\ tokenURL w = effectiveTokenURL b
    /\ tokenServer w = server.
Proof.
  unfold Build, effectiveTokenURL. intros H.
  destruct (b_logger b) as [lg |]; [| done].
  destruct (negb (0 <? length (b_tokens b))%nat && _ && _) eqn:Hnone; [done |].
  destruct (parseTokens E 0 (b_tokens b) None None) as [[a r] |]; [| done].
  destruct (ParseServerAddress E _) as [server |] eqn:Hserver; [| done].
  destruct (NewClientSelector_Build E _ _); [done |].
  assert (Hsecret : (if nonempty (b_clientSecret b) then b_clientSecret b
                     else DefaultClientSecret) = b_clientSecret b).
  { destruct (nonempty (b_clientSecret b)) eqn:Hs; [done |].
    apply nonempty_false in Hs. by rewrite Hs. }
  exists lg, server.
  repeat case_match; simplify_eq; cbn; rewrite ?Hsecret; done.
Qed.

Lemma parseTokens_some (E : Collaborators) (texts : list string) (i : nat)
    (a r a' r' : option Token) :
  parseTokens E i texts a r = Ok (a', r') ->
  (is_Some a -> is_Some a')
  /\ (is_Some r -> is_Some r')
  /\ (texts <> [] -> is_Some a' \/ is_Some r').
Proof.
  revert i a r. induction texts as [| text rest IH]; intros i a r H.
  - cbn in H. by simplify_eq.
  - cbn in H. repeat case_match; try done;
      apply IH in H as (Ha & Hr & _);
      (split; [| split]); intros; auto.
Qed.

(** X6: the wrapper that [Build] returns never has an empty client
    identifier, an empty token URL or an empty list of scopes: each is the one
    of the builder, or the default when the builder has none. The client
    secret, the user name and the password are those of the builder, and the
    token server is what the token URL parses to. *)
Theorem Build_defaults (E : Collaborators) (b : TransportWrapperBuilder)
    (w : TransportWrapper) :
  Build E b = Built w ->
  Client w = (if nonempty (b_clientID b) then b_clientID b else "cloud-services",
              b_clientSecret b)
  /\ fst (Client w) <> ""
  /\ User w = (b_user b, b_password b)
  /\ TokenURL w
     = (if nonempty (b_tokenURL b) then b_tokenURL b else DefaultTokenURL)
  /\ TokenURL w <> ""
  /\ Scopes w = match b_scopes b with [] => ["openid"] | _ => b_scopes b end
  /\ Scopes w <> []
  /\ ParseServerAddress E (TokenURL w) = Ok (tokenServer w).
Proof.
  intros H.
  apply Build_inv in H
    as (lg & server & _ & Hserver & _ & _ & Hid & Hsecret & Huser & Hpassword
        & Hscopes & _ & Hurl & Htoken).
  unfold Client, User, TokenURL, Scopes.
  rewrite Hid, Hsecret, Huser, Hpassword, Hscopes, Hurl, Htoken.
  unfold effectiveTokenURL in *.
  repeat split; try done.
  - cbn. destruct (nonempty (b_clientID b)) eqn:Hc; [by apply nonempty_true |].
    done.
  - destruct (nonempty (b_tokenURL b)) eqn:Hc; [by apply nonempty_true |].
    done.
  - by destruct (b_scopes b).
  - by destruct (b_scopes b).
Qed.

Lemma Build_defaults_witness :
  exists w,
    Build (collaboratorsWith healthyEndpoint) chainedBuilder = Built w
    /\ Client w = ("cloud-services", "")
    /\ Scopes w = ["openid"].
Proof.
  eexists. split; [vm_compute; reflexivity |].
  destruct (Build_defaults (collaboratorsWith healthyEndpoint) chainedBuilder
              (sampleWrapper "user" "password" "" None None))
    as (Hclient & _ & _ & _ & _ & Hscopes & _).
  - vm_compute; reflexivity.
  - split; [exact Hclient | exact Hscopes].
Defined.

(** X7: the wrapper that [Build] returns has a token or credentials to ask
    for tokens with. It holds tokens only when the builder was given some.
    It has credentials exactly when the builder has a user name with a
    password, or a client secret: the client secret of a builder without
    client identifier goes with the default identifier. *)
Theorem Build_means (E : Collaborators) (b : TransportWrapperBuilder)
    (w : TransportWrapper) :
  Build E b = Built w ->
  (is_Some (accessToken w) \/ is_Some (refreshToken w)
   \/ haveCredentials w = true)
  /\ (b_tokens b = [] -> accessToken w = None /\ refreshToken w = None)
  /\ (b_tokens b <> [] -> is_Some (accessToken w) \/ is_Some (refreshToken w))
  /\ (haveCredentials w = true
      <-> (b_user b <> "" /\ b_password b <> "") \/ b_clientSecret b <> "").
Proof.
  intros H.
  pose proof (Build_tokens E b w H) as Htokens.
  apply Build_inv in H
    as (lg & server & _ & _ & Hnone & _ & Hid & Hsecret & Huser & Hpassword & _).
  assert (Hcred : haveCredentials w = true
                  <-> (b_user b <> "" /\ b_password b <> "")
                      \/ b_clientSecret b <> "").
  { unfold haveCredentials, havePassword, haveSecret.
    rewrite Hid, Hsecret, Huser, Hpassword.
    rewrite orb_true_iff, !andb_true_iff, !nonempty_true.
    split.
    - intros [Hp | [_ Hs]]; [by left | by right].
    - intros [Hp | Hs]; [by left | right]. split; [| done].
      destruct (nonempty (b_clientID b)) eqn:Hc; [by apply nonempty_true |].
      done. }
  assert (Hgiven : b_tokens b <> []
                   -> is_Some (accessToken w) \/ is_Some (refreshToken w)).
  { intros Hne. by apply (parseTokens_some _ _ _ _ _ _ _ Htokens). }
  split; [| split; [| split]]; try done.
  - destruct (b_tokens b) as [| text rest] eqn:Hb.
    + right. right. apply Hcred.
      cbn in Hnone.
      rewrite andb_false_iff, !negb_false_iff, !andb_true_iff,
        !nonempty_true in Hnone.
      destruct Hnone as [Hp | [_ Hs]]; [by left | by right].
    + destruct Hgiven as [Ha | Hr]; [done | by left | by right; left].
  - intros Hb. rewrite Hb in Htokens. cbn in Htokens. by simplify_eq.
Qed.

Lemma Build_means_witness :
  exists w,
    Build (collaboratorsWith healthyEndpoint) secretOnlyBuilder = Built w
    /\ haveCredentials w = true
    /\ is_Some (refreshToken w).
Proof.
  eexists. split; [vm_compute; reflexivity |].
  destruct (Build_means (collaboratorsWith healthyEndpoint) secretOnlyBuilder
              (sampleWrapper "" "" "secret" None (Some (tokenOf offlineText))))
    as (_ & _ & Hgiven & Hcred).
  - vm_compute; reflexivity.
  - split.
    + apply Hcred. right. vm_compute. discriminate.
    + destruct Hgiven as [Ha | Hr].
      * vm_compute. discriminate.
      * vm_compute in Ha. destruct Ha as [? Ha]. discriminate Ha.
      * exact Hr.
Defined.

(** X8: the wrapper that [Build] returns has both metrics or none: none
    when the builder names no metrics subsystem, and otherwise a counter and
    a histogram, each the collector that the registerer of the builder
    accepted under the name of the subsystem, or the collector that it
    reported as registered already. *)
Theorem Build_metrics (E : Collaborators) (b : TransportWrapperBuilder)
    (w : TransportWrapper) :
  Build E b = Built w ->
  metricsSubsystem w = b_metricsSubsystem b
  /\ (b_metricsSubsystem b = ""
      -> tokenCountMetric w = None /\ tokenDurationMetric w = None)
  /\ (b_metricsSubsystem b <> ""
      -> exists registerer count duration,
           b_metricsRegisterer b = Some registerer
           /\ tokenCountMetric w = Some count
           /\ tokenDurationMetric w = Some duration
           /\ isCounterVec count = true
           /\ isHistogramVec duration = true
           /\ (let metric :=
                 CounterVec (b_metricsSubsystem b) "token_request_count" in
               (registerer metric = RegisterNil /\ count = metric)
               \/ registerer metric = AlreadyRegisteredError count)
           /\ (let metric :=
                 HistogramVec (b_metricsSubsystem b) "token_request_duration" in
               (registerer metric = RegisterNil /\ duration = metric)
               \/ registerer metric = AlreadyRegisteredError duration)).
Proof.
  unfold Build. intros H.
  destruct (b_logger b) as [lg |]; [| done].
  destruct (negb (0 <? length (b_tokens b))%nat && _ && _); [done |].
  destruct (parseTokens E 0 (b_tokens b) None None) as [[a r] |]; [| done].
  destruct (ParseServerAddress E _) as [server |]; [| done].
  destruct (NewClientSelector_Build E _ _); [done |].
  destruct (nonempty (b_metricsSubsystem b)) eqn:Hsub.
  - apply nonempty_true in Hsub.
    unfold register in H.
    destruct (b_metricsRegisterer b) as [registerer |]; [| done].
    destruct (registerer (CounterVec _ _)) as [| count | ] eqn:Hcount;
      [| destruct (isCounterVec count) eqn:Hc; [| done] | done];
      (destruct (registerer (HistogramVec _ _)) as [| duration | ] eqn:Hduration;
       [| destruct (isHistogramVec duration) eqn:Hd; [| done] | done]);
      simplify_eq; cbn; (split; [done |]); (split; [done |]); intros _;
      eexists registerer, _, _; repeat split; eauto.
  - apply nonempty_false in Hsub. simplify_eq. cbn.
    split; [done |]. split; [done |]. done.
Qed.

Lemma Build_metrics_witness :
  exists w,
    Build (collaboratorsWith healthyEndpoint) meteredBuilder = Built w
    /\ tokenCountMetric w
       = Some (CounterVec "api_outbound" "token_request_count").
Proof.
  eexists. split; [vm_compute; reflexivity |].
  destruct (Build_metrics (collaboratorsWith healthyEndpoint) meteredBuilder
              {| logger := sampleLogger; clientID := DefaultClientID;
                 clientSecret := ""; user := "user"; password := "password";
                 scopes := DefaultScopes; agent := "";
                 tokenURL := DefaultTokenURL;
                 tokenServer := serverAddress DefaultTokenURL;
                 accessToken := None; refreshToken := None;
                 metricsSubsystem := "api_outbound";
                 metricsRegisterer := Some acceptingRegisterer;
                 tokenCountMetric :=
                   Some (CounterVec "api_outbound" "token_request_count");
                 tokenDurationMetric :=
                   Some (HistogramVec "api_outbound" "token_request_duration") |})
    as (_ & _ & Hnamed).
  - vm_compute; reflexivity.
  - cbn. reflexivity.
Defined.

(** ** The methods of the builder *)

Lemma Builder_TrustedCAs_fields (values : list (option TrustedCA))
    (b : TransportWrapperBuilder) :
  Builder.TrustedCAs values b
  = {| b_logger := b_logger b; b_tokenURL := b_tokenURL b;
       b_clientID := b_clientID b; b_clientSecret := b_clientSecret b;
       b_user := b_user b; b_password := b_password b;
       b_tokens := b_tokens b; b_scopes := b_scopes b; b_agent := b_agent b;
       b_trustedCAs := b_trustedCAs b ++ omap id values;
       b_insecure := b_insecure b;
       b_metricsSubsystem := b_metricsSubsystem b;
       b_metricsRegisterer := b_metricsRegisterer b |}.
Proof.
  revert b. induction values as [| value rest IH]; intros b.
  - cbn. rewrite app_nil_r. by destruct b.
  - cbn [Builder.TrustedCAs]. rewrite IH.
    destruct value as [ca |]; cbn; [| done].
    by rewrite <- app_assoc.
Qed.

(** X9: [TrustedCAs] adds to the sources of trusted certificates of the
    builder the values that are not nil, in the order in which they are
    given and after the ones that the builder has; the nil values are left
    out, and none of the twelve other fields of the builder changes. Giving
    the values in two calls is the same as giving them in one. *)
Theorem Builder_TrustedCAs_appends (values more : list (option TrustedCA))
    (b : TransportWrapperBuilder) :
  b_trustedCAs (Builder.TrustedCAs values b)
  = b_trustedCAs b ++ omap id values
  /\ Builder.TrustedCAs more (Builder.TrustedCAs values b)
     = Builder.TrustedCAs (values ++ more) b
  /\ (forall ca, In ca (b_trustedCAs (Builder.TrustedCAs values b))
        <-> In ca (b_trustedCAs b) \/ In (Some ca) values)
  /\ b_logger (Builder.TrustedCAs values b) = b_logger b
  /\ b_tokenURL (Builder.TrustedCAs values b) = b_tokenURL b
  /\ b_clientID (Builder.TrustedCAs values b) = b_clientID b
  /\ b_clientSecret (Builder.TrustedCAs values b) = b_clientSecret b
  /\ b_user (Builder.TrustedCAs values b) = b_user b
  /\ b_password (Builder.TrustedCAs values b) = b_password b
  /\ b_tokens (Builder.TrustedCAs values b) = b_tokens b
  /\ b_scopes (Builder.TrustedCAs values b) = b_scopes b
  /\ b_agent (Builder.TrustedCAs values b) = b_agent b
  /\ b_insecure (Builder.TrustedCAs values b) = b_insecure b
  /\ b_metricsSubsystem (Builder.TrustedCAs values b) = b_metricsSubsystem b
  /\ b_metricsRegisterer (Builder.TrustedCAs values b)
     = b_metricsRegisterer b.
Proof.
  rewrite !Builder_TrustedCAs_fields. cbn.
  split; [done |]. split; [| split].
  - rewrite omap_app, app_assoc. done.
  - intros ca. rewrite in_app_iff.
    assert (In ca (omap id values) <-> In (Some ca) values) as ->; [| done].
    induction values as [| [ca' |] rest IH]; cbn; [done | |].
    + rewrite IH. split; intros [? | ?]; simplify_eq; auto.
    + rewrite IH. split; [auto | intros [? | ?]; [done | auto]].
  - done.
Qed.

(** ** The round tripper *)

(** X10: when [Tokens] fails, [RoundTrip] does not call the wrapped
    transport: it returns no response and the error of [Tokens] behind the
    text [can't get access token: ], and it leaves the request and the
    wrapper as they were. *)
Theorem RoundTrip_without_token {R P : Type} (E : Collaborators)
    (clock : Z -> Time) (retries : nat)
    (transport : Outgoing R -> option P * option error)
    (request : Outgoing R) (st st' : World) (access refresh : string)
    (e : error) :
  Tokens E clock retries [] st = (access, refresh, Some e, st') ->
  RoundTrip E clock retries transport request st
  = {| trip_response := None;
       trip_err := Some ("can't get access token: " +:+ e);
       trip_request := request; trip_delegated := None; trip_world := st' |}
  /\ wrapper st' = wrapper st.
Proof.
  intros H. unfold RoundTrip. rewrite H. split; [done |].
  apply Tokens_effects in H as (tagged & _ & _ & _ & _ & Hfailure & _).
  by apply Hfailure.
Qed.

Lemma RoundTrip_without_token_witness :
  trip_delegated
    (RoundTrip (collaboratorsWith unreachable) stoppedClock 5 echoTransport
       sampleRequest passwordWorld) = None.
Proof.
  destruct (RoundTrip_without_token (P := gmap string (list string))
              (collaboratorsWith unreachable) stoppedClock 5 echoTransport
              sampleRequest passwordWorld (snd unreachableCall) "" ""
              "can't send request: dial tcp: connection refused")
    as (Htrip & _).
  - vm_compute; reflexivity.
  - rewrite Htrip. reflexivity.
Defined.

(** X11: when [RoundTrip] calls the wrapped transport, the request that it
    hands on has a header, and the [Authorization] of that header is
    [Bearer] with the text of the access token that the wrapper then holds,
    unless that text is empty, in which case it is what the caller gave. All
    other keys of the header and the rest of the request are as the caller
    gave them, and the results are those of the transport. *)
Theorem RoundTrip_bearer {R P : Type} (E : Collaborators)
    (clock : Z -> Time) (retries : nat)
    (transport : Outgoing R -> option P * option error)
    (request sent : Outgoing R) (st : World) :
  let trip := RoundTrip E clock retries transport request st in
  trip_delegated trip = Some sent ->
  exists token header,
    accessToken (wrapper (trip_world trip)) = Some token
    /\ out_Header sent = Some header
    /\ header !! "Authorization"
       = (if nonempty (Raw token) then Some ["Bearer " +:+ Raw token]
          else default ∅ (out_Header request) !! "Authorization")
    /\ (forall key, key <> "Authorization"
          -> header !! key = default ∅ (out_Header request) !! key)
    /\ out_rest sent = out_rest request
    /\ trip_request trip = sent
    /\ (trip_response trip, trip_err trip) = transport sent.
Proof.
  cbv zeta. unfold RoundTrip.
  destruct (Tokens E clock retries [] st) as [[[access refresh] err] st']
    eqn:H.
  apply Tokens_effects in H as (tagged & _ & _ & _ & _ & _ & Hsuccess).
  destruct err as [e |]; [done |].
  destruct (Hsuccess eq_refl) as [Hcur [token Htoken]].
  unfold currentTokens in Hcur. rewrite Htoken in Hcur.
  injection Hcur as -> _.
  destruct (transport _) as [response err] eqn:Htransport.
  cbn. intros Hsent. injection Hsent as <-.
  exists token. eexists. split; [done |]. split; [done |].
  cbn. rewrite Htransport.
  assert (default ∅ (out_Header request)
          = match out_Header request with Some h => h | None => ∅ end) as ->
    by by destruct (out_Header request).
  repeat split.
  - destruct (nonempty (Raw token)); [| done].
    unfold Values_Set. by rewrite lookup_insert.
  - intros key Hkey. destruct (nonempty (Raw token)); [| done].
    unfold Values_Set. by rewrite lookup_insert_ne.
Qed.

Lemma RoundTrip_bearer_witness :
  exists header,
    trip_response
      (RoundTrip (collaboratorsWith healthyEndpoint) stoppedClock 0
         echoTransport bareRequest passwordWorld) = Some header
    /\ header !! "Authorization" = Some ["Bearer " +:+ bearerExp2000000000Text].
Proof.
  destruct (RoundTrip_bearer (collaboratorsWith healthyEndpoint) stoppedClock
              0 echoTransport bareRequest
              {| out_Header :=
                   Some (Values_Set "Authorization"
                           ("Bearer " +:+ bearerExp2000000000Text) ∅);
                 out_rest := out_rest bareRequest |}
              passwordWorld)
    as (token & header & Htoken & Hheader & Hauth & _).
  - vm_compute; reflexivity.
  - exists header. split.
    + rewrite <- Hheader. vm_compute; reflexivity.
    + rewrite Hauth.
      assert (Raw token = bearerExp2000000000Text) as ->; [| reflexivity].
      assert (Some token = Some (tokenOf bearerExp2000000000Text)) as Heq.
      { rewrite <- Htoken. vm_compute; reflexivity. }
      injection Heq as ->. vm_compute; reflexivity.
Defined.

(** ** Listing versions *)

Lemma pagesFrom_S (first : Z) (n : nat) :
  pagesFrom first (S n) = first :: pagesFrom (first + 1) n.
Proof.
  unfold pagesFrom. cbn [seq map]. f_equal; [lia |].
  rewrite <- seq_shift, map_map. apply map_ext. intros k. lia.
Qed.

Lemma GetVersions_loop_returns {V : Type}
    (send : string -> Z -> Z -> result (VersionsListResponse V)) (n : nat) :
  forall (fuel : nat) (page : Z) (versions : list V) (asked : list Z),
    (forall p, page <= p < page + Z.of_nat n -> fullPage send p) ->
    lastPage send (page + Z.of_nat n) ->
    (n < fuel)%nat ->
    GetVersions_loop fuel send page 100 versions asked
    = Some (versions ++ concat (map (pageItems send) (pagesFrom page (S n))),
            pageError send (page + Z.of_nat n),
            rev (pagesFrom page (S n)) ++ asked).
Proof.
  induction n as [| n IH]; intros fuel page versions asked Hfull Hlast Hfuel;
    (destruct fuel as [| fuel]; [lia |]); cbn [GetVersions_loop].
  - unfold pagesFrom. cbn [seq map concat rev app].
    replace (page + Z.of_nat 0) with page in * by lia.
    unfold lastPage, pageError, pageItems in *.
    destruct (send _ page 100) as [response | err]; cbn.
    + apply Z.ltb_lt in Hlast. rewrite Hlast, !app_nil_r. done.
    + rewrite !app_nil_r. done.
  - destruct (Hfull page) as (response & Hsend & Hsize); [lia |].
    rewrite Hsend.
    assert ((vl_Size response <? 100) = false) as -> by by apply Z.ltb_ge.
    rewrite (IH fuel (page + 1)); [| | | lia].
    + rewrite (pagesFrom_S page (S n)). cbn [map concat rev].
      unfold pageItems at 2. rewrite Hsend.
      rewrite <- !app_assoc. cbn.
      replace (page + 1 + Z.of_nat n) with (page + Z.of_nat (S n)) by lia.
      done.
    + intros p Hp. apply Hfull. lia.
    + replace (page + 1 + Z.of_nat n) with (page + Z.of_nat (S n)) by lia.
      done.
Qed.

Lemma GetVersions_loop_stops {V : Type}
    (send : string -> Z -> Z -> result (VersionsListResponse V)) (fuel : nat) :
  forall (page : Z) (versions : list V) (asked : list Z) res,
    GetVersions_loop fuel send page 100 versions asked = Some res ->
    exists n : nat,
      (n < fuel)%nat
      /\ (forall p, page <= p < page + Z.of_nat n -> fullPage send p)
      /\ lastPage send (page + Z.of_nat n).
Proof.
  induction fuel as [| fuel IH]; intros page versions asked res H; [done |].
  cbn [GetVersions_loop] in H.
  destruct (send "enabled = 'true'" page 100) as [response | err] eqn:Hsend.
  - destruct (vl_Size response <? 100) eqn:Hsize.
    + exists 0%nat. split; [lia |]. split; [intros p Hp; lia |].
      unfold lastPage. replace (page + Z.of_nat 0) with page by lia.
      rewrite Hsend. by apply Z.ltb_lt.
    + apply IH in H as (n & Hn & Hfull & Hlast).
      exists (S n). split; [lia |]. split.
      * intros p Hp. destruct (decide (p = page)) as [-> | Hne].
        -- exists response. split; [done |]. by apply Z.ltb_ge.
        -- apply Hfull. lia.
      * replace (page + Z.of_nat (S n)) with (page + 1 + Z.of_nat n) by lia.
        done.
  - exists 0%nat. split; [lia |]. split; [intros p Hp; lia |].
    unfold lastPage. replace (page + Z.of_nat 0) with page by lia.
    by rewrite Hsend.
Qed.

(** X12: when the pages from one to [n] are full and the page after them
    is an error or reports a size below one hundred, [GetVersions] asks for
    the pages from one to [n + 1], one request each and in that order, and
    returns the items of all the pages that were answered, in order,
    together with the error of the last page if it was one: the versions
    found before an error are returned beside the error. *)
Theorem GetVersions_returns {V : Type}
    (send : string -> Z -> Z -> result (VersionsListResponse V))
    (n fuel : nat) :
  (forall page, 1 <= page <= Z.of_nat n -> fullPage send page) ->
  lastPage send (Z.of_nat n + 1) ->
  (n < fuel)%nat ->
  GetVersions fuel send
  = Some (concat (map (pageItems send) (pagesFrom 1 (S n))),
          pageError send (Z.of_nat n + 1),
          rev (pagesFrom 1 (S n))).
Proof.
  intros Hfull Hlast Hfuel. unfold GetVersions.
  rewrite (GetVersions_loop_returns send n); [| | | done].
  - replace (1 + Z.of_nat n) with (Z.of_nat n + 1) by lia.
    by rewrite app_nil_r.
  - intros p Hp. apply Hfull. lia.
  - by replace (1 + Z.of_nat n) with (Z.of_nat n + 1) by lia.
Qed.

Lemma GetVersions_returns_witness :
  GetVersions 5 (pagedServer (repeat "4.8.2" 250))
  = Some (repeat "4.8.2" 250, None, [3; 2; 1]).
Proof.
  rewrite (GetVersions_returns (pagedServer (repeat "4.8.2" 250)) 2 5).
  - vm_compute; reflexivity.
  - intros page Hpage.
    assert (page = 1 \/ page = 2) as [-> | ->] by lia;
      eexists; (split; [reflexivity |]); vm_compute; discriminate.
  - vm_compute; reflexivity.
  - lia.
Defined.

(** X13: [GetVersions] returns exactly when some page is an error or
    reports a size below one hundred while all the pages before it are
    full; when every page is full it goes on asking without end, whatever
    bound is put on the number of pages. *)
Theorem GetVersions_returns_iff {V : Type}
    (send : string -> Z -> Z -> result (VersionsListResponse V))
    (fuel : nat) :
  ((exists res, GetVersions fuel send = Some res)
   <-> exists n : nat,
         (n < fuel)%nat
         /\ (forall page, 1 <= page <= Z.of_nat n -> fullPage send page)
         /\ lastPage send (Z.of_nat n + 1))
  /\ ((forall page, 1 <= page -> fullPage send page)
      -> GetVersions fuel send = None).
Proof.
  assert (Hiff : (exists res, GetVersions fuel send = Some res)
                 <-> exists n : nat,
                       (n < fuel)%nat
                       /\ (forall page, 1 <= page <= Z.of_nat n
                             -> fullPage send page)
                       /\ lastPage send (Z.of_nat n + 1)).
  { split.
    - intros [res H]. unfold GetVersions in H.
      apply GetVersions_loop_stops in H as (n & Hn & Hfull & Hlast).
      exists n. split; [done |]. split.
      + intros page Hpage. apply Hfull. lia.
      + by replace (Z.of_nat n + 1) with (1 + Z.of_nat n) by lia.
    - intros (n & Hn & Hfull & Hlast). unfold GetVersions.
      rewrite (GetVersions_loop_returns send n); [by eexists | | | done].
      + intros p Hp. apply Hfull. lia.
      + by replace (1 + Z.of_nat n) with (Z.of_nat n + 1) by lia. }
  split; [exact Hiff |].
  intros Hall.
  destruct (GetVersions fuel send) as [res |] eqn:H; [| done].
  destruct Hiff as [Hstop _].
  destruct Hstop as (n & _ & _ & Hlast); [by eexists |].
  destruct (Hall (Z.of_nat n + 1)) as (response & Hsend & Hsize); [lia |].
  unfold lastPage in Hlast. rewrite Hsend in Hlast. lia.
Qed.

Lemma GetVersions_returns_iff_witness : GetVersions 50 endlessServer = None.
Proof.
  apply (GetVersions_returns_iff endlessServer 50).
  intros page _. eexists. split; [reflexivity |]. cbn. lia.
Defined.

Lemma paged_concat {V : Type} (m : nat) :
  forall all : list V,
    (length all < 100 * S m)%nat ->
    concat (map (fun k : nat => take 100 (drop (100 * k) all)) (seq 0 (S m)))
    = all.
Proof.
  induction m as [| m IH]; intros all Hlen.
  - cbn [seq map concat]. rewrite Nat.mul_0_r, drop_0, app_nil_r.
    apply take_ge. lia.
  - rewrite <- cons_seq. cbn [map concat].
    rewrite Nat.mul_0_r, drop_0.
    rewrite <- seq_shift, map_map.
    transitivity (take 100 all ++ drop 100 all); [| apply take_drop].
    f_equal.
    rewrite <- (IH (drop 100 all)) by (rewrite length_drop; lia).
    f_equal. apply map_ext. intros k.
    rewrite drop_drop. do 2 f_equal. lia.
Qed.

(** X14: from a server that holds any number of versions and pages them as
    it is asked to, [GetVersions] returns all the versions, each once and
    in the order of the server, without error, and it makes one request
    more than the number of full pages: an empty last page is asked for
    when the number of versions is a multiple of one hundred. *)
Theorem GetVersions_paged {V : Type} (all : list V) (fuel : nat) :
  (length all / 100 < fuel)%nat ->
  GetVersions fuel (pagedServer all)
  = Some (all, None, rev (pagesFrom 1 (S (length all / 100)))).
Proof.
  intros Hfuel.
  pose proof (Nat.div_mod_eq (length all) 100) as Hdiv.
  assert (Hmod : (length all mod 100 < 100)%nat)
    by (apply Nat.mod_upper_bound; lia).
  set (n := (length all / 100)%nat) in *. clearbody n.
  set (m := (length all mod 100)%nat) in *. clearbody m.
  change (Z.to_nat 100) with 100%nat in *.
  assert (Hitems : forall k : nat,
            pageItems (pagedServer all) (1 + Z.of_nat k)
            = take 100 (drop (100 * k) all)).
  { intros k. unfold pageItems, pagedServer. cbn.
    replace (Z.to_nat ((1 + Z.of_nat k - 1) * 100)) with (100 * k)%nat by lia.
    done. }
  unfold GetVersions.
  rewrite (GetVersions_loop_returns (pagedServer all) n); [| | | done].
  - cbn [app]. rewrite app_nil_r.
    assert (concat (map (pageItems (pagedServer all)) (pagesFrom 1 (S n)))
            = all) as ->; [| done].
    unfold pagesFrom. rewrite map_map.
    etransitivity; [| apply (paged_concat n all); lia].
    f_equal. apply map_ext. intros k. apply Hitems.
  - intros p Hp. unfold fullPage, pagedServer. eexists. split; [done |].
    cbn [vl_Size]. change (Z.to_nat 100) with 100%nat.
    rewrite length_take, length_drop. lia.
  - unfold lastPage, pagedServer. cbn [vl_Size].
    change (Z.to_nat 100) with 100%nat.
    rewrite length_take, length_drop. lia.
Qed.

Lemma GetVersions_paged_witness :
  GetVersions 3 (pagedServer (repeat "4.8.2" 200))
  = Some (repeat "4.8.2" 200, None, [3; 2; 1]).
Proof.
  rewrite (GetVersions_paged (repeat "4.8.2" 200) 3).
  - vm_compute; reflexivity.
  - vm_compute. lia.
Defined.

(** ** Lists of clusters *)

(** X15: [Get], [Len], [Empty] and [Slice] agree, for a list that may be
    nil and any index: within the length [Get] returns the item that
    [Slice] has at the index, outside of it (a negative index included) it
    returns nil; [Len] is the length of [Slice] and [Empty] says that it is
    zero. *)
Theorem ClusterList_Get_Slice {C : Type} (l : option (ClusterList C))
    (i : Z) :
  (0 <= i < ClusterList.Len l
   -> ClusterList.Slice l !! Z.to_nat i = Some (ClusterList.Get l i))
  /\ (i < 0 \/ ClusterList.Len l <= i -> ClusterList.Get l i = None)
  /\ ClusterList.Len l = Z.of_nat (length (ClusterList.Slice l))
  /\ (ClusterList.Empty l = true <-> ClusterList.Len l = 0)
  /\ (ClusterList.Empty l = true <-> ClusterList.Slice l = []).
Proof.
  unfold ClusterList.Get, ClusterList.Len, ClusterList.Slice,
    ClusterList.Empty.
  destruct l as [l |].
  - split; [| split; [| split; [| split]]].
    + intros Hi.
      assert (((i <? 0) || (i >=? Z.of_nat (length (cl_items l)))) = false)
        as -> by lia.
      destruct (cl_items l !! Z.to_nat i) as [item |] eqn:Hitem; [done |].
      apply lookup_ge_None in Hitem. lia.
    + intros Hi.
      assert (((i <? 0) || (i >=? Z.of_nat (length (cl_items l)))) = true)
        as -> by lia.
      done.
    + done.
    + apply Z.eqb_eq.
    + rewrite Z.eqb_eq. destruct (cl_items l); cbn; [done |].
      split; [lia | done].
  - split; [lia |]. done.
Qed.

Lemma Range_loop_noting {C : Type} (p : Z -> option C -> bool)
    (items : list (option C)) :
  forall (first : Z) (seen : list (Z * option C)),
  exists n : nat,
    ClusterList.Range_loop (noting p) first items seen
    = seen ++ take n (indexed first items)
    /\ (n <= length items)%nat
    /\ Forall (fun x => p (fst x) (snd x) = true)
         (take (pred n) (indexed first items))
    /\ (n = length items
        \/ ((0 < n)%nat
            /\ exists x, indexed first items !! pred n = Some x
                 /\ p (fst x) (snd x) = false)).
Proof.
  induction items as [| item rest IH]; intros first seen.
  - exists 0%nat. cbn. rewrite app_nil_r. repeat split; [lia | | by left].
    constructor.
  - cbn [ClusterList.Range_loop indexed]. unfold noting at 1.
    destruct (p first item) eqn:Hp.
    + destruct (IH (first + 1) (seen ++ [(first, item)]))
        as (n & Hrun & Hn & Hall & Hlast).
      exists (S n). rewrite Hrun, <- app_assoc. cbn [app take pred length].
      split; [done |]. split; [lia |]. split.
      * destruct n as [| k]; [constructor |].
        cbn [take pred] in *. by constructor.
      * destruct Hlast as [-> | (Hpos & x & Hx & Hstop)]; [by left |].
        right. split; [lia |]. exists x. split; [| done].
        destruct n as [| k]; [lia |]. done.
    + exists 1%nat. cbn. split; [done |]. split; [lia |].
      split; [constructor |]. right. split; [lia |].
      exists (first, item). done.
Qed.

Lemma Each_loop_noting {C : Type} (q : option C -> bool)
    (items : list (option C)) :
  forall (first : Z) (seen : list (Z * option C)),
    ClusterList.Each_loop (notingItems q) items (map snd seen)
    = map snd (ClusterList.Range_loop (noting (fun _ => q)) first items seen).
Proof.
  induction items as [| item rest IH]; intros first seen; [done |].
  cbn [ClusterList.Each_loop ClusterList.Range_loop].
  unfold notingItems at 1, noting at 1.
  destruct (q item).
  - rewrite <- (IH (first + 1)). by rewrite map_app.
  - by rewrite map_app.
Qed.

(** X16: [Range] calls the function with the items of the list in order,
    each with its index counted from zero, up to and including the first
    call in which the function returns false, and not after it; a nil list
    gives no call. [Each] makes the same calls without the index. *)
Theorem ClusterList_Range_visits {C : Type} (l : option (ClusterList C))
    (p : Z -> option C -> bool) (q : option C -> bool) :
  (exists n : nat,
     ClusterList.Range l (noting p) []
     = take n (indexed 0 (ClusterList.Slice l))
     /\ Forall (fun x => p (fst x) (snd x) = true)
          (take (pred n) (indexed 0 (ClusterList.Slice l)))
     /\ (n = length (ClusterList.Slice l)
         \/ ((0 < n)%nat
             /\ exists x, indexed 0 (ClusterList.Slice l) !! pred n = Some x
                  /\ p (fst x) (snd x) = false)))
  /\ ClusterList.Each l (notingItems q) []
     = map snd (ClusterList.Range l (noting (fun _ => q)) []).
Proof.
  unfold ClusterList.Range, ClusterList.Each, ClusterList.Slice.
  destruct l as [l |].
  - split.
    + destruct (Range_loop_noting p (cl_items l) 0 [])
        as (n & Hrun & _ & Hall & Hlast).
      exists n. by rewrite Hrun.
    + apply (Each_loop_noting q (cl_items l) 0 []).
  - split; [| done]. exists 0%nat. cbn. repeat split; [constructor | by left].
Qed.

(** ** The requests for tokens *)

Lemma sent_nothing (w : TransportWrapper) (st : World) : sent w st st.
Proof. exists []. by split. Qed.

Lemma sent_then (w : TransportWrapper) (st1 st2 st3 : World) :
  sent w st1 st2 -> sent w st2 st3 -> sent w st1 st3.
Proof.
  intros (new1 & Hx1 & Hall1) (new2 & Hx2 & Hall2).
  exists (new2 ++ new1). split; [by rewrite Hx2, Hx1, app_assoc |].
  by apply Forall_app.
Qed.

Ltac form_lookup :=
  unfold tokenRequest, passwordForm, clientCredentialsForm, refreshForm,
    Values_Set; cbn [Method URL Header Form];
  repeat first
    [ rewrite lookup_insert
    | rewrite lookup_insert_ne by discriminate
    | rewrite lookup_empty ];
  try done.

Lemma tokenRequest_head (w : TransportWrapper)
    (form : gmap string (list string)) :
  Method (tokenRequest w form) = "POST"
  /\ URL (tokenRequest w form) = tokenURL w
  /\ Header (tokenRequest w form) !! "Content-Type"
     = Some ["application/x-www-form-urlencoded"]
  /\ Header (tokenRequest w form) !! "Accept" = Some ["application/json"]
  /\ Header (tokenRequest w form) !! "User-Agent"
     = (if nonempty (agent w) then Some [agent w] else None).
Proof.
  repeat split; try (by form_lookup).
  unfold tokenRequest. cbn [Header].
  destruct (nonempty (agent w)); by form_lookup.
Qed.

Section Requests.

Context (E : Collaborators).

Lemma sendTokenForm_sent form attempt st code result err st' :
  grantRequest (wrapper st) (tokenRequest (wrapper st) form) ->
  sendTokenForm E form attempt st = (code, result, err, st') ->
  sent (wrapper st) st st'.
Proof.
  intros Hform H. apply sendTokenForm_trace in H as (Hx & _).
  eexists [_]. split; [exact Hx |]. by constructor.
Qed.

Lemma sendRequestTokenForm_sent attempt st code result err st' :
  sendRequestTokenForm E attempt st = (code, result, err, st') ->
  sent (wrapper st) st st'.
Proof.
  unfold sendRequestTokenForm. intros H.
  destruct (havePassword (wrapper st)) eqn:Hp;
    [| destruct (haveSecret (wrapper st)) eqn:Hs].
  - eapply sendTokenForm_sent; [| exact H].
    destruct (tokenRequest_head (wrapper st)
                (Values_Set "scope" (strings_Join (scopes (wrapper st)) " ")
                   (passwordForm (wrapper st))))
      as (? & ? & ? & ? & ?).
    do 5 (split; [done |]). split; [by form_lookup |].
    left. repeat split; by form_lookup.
  - eapply sendTokenForm_sent; [| exact H].
    destruct (tokenRequest_head (wrapper st)
                (Values_Set "scope" (strings_Join (scopes (wrapper st)) " ")
                   (clientCredentialsForm (wrapper st))))
      as (? & ? & ? & ? & ?).
    do 5 (split; [done |]). split; [by form_lookup |].
    right; left. repeat split; by form_lookup.
  - simplify_eq. apply sent_nothing.
Qed.

Lemma sendRefreshTokenForm_sent attempt st code result err st' :
  sendRefreshTokenForm E attempt st = (code, result, err, st') ->
  sent (wrapper st) st st'.
Proof.
  unfold sendRefreshTokenForm. intros H.
  destruct (refreshToken (wrapper st)) as [token |] eqn:Htoken;
    [| simplify_eq; apply sent_nothing].
  destruct (sendTokenForm E (refreshForm (wrapper st) (Raw token)) attempt st)
    as [[[code1 result1] err1] st1] eqn:H1.
  assert (Hfirst : sent (wrapper st) st st1).
  { eapply sendTokenForm_sent; [| exact H1].
    destruct (tokenRequest_head (wrapper st)
                (refreshForm (wrapper st) (Raw token)))
      as (? & ? & ? & ? & ?).
    do 5 (split; [done |]). split; [by form_lookup |].
    right; right. split; [by form_lookup |].
    split; [exists token; split; [done | by form_lookup] |].
    repeat split; by form_lookup. }
  apply sendTokenForm_trace in H1 as (_ & _ & _ & Hw).
  destruct err1 as [e1 |]; [| by destruct result1; simplify_eq].
  destruct result1 as [r1 |]; [| by simplify_eq].
  case_match; [| by simplify_eq].
  eapply sent_then; [exact Hfirst |].
  rewrite <- Hw by (by eexists).
  by eapply sendRequestTokenForm_sent.
Qed.

Lemma tokens_sent now attempt expiresIn st code access refresh err st' :
  tokens E now attempt expiresIn st = (code, access, refresh, err, st') ->
  sent (wrapper st) st st'.
Proof.
  assert (Hgrant : forall r,
    (forall code0 result0 err0 st0,
       r = (code0, result0, err0, st0) -> sent (wrapper st) st st0) ->
    afterGrant r = (code, access, refresh, err, st') ->
    sent (wrapper st) st st').
  { intros [[[code0 result0] err0] st0] Hsent Hafter.
    specialize (Hsent _ _ _ _ eq_refl). unfold afterGrant in Hafter.
    destruct err0; [by simplify_eq |].
    destruct (currentTokens (wrapper st0)). by simplify_eq. }
  unfold tokens. intros H.
  repeat case_match; simplify_eq; try apply sent_nothing;
    (eapply Hgrant; [| eassumption]; intros ? ? ? ? Hr;
     first [ by eapply sendRefreshTokenForm_sent
           | by eapply sendRequestTokenForm_sent ]).
Qed.

End Requests.

Lemma failedRuns_sent (E : Collaborators) (clock : Z -> Time)
    (window : Duration) (n : nat) (c cm : Captured) (st stm : World) :
  failedRuns (operation E clock window) n (c, st) (cm, stm) ->
  wrapper stm = wrapper st /\ sent (wrapper st) st stm.
Proof.
  revert c st. induction n as [| n IH]; intros c st H.
  - simpl in H. simplify_eq. split; [done | apply sent_nothing].
  - simpl in H. destruct H as (e & [c1 st1] & Hop & Hruns).
    apply operation_inv in Hop as (code & Htokens & Hattempt & Hr).
    assert (Hfail : is_Some (c_err c1)).
    { destruct (c_err c1); [by eexists | done]. }
    pose proof (tokens_sent _ _ _ _ _ _ _ _ _ _ Htokens) as Hsent.
    apply tokens_effects in Htokens as (new & _ & _ & _ & Hfailure & _).
    destruct (Hfailure Hfail) as (Hw & _).
    apply IH in Hruns as (Hwm & Hsent').
    split; [congruence |].
    eapply sent_then; [exact Hsent |]. by rewrite <- Hw.
Qed.

Lemma Tokens_sent (E : Collaborators) (clock : Z -> Time) (retries : nat)
    (expiresIn : list Duration) (st st' : World) (access refresh : string)
    (err : option error) :
  Tokens E clock retries expiresIn st = (access, refresh, err, st') ->
  sent (wrapper st) st st'.
Proof.
  unfold Tokens. intros H.
  destruct (backoff_Retry _ retries (beforeFirstAttempt, st))
    as [c' st1] eqn:Hretry.
  simplify_eq.
  apply backoff_Retry_runs in Hretry
    as (n & [cm stm] & r & _ & Hruns & Hlast & _).
  apply failedRuns_sent in Hruns as (Hwm & Hsent).
  apply operation_inv in Hlast as (code & Htokens & _ & _).
  apply tokens_sent in Htokens.
  eapply sent_then; [exact Hsent |]. by rewrite <- Hwm.
Qed.

(** X17: every request that a call of [Tokens] makes is a request for
    tokens of the wrapper as it was when the call began: a POST to its token
    URL with the headers of a form that accepts JSON, with its user agent if
    it has one, and with a form that carries its client identifier and is a
    password grant, a client credentials grant or a refresh token grant. A
    password grant never carries the client secret, the client credentials
    grant is made only when there is no user name with password, and a
    refresh token grant carries the stored refresh token and no scopes. *)
Theorem Tokens_requests (E : Collaborators) (clock : Z -> Time)
    (retries : nat) (expiresIn : list Duration) (st st' : World)
    (access refresh : string) (err : option error) :
  Tokens E clock retries expiresIn st = (access, refresh, err, st') ->
  Forall (fun exchange => grantRequest (wrapper st) (fst exchange))
    (newExchanges st st').
Proof.
  intros H. apply Tokens_sent in H as (new & Hx & Hall).
  by rewrite (newExchanges_app _ _ _ Hx).
Qed.

Lemma Tokens_requests_witness :
  Forall (fun exchange => grantRequest (wrapper agentWorld) (fst exchange))
    (newExchanges agentWorld (snd agentCall))
  /\ map (fun exchange => grantType (fst exchange))
       (newExchanges agentWorld (snd agentCall))
     = ["password"; "refresh_token"; "password"; "refresh_token"].
Proof.
  split.
  - apply (Tokens_requests (collaboratorsWith restartedEndpoint) stoppedClock
             1 [] agentWorld (snd agentCall) (fst (fst (fst agentCall)))
             (snd (fst (fst agentCall))) (snd (fst agentCall))).
    vm_compute; reflexivity.
  - vm_compute; reflexivity.
Defined.

(** ** Retries until the endpoint answers *)

Lemma repeated_head (E : Collaborators) (request : Request) (n : nat)
    (history : list (Request * Exchange)) :
  repeated E request n ((request, Do E history request) :: history)
  = repeated E request (S n) history.
Proof.
  induction n as [| n IH]; [done |].
  cbn [repeated] in *. by rewrite IH.
Qed.

Lemma repeated_length (E : Collaborators) (request : Request) (n : nat)
    (history : list (Request * Exchange)) :
  length (repeated E request n history) = (n + length history)%nat.
Proof. induction n as [| n IH]; [done |]. cbn. by rewrite IH. Qed.

Lemma repeated_app (E : Collaborators) (request : Request) (n : nat)
    (history : list (Request * Exchange)) :
  exists new,
    repeated E request n history = new ++ history /\ length new = n.
Proof.
  induction n as [| n (new & Hnew & Hlen)]; [by exists [] |].
  cbn [repeated]. rewrite Hnew. eexists (_ :: new). split; [done |].
  cbn. by rewrite Hlen.
Qed.

Section Answers.

Context (E : Collaborators).

Lemma sendRequestTokenForm_credentials attempt st code result err st' :
  haveCredentials (wrapper st) = true ->
  sendRequestTokenForm E attempt st = (code, result, err, st') ->
  exists st0,
    sendTokenFormTimed E (Form (credentialsRequest (wrapper st))) st
    = (code, result, err, st0)
    /\ wrapper st' = wrapper st0
    /\ exchanges st'
       = (credentialsRequest (wrapper st),
          Do E (exchanges st) (credentialsRequest (wrapper st)))
         :: exchanges st.
Proof.
  unfold haveCredentials, sendRequestTokenForm, credentialsRequest.
  intros Hcred H. cbn [Form tokenRequest].
  destruct (havePassword (wrapper st));
    [| destruct (haveSecret (wrapper st)); [| done]];
    unfold sendTokenForm in H;
    match type of H with
    | context [sendTokenFormTimed E ?form st] =>
        destruct (sendTokenFormTimed E form st) as [[[code0 result0] err0] st0]
          eqn:Ht
    end;
    pose proof (sendTokenFormTimed_trace _ _ _ _ _ _ _ Ht) as (Hx & _);
    exists st0; case_match; simplify_eq; cbn; done.
Qed.

Lemma sendTokenFormTimed_server_error form st code result err st' :
  sendTokenFormTimed E form st = (code, result, err, st') ->
  serverError (Do E (exchanges st) (tokenRequest (wrapper st) form)) ->
  is_Some err /\ 500 <= code.
Proof.
  unfold sendTokenFormTimed. intros H (status & body & Hx & Hstatus).
  rewrite Hx in H.
  assert (negb (status =? StatusOK) = true) as Hne.
  { apply negb_true_iff, Z.eqb_neq. unfold StatusOK. lia. }
  rewrite Hne in H.
  repeat case_match; simplify_eq; (split; [by eexists | done]).
Qed.

Lemma sendTokenFormTimed_complete form st code result err st' access refresh :
  sendTokenFormTimed E form st = (code, result, err, st') ->
  completeAnswer E (Do E (exchanges st) (tokenRequest (wrapper st) form))
    access refresh ->
  err = None /\ wrapper st' = saveTokens (wrapper st) access refresh.
Proof.
  unfold sendTokenFormTimed.
  intros H (r & ta & tr & Hx & Herror & Htype & Ha & Hpa & Hr & Hpr).
  rewrite Hx in H. rewrite Herror, Ha, Hpa, Hr, Hpr in H.
  change (negb (200 =? StatusOK)) with false in H. cbn match in H.
  destruct Htype as [Htype | Htype]; rewrite Htype in H; cbn in H;
    by simplify_eq.
Qed.

Lemma operation_server_error clock window c st :
  accessToken (wrapper st) = None ->
  refreshToken (wrapper st) = None ->
  haveCredentials (wrapper st) = true ->
  serverError (Do E (exchanges st) (credentialsRequest (wrapper st))) ->
  exists e c1 st1,
    operation E clock window (c, st) = (Some (Transient e), (c1, st1))
    /\ c_err c1 = Some e
    /\ c_access c1 = "" /\ c_refresh c1 = ""
    /\ wrapper st1 = wrapper st
    /\ exchanges st1
       = (credentialsRequest (wrapper st),
          Do E (exchanges st) (credentialsRequest (wrapper st)))
         :: exchanges st.
Proof.
  intros Ha Hr Hcred Hx.
  unfold operation, tokens. rewrite Ha, Hr, Hcred. cbn.
  destruct (sendRequestTokenForm E (c_attempt c + 1) st)
    as [[[code result] err] st1] eqn:Hsend.
  destruct (sendRequestTokenForm_credentials _ _ _ _ _ _ Hcred Hsend)
    as (st0 & Ht & Hw & Hex).
  destruct (sendTokenFormTimed_server_error _ _ _ _ _ _ Ht Hx)
    as ([e ->] & Hcode).
  pose proof (sendTokenFormTimed_failure _ _ _ _ _ _ _ Ht) as Hsame.
  cbn. assert ((code >=? StatusInternalServerError) = true) as ->
    by (unfold StatusInternalServerError; lia).
  eexists e, _, st1. split; [done |]. cbn.
  repeat split; try done. rewrite Hw. apply Hsame. by eexists.
Qed.

Lemma operation_complete clock window c st access refresh :
  accessToken (wrapper st) = None ->
  refreshToken (wrapper st) = None ->
  haveCredentials (wrapper st) = true ->
  completeAnswer E (Do E (exchanges st) (credentialsRequest (wrapper st)))
    access refresh ->
  exists c1 st1,
    operation E clock window (c, st) = (None, (c1, st1))
    /\ c_err c1 = None
    /\ c_access c1 = Raw access /\ c_refresh c1 = Raw refresh
    /\ wrapper st1 = saveTokens (wrapper st) access refresh
    /\ exchanges st1
       = (credentialsRequest (wrapper st),
          Do E (exchanges st) (credentialsRequest (wrapper st)))
         :: exchanges st.
Proof.
  intros Ha Hr Hcred Hx.
  unfold operation, tokens. rewrite Ha, Hr, Hcred. cbn.
  destruct (sendRequestTokenForm E (c_attempt c + 1) st)
    as [[[code result] err] st1] eqn:Hsend.
  destruct (sendRequestTokenForm_credentials _ _ _ _ _ _ Hcred Hsend)
    as (st0 & Ht & Hw & Hex).
  destruct (sendTokenFormTimed_complete _ _ _ _ _ _ _ _ Ht Hx) as (-> & Hsaved).
  cbn. unfold currentTokens. rewrite Hw, Hsaved. cbn.
  eexists _, st1. split; [done |]. cbn. repeat split; try done.
  by rewrite Hw.
Qed.

Lemma failedRuns_server_errors clock window (k : nat) :
  forall c st,
    accessToken (wrapper st) = None ->
    refreshToken (wrapper st) = None ->
    haveCredentials (wrapper st) = true ->
    (forall i : nat,
       (i < k)%nat ->
       serverError
         (Do E (repeated E (credentialsRequest (wrapper st)) i (exchanges st))
            (credentialsRequest (wrapper st)))) ->
    exists cm stm,
      failedRuns (operation E clock window) k (c, st) (cm, stm)
      /\ wrapper stm = wrapper st
      /\ exchanges stm
         = repeated E (credentialsRequest (wrapper st)) k (exchanges st)
      /\ ((0 < k)%nat ->
          is_Some (c_err cm) /\ c_access cm = "" /\ c_refresh cm = "").
Proof.
  induction k as [| k IH]; intros c st Ha Hr Hcred Hfirst.
  - exists c, st. repeat split; try done; lia.
  - destruct (operation_server_error clock window c st Ha Hr Hcred)
      as (e & c1 & st1 & Hop & Herr & Hca & Hcr & Hw & Hex);
      [apply (Hfirst 0%nat); lia |].
    destruct (IH c1 st1) as (cm & stm & Hruns & Hwm & Hexm & Hlast).
    + by rewrite Hw.
    + by rewrite Hw.
    + by rewrite Hw.
    + intros i Hi. rewrite Hw, Hex, repeated_head. apply Hfirst. lia.
    + exists cm, stm. split; [by exists e, (c1, st1) |].
      split; [congruence |].
      split; [by rewrite Hexm, Hw, Hex, repeated_head |].
      intros _. destruct k as [| k]; [| apply Hlast; lia].
      cbn in Hruns. simplify_eq. split; [by eexists | done].
Qed.

End Answers.

(** X18: a wrapper that has credentials and no tokens asks for tokens with
    the same request in every attempt. When the first [k] answers to it
    have a status of 500 or more, a call of [Tokens] that is granted fewer
    than [k] retries fails after one request for each of its attempts; a
    call that is granted [k] retries or more, and whose next answer gives a
    pair of tokens, returns that pair after [k + 1] requests and stores
    it. *)
Theorem Tokens_retries_server_errors (E : Collaborators) (clock : Z -> Time)
    (retries k : nat) (expiresIn : list Duration) (st st' : World)
    (access refresh : string) (err : option error) :
  accessToken (wrapper st) = None ->
  refreshToken (wrapper st) = None ->
  haveCredentials (wrapper st) = true ->
  (forall i : nat,
     (i < k)%nat ->
     serverError
       (Do E (repeated E (credentialsRequest (wrapper st)) i (exchanges st))
          (credentialsRequest (wrapper st)))) ->
  Tokens E clock retries expiresIn st = (access, refresh, err, st') ->
  ((retries < k)%nat ->
   is_Some err
   /\ exchanges st'
      = repeated E (credentialsRequest (wrapper st)) (S retries) (exchanges st)
   /\ length (newExchanges st st') = S retries)
  /\ ((k <= retries)%nat ->
      forall accessToken refreshToken,
        completeAnswer E
          (Do E (repeated E (credentialsRequest (wrapper st)) k (exchanges st))
             (credentialsRequest (wrapper st)))
          accessToken refreshToken ->
        err = None
        /\ access = Raw accessToken /\ refresh = Raw refreshToken
        /\ wrapper st' = saveTokens (wrapper st) accessToken refreshToken
        /\ exchanges st'
           = repeated E (credentialsRequest (wrapper st)) (S k) (exchanges st)
        /\ length (newExchanges st st') = S k).
Proof.
  intros Ha Hr Hcred Hfirst H. unfold Tokens in H.
  destruct (backoff_Retry _ retries (beforeFirstAttempt, st))
    as [c' st1] eqn:Hretry.
  simplify_eq.
  assert (Hcount : forall n stn,
            exchanges stn
            = repeated E (credentialsRequest (wrapper st)) n (exchanges st) ->
            length (newExchanges st stn) = n).
  { intros n stn Hx.
    destruct (repeated_app E (credentialsRequest (wrapper st)) n (exchanges st))
      as (new & Hnew & Hlen).
    rewrite Hnew in Hx. by rewrite (newExchanges_app _ _ _ Hx). }
  split.
  - intros Hlt.
    destruct (failedRuns_server_errors E clock (freshnessWindow expiresIn)
                (S retries) beforeFirstAttempt st Ha Hr Hcred)
      as (cm & stm & Hruns & _ & Hx & Hlast).
    { intros i Hi. apply Hfirst. lia. }
    apply failedRuns_exhausted in Hruns. rewrite Hruns in Hretry.
    simplify_eq. destruct Hlast as (Herr & _); [lia |].
    split; [done |]. split; [done |]. by apply Hcount.
  - intros Hle accessToken refreshToken Hanswer.
    destruct (failedRuns_server_errors E clock (freshnessWindow expiresIn)
                k beforeFirstAttempt st Ha Hr Hcred Hfirst)
      as (cm & stm & Hruns & Hwm & Hx & _).
    rewrite (failedRuns_retry _ _ _ _ _ Hruns Hle) in Hretry.
    destruct (operation_complete E clock (freshnessWindow expiresIn) cm stm
                accessToken refreshToken)
      as (c1 & st2 & Hop & Herr & Hca & Hcr & Hw & Hex).
    + by rewrite Hwm.
    + by rewrite Hwm.
    + by rewrite Hwm.
    + by rewrite Hwm, Hx.
    + rewrite (backoff_Retry_nil _ _ _ _ Hop) in Hretry. simplify_eq.
      rewrite Hwm, Hx in Hex. rewrite Hwm in Hw.
      repeat split; try done. by apply Hcount.
Qed.

Lemma Tokens_retries_server_errors_witness :
  snd (fst overloadedCall) = None
  /\ length (newExchanges passwordWorld (snd overloadedCall)) = 3%nat.
Proof.
  destruct (Tokens_retries_server_errors
              (collaboratorsWith overloadedEndpoint) stoppedClock 3 2 []
              passwordWorld (snd overloadedCall)
              (fst (fst (fst overloadedCall)))
              (snd (fst (fst overloadedCall))) (snd (fst overloadedCall)))
    as (_ & Hanswered).
  - reflexivity.
  - reflexivity.
  - vm_compute; reflexivity.
  - intros i Hi.
    assert (i = 0 \/ i = 1)%nat as [-> | ->] by lia;
      eexists 503, _; (split; [vm_compute; reflexivity | lia]).
  - vm_compute; reflexivity.
  - destruct (Hanswered ltac:(lia) (tokenOf bearerExp2000000000Text)
                (tokenOf refreshExp2000000000Text))
      as (Herr & _ & _ & _ & _ & Hcount).
    + exists freshTokens, bearerExp2000000000Text, refreshExp2000000000Text.
      repeat split; try (vm_compute; reflexivity). right. reflexivity.
    + split; [exact Herr | exact Hcount].
Defined.

(** ** The grant that an attempt begins with *)

Section GrantOrder.

Context (E : Collaborators).

Lemma sendRefreshTokenForm_order attempt st code result err st' token :
  refreshToken (wrapper st) = Some token ->
  sendRefreshTokenForm E attempt st = (code, result, err, st') ->
  exists later,
    exchanges st'
    = later
      ++ (tokenRequest (wrapper st) (refreshForm (wrapper st) (Raw token)),
          Do E (exchanges st)
            (tokenRequest (wrapper st) (refreshForm (wrapper st) (Raw token))))
         :: exchanges st
    /\ (later = []
        \/ exists x, later = [(credentialsRequest (wrapper st), x)]).
Proof.
  unfold sendRefreshTokenForm. intros Htoken H. rewrite Htoken in H.
  destruct (sendTokenForm E (refreshForm (wrapper st) (Raw token)) attempt st)
    as [[[code1 result1] err1] st1] eqn:H1.
  apply sendTokenForm_trace in H1 as (Hx & _ & _ & Hw).
  assert (Hdirect : (code1, result1, err1, st1) = (code, result, err, st') ->
    exists later,
      exchanges st'
      = later
        ++ (tokenRequest (wrapper st) (refreshForm (wrapper st) (Raw token)),
            Do E (exchanges st)
              (tokenRequest (wrapper st)
                 (refreshForm (wrapper st) (Raw token))))
           :: exchanges st
      /\ (later = []
          \/ exists x, later = [(credentialsRequest (wrapper st), x)])).
  { intros ?; simplify_eq. exists []. split; [done | by left]. }
  destruct err1 as [e1 |]; [| by apply Hdirect; destruct result1].
  destruct result1 as [r1 |]; [| by apply Hdirect].
  case_match eqn:Hfall; [| by apply Hdirect].
  apply andb_prop in Hfall as [_ Hcred].
  apply sendRequestTokenForm_credentials in H as (st0 & _ & _ & Hex);
    [| done].
  rewrite Hw in Hex by (by eexists). rewrite Hx in Hex.
  eexists [_]. split; [exact Hex |]. right. by eexists.
Qed.

Lemma afterGrant_world r code access refresh err st' :
  afterGrant r = (code, access, refresh, err, st') -> snd r = st'.
Proof.
  destruct r as [[[code0 result0] err0] st0]. unfold afterGrant.
  destruct err0; [by intros; simplify_eq |].
  destruct (currentTokens (wrapper st0)). by intros; simplify_eq.
Qed.

End GrantOrder.

(** X19: an attempt of a wrapper that has credentials and no access token
    that is fresh enough, when the expiry of its tokens can be determined:
    if it holds a refresh token that does not expire or stays valid for the
    window, its first request is a refresh token grant with that token, and
    at most one request with the credentials follows; otherwise it makes
    exactly one request, with the credentials, and a refresh token that
    expires within the window is not used. *)
Theorem tokens_grant_order (E : Collaborators) (now : Time) (attempt : Z)
    (window : Duration) (st st' : World) (code : Z) (access refresh : string)
    (err : option error) (ae re : bool) (al rl : Duration) :
  expiryOf (accessToken (wrapper st)) now = (ae, al, None) ->
  expiryOf (refreshToken (wrapper st)) now = (re, rl, None) ->
  accessToken (wrapper st) = None \/ (ae = true /\ al < window) ->
  haveCredentials (wrapper st) = true ->
  tokens E now attempt window st = (code, access, refresh, err, st') ->
  if notNil (refreshToken (wrapper st)) && (negb re || (rl >=? window))
  then
    exists token later,
      refreshToken (wrapper st) = Some token
      /\ newExchanges st st'
         = later
           ++ [(tokenRequest (wrapper st)
                  (refreshForm (wrapper st) (Raw token)),
                Do E (exchanges st)
                  (tokenRequest (wrapper st)
                     (refreshForm (wrapper st) (Raw token))))]
      /\ (later = []
          \/ exists x, later = [(credentialsRequest (wrapper st), x)])
  else
    newExchanges st st'
    = [(credentialsRequest (wrapper st),
        Do E (exchanges st) (credentialsRequest (wrapper st)))].
Proof.
  intros Hae Hre Hstale Hcred H. unfold tokens in H.
  unfold expiryOf in Hae, Hre.
  assert (Hcached : notNil (accessToken (wrapper st))
                    && (negb ae || (al >=? window)) = false).
  { destruct Hstale as [-> | [-> Hal]]; [done |].
    apply andb_false_iff. right. cbn. lia. }
  assert (H' :
    (if notNil (refreshToken (wrapper st)) && (negb re || (rl >=? window))
     then afterGrant (sendRefreshTokenForm E attempt st)
     else afterGrant (sendRequestTokenForm E attempt st))
    = (code, access, refresh, err, st')).
  { destruct (accessToken (wrapper st)) as [at_ |];
      destruct (refreshToken (wrapper st)) as [rt |];
      rewrite ?Hae, ?Hre in H; simplify_eq; cbn in H;
      rewrite ?Hcached, ?Hcred in H; cbn in Hcached;
      rewrite ?Hcached in H; exact H. }
  clear H.
  destruct (notNil (refreshToken (wrapper st)) && _) eqn:Hfresh.
  - apply andb_prop in Hfresh as [Hsome _].
    destruct (refreshToken (wrapper st)) as [token |] eqn:Htoken; [| done].
    apply afterGrant_world in H'.
    destruct (sendRefreshTokenForm E attempt st) as [[[c0 r0] e0] st0] eqn:Hs.
    cbn in H'. subst st0.
    apply (sendRefreshTokenForm_order E _ _ _ _ _ _ token Htoken) in Hs
      as (later & Hx & Hlater).
    exists token, later. split; [done |]. split; [| done].
    apply newExchanges_app. by rewrite <- app_assoc.
  - apply afterGrant_world in H'.
    destruct (sendRequestTokenForm E attempt st) as [[[c0 r0] e0] st0] eqn:Hs.
    cbn in H'. subst st0.
    apply sendRequestTokenForm_credentials in Hs as (st0 & _ & _ & Hx);
      [| done].
    by apply (newExchanges_app _ _ [_]).
Qed.

Lemma tokens_grant_order_witness :
  map (fun exchange => grantType (fst exchange))
    (newExchanges agentWorld (snd agentAttempt))
  = ["password"; "refresh_token"].
Proof.
  pose proof (tokens_grant_order (collaboratorsWith restartedEndpoint)
                (stoppedClock 1) 1 tokenExpiry agentWorld (snd agentAttempt)
                (fst (fst (fst (fst agentAttempt))))
                (snd (fst (fst (fst agentAttempt))))
                (snd (fst (fst agentAttempt))) (snd (fst agentAttempt))
                false false 0 0) as H.
  destruct H as (token & later & _ & Hx & _).
  - reflexivity.
  - vm_compute; reflexivity.
  - left. reflexivity.
  - reflexivity.
  - vm_compute; reflexivity.
  - vm_compute; reflexivity.
Defined.

(** ** The follow-up of a refresh token grant *)

Section FollowUp.

Context (E : Collaborators).

Lemma sendTokenFormTimed_decoded form st code result err st' :
  sendTokenFormTimed E form st = (code, result, err, st') ->
  (forall r,
     result = Some r
     <-> exists status perr,
           Do E (exchanges st) (tokenRequest (wrapper st) form)
           = Response status (Unmarshalled r perr))
  /\ (forall r, result = Some r -> is_Some (Error r) -> is_Some err).
Proof.
  unfold sendTokenFormTimed. intros H.
  destruct (Do E (exchanges st) (tokenRequest (wrapper st) form))
    as [e | e | status [e | e | r0 [perr |]]];
    try (simplify_eq; split;
         [intros r; split; [done | by intros (? & ? & ?)] | done]).
  - simplify_eq. split.
    + intros r. split; [intros ?; simplify_eq; by eexists _, _ |].
      by intros (? & ? & ?); simplify_eq.
    + intros r _ _. by eexists.
  - assert (result = Some r0) as ->
      by (repeat case_match; by simplify_eq).
    split.
    + intros r. split; [intros ?; simplify_eq; by eexists _, _ |].
      by intros (? & ? & ?); simplify_eq.
    + intros r ? [e He]. simplify_eq. rewrite He in H.
      destruct (ErrorDescription r); simplify_eq; by eexists.
Qed.

Lemma sendTokenForm_timed form attempt st code result err st' :
  sendTokenForm E form attempt st = (code, result, err, st') ->
  exists st0, sendTokenFormTimed E form st = (code, result, err, st0).
Proof.
  unfold sendTokenForm. intros H.
  destruct (sendTokenFormTimed E form st) as [[[code0 result0] err0] st0].
  exists st0. case_match; by simplify_eq.
Qed.

End FollowUp.

(** X20: a refresh token grant is followed by a request with the
    credentials exactly when the wrapper has credentials and the answer to
    the grant was decoded with the error [invalid_grant], whatever its
    status; in every other case, a failure of the grant included, the grant
    is the only request. *)
Theorem sendRefreshTokenForm_follow_up_iff (E : Collaborators) (attempt : Z)
    (st st' : World) (code : Z) (result : option TokenResponse)
    (err : option error) (token : Token) :
  refreshToken (wrapper st) = Some token ->
  sendRefreshTokenForm E attempt st = (code, result, err, st') ->
  let request :=
    tokenRequest (wrapper st) (refreshForm (wrapper st) (Raw token)) in
  let x := Do E (exchanges st) request in
  ((exists y,
      newExchanges st st' = [(credentialsRequest (wrapper st), y); (request, x)])
   <-> haveCredentials (wrapper st) = true
       /\ exists status r perr,
            x = Response status (Unmarshalled r perr)
            /\ Error r = Some "invalid_grant")
  /\ (newExchanges st st' = [(request, x)]
      \/ exists y,
           newExchanges st st'
           = [(credentialsRequest (wrapper st), y); (request, x)]).
Proof.
  intros Htoken H. cbv zeta.
  pose proof (sendRefreshTokenForm_order E _ _ _ _ _ _ token Htoken H)
    as (later & Hx & Hlater).
  assert (Hnew : newExchanges st st'
                 = later
                   ++ [(tokenRequest (wrapper st)
                          (refreshForm (wrapper st) (Raw token)),
                        Do E (exchanges st)
                          (tokenRequest (wrapper st)
                             (refreshForm (wrapper st) (Raw token))))]).
  { apply newExchanges_app. by rewrite <- app_assoc. }
  rewrite Hnew.
  split; [| destruct Hlater as [-> | [y ->]]; [by left | right; by exists y]].
  unfold sendRefreshTokenForm in H. rewrite Htoken in H.
  destruct (sendTokenForm E (refreshForm (wrapper st) (Raw token)) attempt st)
    as [[[code1 result1] err1] st1] eqn:H1.
  pose proof (sendTokenForm_trace _ _ _ _ _ _ _ _ H1) as (Hx1 & _ & Hcred1 & _).
  apply sendTokenForm_timed in H1 as (st0 & Ht).
  apply sendTokenFormTimed_decoded in Ht as (Hdecoded & Herror).
  assert (Hsingle : exchanges st' = exchanges st1 ->
            (exists y,
               later
               ++ [(tokenRequest (wrapper st)
                      (refreshForm (wrapper st) (Raw token)),
                    Do E (exchanges st)
                      (tokenRequest (wrapper st)
                         (refreshForm (wrapper st) (Raw token))))]
               = [(credentialsRequest (wrapper st), y);
                  (tokenRequest (wrapper st)
                     (refreshForm (wrapper st) (Raw token)),
                   Do E (exchanges st)
                     (tokenRequest (wrapper st)
                        (refreshForm (wrapper st) (Raw token))))])
            -> False).
  { intros Hsame [y Hy]. rewrite Hsame, Hx1 in Hx.
    assert (length later = 0)%nat as Hlen.
    { apply (f_equal length) in Hx. rewrite length_app in Hx. cbn in Hx. lia. }
    apply (f_equal length) in Hy. rewrite length_app in Hy. cbn in Hy. lia. }
  assert (Hno : (code1, result1, err1, st1) = (code, result, err, st') ->
            (haveCredentials (wrapper st) = true
             /\ exists status r perr,
                  Do E (exchanges st)
                    (tokenRequest (wrapper st)
                       (refreshForm (wrapper st) (Raw token)))
                  = Response status (Unmarshalled r perr)
                  /\ Error r = Some "invalid_grant") ->
            String.eqb (default "" (match result1 with
                                    | Some r => Error r
                                    | None => None
                                    end)) "invalid_grant"
            && haveCredentials (wrapper st1) = true
            /\ exists r, result1 = Some r /\ is_Some err1).
  { intros ? (Hcred & status & r & perr & Hdo & Herr).
    assert (result1 = Some r) as -> by (apply Hdecoded; by eexists _, _).
    rewrite Herr, Hcred1, Hcred. split; [done |]. exists r. split; [done |].
    apply (Herror r); [done | by rewrite Herr]. }
  destruct err1 as [e1 |].
  - destruct result1 as [r1 |].
    + destruct (String.eqb (default "" (Error r1)) "invalid_grant"
                && haveCredentials (wrapper st1)) eqn:Hfall.
      * apply andb_prop in Hfall as [Hcode Hcred].
        apply String.eqb_eq in Hcode.
        split.
        -- intros _. split; [by rewrite <- Hcred1 |].
           destruct (proj1 (Hdecoded r1) eq_refl) as (status & perr & Hdo).
           exists status, r1, perr. split; [done |].
           destruct (Error r1); [cbn in Hcode; by subst | done].
        -- intros _.
           apply sendRequestTokenForm_credentials in H as (st2 & _ & _ & Hex);
             [| done].
           destruct Hlater as [-> | [y ->]]; [| by exists y].
           rewrite Hex, Hx1 in Hx. cbn in Hx.
           apply (f_equal length) in Hx. cbn in Hx. lia.
      * simplify_eq. split; [intros Hy; by destruct Hsingle |].
        intros Hyes. destruct (Hno eq_refl Hyes) as (Hyes' & _).
        cbn in Hyes'. congruence.
    + simplify_eq. split; [intros Hy; by destruct Hsingle |].
      intros Hyes. by destruct (Hno eq_refl Hyes) as (_ & r & ? & _).
  - assert ((code1, result1, @None error, st1) = (code, result, err, st'))
      as Heq by (by destruct result1).
    simplify_eq. split; [intros Hy; by destruct Hsingle |].
    intros Hyes. destruct (Hno eq_refl Hyes) as (_ & r & _ & Hsome).
    by apply is_Some_None in Hsome.
Qed.

Lemma sendRefreshTokenForm_follow_up_iff_witness :
  map (fun exchange => grantType (fst exchange))
    (newExchanges secretWorld (snd rejectedRefresh))
  = ["client_credentials"; "refresh_token"].
Proof.
  destruct (sendRefreshTokenForm_follow_up_iff
              (collaboratorsWith restartedEndpoint) 1 secretWorld
              (snd rejectedRefresh) (fst (fst (fst rejectedRefresh)))
              (snd (fst (fst rejectedRefresh))) (snd (fst rejectedRefresh))
              (tokenOf refreshText))
    as (Hiff & _).
  - reflexivity.
  - vm_compute; reflexivity.
  - destruct Hiff as [_ Hfollow]. destruct Hfollow as [y Hy].
    + split; [reflexivity |].
      exists 400, invalidGrant, None. split; vm_compute; reflexivity.
    + rewrite Hy. vm_compute; reflexivity.
Defined.

(** ** When [Build] panics *)

(** X21: [Build] panics exactly when all that comes before the
    registration of the metrics succeeds, a metrics subsystem is named, and
    either the builder has no registerer, which is the case when
    [MetricsRegisterer] was never called, or the registerer reports as
    registered already a collector that is not a counter for the count of
    requests, or, the counter being settled, one that is not a histogram for
    their duration. *)
Theorem Build_panics_iff (E : Collaborators) (b : TransportWrapperBuilder) :
  Build E b = BuildPanic
  <-> is_Some (b_logger b)
      /\ ~ noCredentialSource b
      /\ (exists tokens, parseTokens E 0 (b_tokens b) None None = Ok tokens)
      /\ (exists server, ParseServerAddress E (effectiveTokenURL b) = Ok server)
      /\ NewClientSelector_Build E (b_trustedCAs b) (b_insecure b) = None
      /\ b_metricsSubsystem b <> ""
      /\ (b_metricsRegisterer b = None
          \/ exists registerer,
               b_metricsRegisterer b = Some registerer
               /\ ((exists existing,
                      registerer
                        (CounterVec (b_metricsSubsystem b) "token_request_count")
                      = AlreadyRegisteredError existing
                      /\ isCounterVec existing = false)
                   \/ ((registerer
                          (CounterVec (b_metricsSubsystem b)
                             "token_request_count")
                        = RegisterNil
                        \/ exists existing,
                             registerer
                               (CounterVec (b_metricsSubsystem b)
                                  "token_request_count")
                             = AlreadyRegisteredError existing
                             /\ isCounterVec existing = true)
                       /\ exists existing,
                            registerer
                              (HistogramVec (b_metricsSubsystem b)
                                 "token_request_duration")
                            = AlreadyRegisteredError existing
                            /\ isHistogramVec existing = false))).
Proof.
  unfold Build, effectiveTokenURL. split.
  - intros H.
    destruct (b_logger b) as [lg |]; [| done].
    destruct (negb (0 <? length (b_tokens b))%nat && _ && _) eqn:Hnone;
      [done |].
    destruct (parseTokens E 0 (b_tokens b) None None) as [[a r] |] eqn:Htokens;
      [| done].
    destruct (ParseServerAddress E _) as [server |] eqn:Hserver; [| done].
    destruct (NewClientSelector_Build E _ _) eqn:Hselector; [done |].
    destruct (nonempty (b_metricsSubsystem b)) eqn:Hsub; [| done].
    apply nonempty_true in Hsub.
    split; [by eexists |].
    split; [intros Hsrc; apply noCredentialSource_iff in Hsrc; congruence |].
    split; [by eexists |]. split; [by eexists |]. split; [done |].
    split; [done |].
    unfold register in H.
    destruct (b_metricsRegisterer b) as [registerer |]; [| by left].
    right. exists registerer. split; [done |].
    destruct (registerer (CounterVec _ _)) as [| existing | e] eqn:Hcount;
      [| destruct (isCounterVec existing) eqn:Hkind | done].
    + right. split; [by left |].
      destruct (registerer (HistogramVec _ _)) as [| existing | e]; [done | | done].
      destruct (isHistogramVec existing) eqn:Hkind; [done |]. by exists existing.
    + right. split; [right; by exists existing |].
      destruct (registerer (HistogramVec _ _)) as [| existing' | e];
        [done | | done].
      destruct (isHistogramVec existing') eqn:Hkind'; [done |].
      by exists existing'.
    + left. by exists existing.
  - intros ([lg Hlog] & Hsrc & [[a r] Htokens] & [server Hserver] & Hselector
            & Hsub & Hreg).
    rewrite Hlog.
    destruct (negb (0 <? length (b_tokens b))%nat && _ && _) eqn:Hnone;
      [by apply noCredentialSource_iff in Hnone |].
    rewrite Htokens, Hserver, Hselector.
    apply nonempty_true in Hsub. rewrite Hsub. unfold register.
    destruct Hreg as [-> | (registerer & -> & Hreg)]; [done |].
    destruct Hreg
      as [(existing & -> & ->)
         | ([-> | (existing & -> & ->)] & existing' & -> & ->)]; done.
Qed.

Lemma Build_panics_iff_witness :
  Build (collaboratorsWith healthyEndpoint) unregisteredBuilder = BuildPanic.
Proof.
  apply (Build_panics_iff (collaboratorsWith healthyEndpoint)
           unregisteredBuilder).
  split; [by eexists |].
  split; [intros (_ & [Hu | Hp] & _); vm_compute in *; discriminate |].
  split; [by eexists |]. split; [by eexists |]. split; [reflexivity |].
  split; [vm_compute; discriminate | by left].
Defined.

(** ** Clusters *)

Lemma ldiff_one_bit (b : Z) (k : Z) :
  1 <= k -> Z.ldiff b 1 = 0 -> Z.land b (2 ^ k) = 0.
Proof.
  intros Hk Hb. apply Z.bits_inj'. intros n Hn.
  rewrite Z.land_spec, Z.bits_0, Z.pow2_bits_eqb by lia.
  destruct (Z.eqb_spec k n) as [<- |]; [| apply andb_false_r].
  rewrite andb_true_r.
  apply (f_equal (fun z => Z.testbit z k)) in Hb.
  rewrite Z.ldiff_spec, Z.bits_0 in Hb.
  change 1 with (2 ^ 0) in Hb. rewrite Z.pow2_bits_eqb in Hb by lia.
  assert ((0 =? k) = false) as Hz by lia. rewrite Hz in Hb.
  by rewrite andb_true_r in Hb.
Qed.

Lemma has_bit (c : Cluster) (k : Z) :
  0 <= k -> Cluster.has (Some c) (2 ^ k) = Z.testbit (bitmap_ c) k.
Proof.
  intros Hk. unfold Cluster.has.
  destruct (Z.testbit (bitmap_ c) k) eqn:Hbit.
  - apply negb_true_iff, Z.eqb_neq. intros Hzero.
    apply (f_equal (fun z => Z.testbit z k)) in Hzero.
    rewrite Z.land_spec, Z.bits_0, Z.pow2_bits_eqb, Hbit, Z.eqb_refl in Hzero
      by lia.
    done.
  - apply negb_false_iff, Z.eqb_eq. apply Z.bits_inj'. intros n Hn.
    rewrite Z.land_spec, Z.bits_0, Z.pow2_bits_eqb by lia.
    destruct (Z.eqb_spec k n) as [<- |]; [| apply andb_false_r].
    by rewrite Hbit.
Qed.

(** X22: a cluster is empty exactly when it is nil or no bit of its bitmap
    other than the lowest is set, and then none of its attributes has a
    value: [GetID], [GetHREF], [GetDisplayName] and [GetEtcdEncryption]
    return the zero value and false, whatever the fields hold. Whether the
    object is a link plays no part in [Empty]. Each getter without flag
    returns the value of the getter with flag. *)
Theorem Cluster_Empty_no_attribute (o : option Cluster) :
  (Cluster.Empty o = true
   <-> forall k, 1 <= k -> Cluster.has o (2 ^ k) = false)
  /\ (Cluster.Empty o = true
      -> Cluster.GetID o = ("", false)
         /\ Cluster.GetHREF o = ("", false)
         /\ Cluster.GetDisplayName o = ("", false)
         /\ Cluster.GetEtcdEncryption o = (false, false))
  /\ (forall c,
        o = Some c
        -> Cluster.Empty
             (Some {| bitmap_ := Z.lor (bitmap_ c) 1; id_ := id_ c;
                      href := href c; displayName := displayName c;
                      etcdEncryption := etcdEncryption c |})
           = Cluster.Empty o)
  /\ Cluster.ID o = fst (Cluster.GetID o)
  /\ Cluster.HREF o = fst (Cluster.GetHREF o)
  /\ Cluster.DisplayName o = fst (Cluster.GetDisplayName o)
  /\ Cluster.EtcdEncryption o = fst (Cluster.GetEtcdEncryption o).
Proof.
  assert (Hiff : Cluster.Empty o = true
                 <-> forall k, 1 <= k -> Cluster.has o (2 ^ k) = false).
  { destruct o as [c |]; [| done]. cbn [Cluster.Empty]. rewrite Z.eqb_eq.
    split.
    - intros Hb k Hk. unfold Cluster.has.
      rewrite (ldiff_one_bit _ k Hk Hb). done.
    - intros Hnone. apply Z.bits_inj'. intros n Hn.
      rewrite Z.ldiff_spec, Z.bits_0.
      destruct (Z.eq_dec n 0) as [-> | Hne]; [apply andb_false_r |].
      specialize (Hnone n ltac:(lia)). rewrite has_bit in Hnone by lia.
      by rewrite Hnone. }
  split; [exact Hiff |]. split; [| split].
  - intros Hempty. destruct Hiff as [Hnone _]. specialize (Hnone Hempty).
    destruct o as [c |]; [| done].
    unfold Cluster.GetID, Cluster.GetHREF, Cluster.GetDisplayName,
      Cluster.GetEtcdEncryption.
    pose proof (Hnone 1 ltac:(lia)) as H1. change (2 ^ 1) with 2 in H1.
    pose proof (Hnone 2 ltac:(lia)) as H2. change (2 ^ 2) with 4 in H2.
    pose proof (Hnone 14 ltac:(lia)) as H14.
    change (2 ^ 14) with 16384 in H14.
    pose proof (Hnone 15 ltac:(lia)) as H15.
    change (2 ^ 15) with 32768 in H15.
    by rewrite H1, H2, H14, H15.
  - intros c ->. cbn [Cluster.Empty bitmap_]. f_equal.
    apply Z.bits_inj'. intros n Hn.
    rewrite !Z.ldiff_spec, Z.lor_spec.
    destruct (Z.testbit 1 n); [by rewrite !andb_false_r |].
    by rewrite orb_false_r.
  - unfold Cluster.ID, Cluster.GetID, Cluster.HREF, Cluster.GetHREF,
      Cluster.DisplayName, Cluster.GetDisplayName, Cluster.EtcdEncryption,
      Cluster.GetEtcdEncryption.
    destruct o as [c |]; [| done].
    repeat split; by case_match.
Qed.

Lemma Cluster_Empty_no_attribute_witness :
  Cluster.Kind (Some bareLink) = "ClusterLink"
  /\ Cluster.GetID (Some bareLink) = ("", false).
Proof.
  split; [reflexivity |].
  apply (Cluster_Empty_no_attribute (Some bareLink)). reflexivity.
Defined.
